(** * Image builder of tilt: a shallow embedding of [package build]

    The Go file [internal/hud/server/websocket_reader.go] carries, after the
    websocket log reader, the docker image builder of [package build]:
    the synthesis of the fast-build Dockerfile ([DeprecatedFastBuildImage],
    [addConditionalRuns], [addRemainingRuns], [applyLabels]), the decoder of
    the daemon's JSON stream ([readDockerOutput], [cleanupDockerBuildError]),
    the recovery of the image digest ([getDigestFromDockerOutput],
    [getDigestFromAux]) and the tagging helpers ([digestAsTag],
    [digestMatchesRef]).

    Conventions of the embedding:
    - a Go [string] is a Rocq [string] (a sequence of bytes); [len] is
      [String.length], [s[:n]] is [str_take n s], [s[n:]] is [str_drop n s];
    - an [error] is its message; [errors.Wrap err msg] is [msg: err];
    - a Go function returning [(T, error)] whose value is never read on the
      error path returns [Result T]; [readDockerOutput], whose returned value
      on the error path is the subject of several properties, returns the
      Go pair as it is;
    - [int64] and [time.Duration] are [Z] with the wrap-around written out;
    - Go maps are [gmap]s; the zero value read at a missing key is [default];
    - libraries outside the repository (go-digest, regexp, encoding/json,
      the docker client) are either Section variables or modelled next to
      the place that calls them, with a comment saying so. *)

From Stdlib Require Import ZArith Lia List Ascii String Bool.
From stdpp Require Import base option gmap strings list.

Local Open Scope string_scope.
Local Open Scope list_scope.

(** ** Strings, errors *)

Module GoString.

(** [s[:n]], for [n <= len(s)] (Go panics otherwise; every use below is
    guarded by a length test). *)
Fixpoint str_take (n : nat) (s : string) : string :=
  match n, s with
  | S n', String c s' => String c (str_take n' s')
  | _, _ => EmptyString
  end.

(** [s[n:]], for [n <= len(s)]. *)
Fixpoint str_drop (n : nat) (s : string) : string :=
  match n, s with
  | S n', String _ s' => str_drop n' s'
  | _, _ => s
  end.

(** [strings.HasPrefix(s, p)]. *)
Definition HasPrefix (s p : string) : bool := String.prefix p s.

(** [strings.TrimPrefix(s, p)]. *)
Definition TrimPrefix (s p : string) : string :=
  if HasPrefix s p then str_drop (String.length p) s else s.

End GoString.
Export GoString.

Definition error := string.

(** [(T, error)] where the value is dropped on the error path. *)
Inductive Result (A : Type) : Type :=
| Ok (a : A)
| Err (e : error).
Arguments Ok {A} a.
Arguments Err {A} e.

#[global] Instance Result_ret : MRet Result := fun A a => Ok a.

#[global] Instance Result_bind : MBind Result := fun A B k r =>
  match r with
  | Ok a => k a
  | Err e => Err e
  end.

(** [errors.Wrap(err, msg)] and [errors.Wrapf] without arguments. *)
Definition Wrap (e : error) (msg : string) : error := msg +:+ ": " +:+ e.

Definition wrapErr {A} (r : Result A) (msg : string) : Result A :=
  match r with
  | Ok a => Ok a
  | Err e => Err (Wrap e msg)
  end.

(** ** The tagger: [digestAsTag] and [digestMatchesRef] *)

(** [digest.Digest] is a string type of go-digest. *)
Definition Digest := string.

(** [reference.NamedTagged], as far as the builder reads it. *)
Record NamedTagged := mkNamedTagged {
  Name : string;
  Tag : string;
}.

Section Tagger.

(** The constant [ImageTagPrefix] is declared elsewhere in [package build]. *)
Variable ImageTagPrefix : string.

(** [Digest.Encoded] is the accessor of go-digest that returns the hex part
    of a digest. *)
Variable Encoded : Digest -> string.

Definition digestAsTag (d : Digest) : Result string :=
  let str := Encoded d in
  if (String.length str <? 16)%nat then
    Err ("digest too short: " +:+ str)
  else
    Ok (ImageTagPrefix +:+ str_take 16 str).

Definition digestMatchesRef (ref : NamedTagged) (digest : Digest) : bool :=
  let digestHash := Encoded digest in
  let tag := Tag ref in
  if (String.length tag <=? String.length ImageTagPrefix)%nat then
    false
  else
    let tagHash := str_drop (String.length ImageTagPrefix) tag in
    HasPrefix digestHash tagHash.

End Tagger.

(** ** The manifest synthesizer: [DeprecatedFastBuildImage] *)

(** [PathMapping], with the two fields [BuildImage] fills in. *)
Record PathMapping := mkPathMapping {
  LocalPath : string;
  ContainerPath : string;
}.

Module dockerfile.
Section Dockerfile.

Variable Cmd : Type.

(** Modelled from the spec: the package [dockerfile] is not among the sources.
    Its [Dockerfile] is the spec's BuildManifest, "an ordered, append-only
    sequence of textual build instructions", with operations "to append a
    copy-instruction, append a run-instruction, [...] set entrypoint, and
    attach key/value labels". An instruction records which operation appended
    it; [Line] is a line appended as text by [Join]. *)
Inductive Instr : Type :=
| Line (text : string)
| RunInstr (cmd : Cmd)
| AddAllInstr
| EntrypointInstr (cmd : Cmd)
| LabelInstr (k v : string).

(** Modelled from the spec: the type [Dockerfile] of the absent package, an
    append-only sequence of instructions. *)
Definition Dockerfile : Type := list Instr.

(** Modelled from the spec: [Dockerfile.Join], absent, appends a line. *)
Definition Join (df : Dockerfile) (s : string) : Dockerfile := df ++ [Line s].

(** Modelled from the spec: [Dockerfile.Run], absent, appends a
    run-instruction. *)
Definition Run (df : Dockerfile) (cmd : Cmd) : Dockerfile := df ++ [RunInstr cmd].

(** Modelled from the spec: [Dockerfile.AddAll], absent, appends the
    catch-all copy-instruction. *)
Definition AddAll (df : Dockerfile) : Dockerfile := df ++ [AddAllInstr].

(** Modelled from the spec: [Dockerfile.Entrypoint], absent, appends the
    instruction that sets the entrypoint. *)
Definition Entrypoint (df : Dockerfile) (cmd : Cmd) : Dockerfile :=
  df ++ [EntrypointInstr cmd].

(** Modelled from the spec: [Dockerfile.WithLabel], absent, attaches a
    key/value label. *)
Definition WithLabel (df : Dockerfile) (k v : string) : Dockerfile :=
  df ++ [LabelInstr k v].

End Dockerfile.
Arguments Line {Cmd} text.
Arguments AddAllInstr {Cmd}.
Arguments LabelInstr {Cmd} k v.
Arguments RunInstr {Cmd} cmd.
Arguments EntrypointInstr {Cmd} cmd.
Arguments AddAll {Cmd} df.
Arguments Join {Cmd} df s.
Arguments WithLabel {Cmd} df k v.
Arguments Run {Cmd} df cmd.
Arguments Entrypoint {Cmd} df cmd.
End dockerfile.

(** [fmt.Sprintf("COPY %s %s", src, dst)]. *)
Definition Sprintf_COPY (src dst : string) : string :=
  "COPY " +:+ src +:+ " " +:+ dst.

Section Synthesizer.

(** [model.Cmd] and [model.PathSet] (the type of [Run.Triggers]) are declared
    in [pkg/model], which is not among the sources; the builder uses
    [Cmd.Empty], the [%s] rendering of a [Cmd], and [PathSet.Empty]. *)
Variable Cmd : Type.
Variable Cmd_Empty : Cmd -> bool.
Variable Cmd_String : Cmd -> string.
Variable PathSet : Type.
Variable PathSet_Empty : PathSet -> bool.

(** [model.Run]. *)
Record Run := mkRun {
  RunCmd : Cmd;
  Triggers : PathSet;
}.

(** [ignore.CreateRunMatcher] and [FilterMappings] are functions of other
    files of the repository; the second walks the local file system. *)
Variable PathMatcher : Type.
Variable CreateRunMatcher : Run -> Result PathMatcher.
Variable FilterMappings : list PathMapping -> PathMatcher -> Result (list PathMapping).

(** [model.Sync] and [SyncsToPathMappings]. *)
Variable Sync : Type.
Variable SyncsToPathMappings : list Sync -> list PathMapping.

(** The label constants [BuildMode] and [BuildModeScratch]. *)
Variable BuildMode : string.
Variable BuildModeScratch : string.

Abbreviation Dockerfile := (dockerfile.Dockerfile Cmd).

(** The body of the loop of [addConditionalRuns] for one run whose trigger
    set is not empty: the Dockerfile after the iteration, or the error the
    function returns. *)
Definition addConditionalRun (df : Dockerfile) (run : Run) (paths : list PathMapping)
  : Result Dockerfile :=
  matcher ← CreateRunMatcher run;
  pathsToAdd ← FilterMappings paths matcher;
  if (length pathsToAdd =? 0)%nat then
    Err ("No inputs for run: " +:+ Cmd_String (RunCmd run))
  else
    let df := fold_left
      (fun df p => dockerfile.Join df (Sprintf_COPY (ContainerPath p) (ContainerPath p)))
      pathsToAdd df in
    Ok (dockerfile.Run df (RunCmd run)).

(** The [for _, run := range runs] loop of [addConditionalRuns], with its
    two variables [df] and [consumed]; [break] ends it with the current
    values. *)
Fixpoint addConditionalRuns_loop (df : Dockerfile) (consumed : nat)
  (runs : list Run) (paths : list PathMapping) : Result (Dockerfile * nat) :=
  match runs with
  | [] => Ok (df, consumed)
  | run :: runs' =>
    if PathSet_Empty (Triggers run) then Ok (df, consumed)
    else
      df ← addConditionalRun df run paths;
      addConditionalRuns_loop df (S consumed) runs' paths
  end.

Definition addConditionalRuns (df : Dockerfile) (runs : list Run)
  (paths : list PathMapping) : Result (Dockerfile * list Run) :=
  '(df, consumed) ← addConditionalRuns_loop df 0 runs paths;
  let remainingRuns := drop consumed runs in
  Ok (df, remainingRuns).

Definition addRemainingRuns (df : Dockerfile) (remaining : list Run) : Dockerfile :=
  fold_left (fun df run => dockerfile.Run df (RunCmd run)) remaining df.

(** [extraLabels] is a Go map; the list gives its entries in the order the
    [range] statement visits them. *)
Definition applyLabels (extraLabels : list (string * string))
  (df : Dockerfile) (buildMode : string) : Dockerfile :=
  let df := dockerfile.WithLabel df BuildMode buildMode in
  fold_left (fun df kv => dockerfile.WithLabel df kv.1 kv.2) extraLabels df.

(** [DeprecatedFastBuildImage] up to its last statement: the Dockerfile and
    the path mappings it hands to [buildFromDf]. *)
Definition DeprecatedFastBuildImage (extraLabels : list (string * string))
  (baseDockerfile : Dockerfile) (syncs : list Sync) (runs : list Run)
  (entrypoint : Cmd) : Result (Dockerfile * list PathMapping) :=
  let hasEntrypoint := negb (Cmd_Empty entrypoint) in
  let paths := SyncsToPathMappings syncs in
  let df := baseDockerfile in
  '(df, runs) ← wrapErr (addConditionalRuns df runs paths) "DeprecatedFastBuildImage";
  let df := dockerfile.AddAll df in
  let df := addRemainingRuns df runs in
  let df := if hasEntrypoint then dockerfile.Entrypoint df entrypoint else df in
  let df := applyLabels extraLabels df BuildModeScratch in
  Ok (df, paths).

End Synthesizer.
Arguments mkRun {Cmd PathSet} RunCmd Triggers.
Arguments RunCmd {Cmd PathSet} r.
Arguments Triggers {Cmd PathSet} r.

(** ** Regular expressions of the builder *)

Module regexp.

(** The character classes [[0-9a-f]] and [\s] (which is [[\t\n\f\r ]] in
    Go's syntax). *)
Definition is_lower_hex (c : ascii) : bool :=
  let n := nat_of_ascii c in
  ((48 <=? n) && (n <=? 57) || (97 <=? n) && (n <=? 102))%nat.

Definition is_space (c : ascii) : bool :=
  let n := nat_of_ascii c in
  ((n =? 9) || (n =? 10) || (n =? 12) || (n =? 13) || (n =? 32))%nat.

(** The longest run of characters of a class at the start of a string, and
    what follows it. *)
Fixpoint span (f : ascii -> bool) (s : string) : string * string :=
  match s with
  | String c s' =>
    if f c then let '(run, rest) := span f s' in (String c run, rest)
    else (EmptyString, s)
  | EmptyString => (EmptyString, EmptyString)
  end.

Fixpoint all_chars (f : ascii -> bool) (s : string) : bool :=
  match s with
  | String c s' => f c && all_chars f s'
  | EmptyString => true
  end.

(** [oldDigestRegexp.FindStringSubmatch(msg)] for
    [oldDigestRegexp = ^Successfully built ([0-9a-f]+)\s*$]: the whole match
    and the group, or [nil]. The pattern is anchored at both ends of the
    text; the greedy group takes the whole run of hex digits, since a hex
    digit left over could be matched neither by [\s] nor by [$]. *)
Definition oldDigestRegexp_FindStringSubmatch (msg : string) : list string :=
  let lit := "Successfully built " in
  if HasPrefix msg lit then
    let '(hex, rest) := span is_lower_hex (str_drop (String.length lit) msg) in
    if (String.length hex =? 0)%nat then []
    else if all_chars is_space rest then [msg; hex]
    else []
  else [].

(** The two patterns of [dockerBuildCleanupRexes] have the shape
    [before], a group made of [group_open], a greedy [.*] and [group_close],
    then [after], with four literal strings, none of which
    holds a newline, and one greedy [.*]. *)
Record Regexp := mkRegexp {
  before : string;
  group_open : string;
  group_close : string;
  after : string;
}.

Definition newline : ascii := ascii_of_nat 10.

(** The text up to the first newline: what [.*] can range over. *)
Fixpoint line_of (s : string) : string :=
  match s with
  | String c s' => if Ascii.eqb c newline then EmptyString else String c (line_of s')
  | EmptyString => EmptyString
  end.

(** The last position of [s] where [pat] starts. *)
Fixpoint last_index (pat s : string) : option nat :=
  match s with
  | String c s' =>
    match last_index pat s' with
    | Some j => Some (S j)
    | None => if String.prefix pat s then Some 0%nat else None
    end
  | EmptyString => if String.prefix pat s then Some 0%nat else None
  end.

(** A match of the pattern starting at the first character of [s]: the text
    of the group and the length of the match. The greedy [.*] stops at the
    last place of the line where the rest of the pattern matches. *)
Definition match_here (re : Regexp) (s : string) : option (string * nat) :=
  let head := before re +:+ group_open re in
  let tail := group_close re +:+ after re in
  if String.prefix head s then
    let line := line_of (str_drop (String.length head) s) in
    match last_index tail line with
    | Some j =>
      Some (group_open re +:+ str_take j line +:+ group_close re,
            (String.length head + j + String.length tail)%nat)
    | None => None
    end
  else None.

(** [re.ReplaceAllString(src, "$1")]: every match, leftmost first and without
    overlap, is replaced by its group. [skip] counts the characters of a
    match still to be passed over. *)
Fixpoint ReplaceAllString_from (re : Regexp) (skip : nat) (src : string) : string :=
  match src with
  | EmptyString => EmptyString
  | String c src' =>
    match skip with
    | S k => ReplaceAllString_from re k src'
    | O =>
      match match_here re src with
      | Some (group, n) => group +:+ ReplaceAllString_from re (n - 1) src'
      | None => String c (ReplaceAllString_from re 0 src')
      end
    end
  end.

Definition ReplaceAllString_group1 (re : Regexp) (src : string) : string :=
  ReplaceAllString_from re 0 src.

End regexp.

(** The first pattern: a group made of [executor failed running] and a
    greedy [.*], followed by [: runc did not terminate sucessfully] (sic). *)
Definition rex_executor_failed : regexp.Regexp :=
  regexp.mkRegexp "" "executor failed running" ""
    ": runc did not terminate sucessfully".

(** The second pattern: [failed to compute cache key: ], a group made of a
    greedy [.*] and [ not found], followed by [: not found]. *)
Definition rex_cache_key : regexp.Regexp :=
  regexp.mkRegexp "failed to compute cache key: " "" " not found" ": not found".

Definition dockerBuildCleanupRexes : list regexp.Regexp :=
  [rex_executor_failed; rex_cache_key].

Definition cleanupDockerBuildError (err : string) : string :=
  let ret := TrimPrefix err
    "failed to solve with frontend dockerfile.v0: failed to build LLB: " in
  fold_left (fun ret re => regexp.ReplaceAllString_group1 re ret)
    dockerBuildCleanupRexes ret.

(** ** The decoder of the daemon's stream: [readDockerOutput] *)

(** [json.RawMessage]: bytes of JSON not yet decoded. *)
Definition RawMessage := string.

(** [jsonmessage.JSONProgress], [JSONError] and [JSONMessage] of the docker
    library, with the fields the decoder reads. *)
Record JSONProgress := mkJSONProgress {
  Current : Z;
  Total : Z;
}.

Record JSONError := mkJSONError {
  Code : Z;
  Message : string;
}.

Record JSONMessage := mkJSONMessage {
  Stream : string;
  Status : string;
  Progress : option JSONProgress;
  ID : string;
  Error : option JSONError;
  ErrorMessage : string;
  Aux : option RawMessage;
}.

Record dockerOutput := mkDockerOutput {
  aux : option RawMessage;
  shortDigest : string;
}.

(** [dockerOutput{}] *)
Definition dockerOutput_zero : dockerOutput := mkDockerOutput None "".

(** A call of a Go function either returns or panics. *)
Inductive Outcome (A : Type) : Type :=
| Returns (a : A)
| Panics (msg : string).
Arguments Returns {A} a.
Arguments Panics {A} msg.

(** *** Durations and instants *)

Module time.

Definition minInt64 : Z := (- 2 ^ 63)%Z.
Definition maxInt64 : Z := (2 ^ 63 - 1)%Z.

(** The value an [int64] holds after an operation whose exact result is [z]. *)
Definition wrap64 (z : Z) : Z := ((z + 2 ^ 63) mod 2 ^ 64 - 2 ^ 63)%Z.

(** [time.Duration] is an [int64] count of nanoseconds. *)
Abbreviation Duration := Z.
Definition Second : Duration := 1000000000%Z.

(** An instant is the reading of the monotonic clock, in nanoseconds. *)
Abbreviation Time := Z.

(** [t.Sub(u)]: the difference, which the library pins to the range of
    [Duration]. *)
Definition Sub (t u : Time) : Duration :=
  Z.max minInt64 (Z.min maxInt64 (t - u)%Z).

End time.

(** The readings of the clock in one iteration of the decoder's loop:
    [time.Since] reads it first, [time.Now] reads it when the line has been
    printed. *)
Record Clock := mkClock {
  atSince : time.Time;
  atNow : time.Time;
}.

(** *** The graph-trace payload: [toBuildkitStatus] and [toVertexes] *)

(** [controlapi.StatusResponse] of buildkit and its parts. *)
Record controlapi_Vertex := mkControlVertex {
  Vertex_Digest : string;
  Vertex_Name : string;
  Vertex_Cached : bool;
  Vertex_Started : option time.Time;
  Vertex_Completed : option time.Time;
  Vertex_Error : string;
}.

Record controlapi_VertexLog := mkControlVertexLog {
  VertexLog_Vertex : string;
  VertexLog_Msg : string;
}.

Record StatusResponse := mkStatusResponse {
  Vertexes : list controlapi_Vertex;
  Logs : list controlapi_VertexLog;
}.

Record vertex := mkVertex {
  vertex_digest : string;
  vertex_name : string;
  vertex_error : string;
  vertex_started : bool;
  vertex_completed : bool;
  vertex_cached : bool;
  vertex_duration : time.Duration;
}.

Record vertexLog := mkVertexLog {
  vertexLog_vertex : string;
  vertexLog_msg : string;
}.

Definition toVertex (v : controlapi_Vertex) : vertex :=
  let started := bool_decide (is_Some (Vertex_Started v)) in
  let completed := bool_decide (is_Some (Vertex_Completed v)) in
  let duration :=
    match Vertex_Started v, Vertex_Completed v with
    | Some s, Some c => time.Sub c s
    | _, _ => 0%Z
    end in
  mkVertex (Vertex_Digest v) (Vertex_Name v) (Vertex_Error v)
    started completed (Vertex_Cached v) duration.

Definition toVertexes (resp : StatusResponse) : list vertex * list vertexLog :=
  (map toVertex (Vertexes resp),
   map (fun v => mkVertexLog (VertexLog_Vertex v) (VertexLog_Msg v)) (Logs resp)).

Definition messageIsFromBuildkit (msg : JSONMessage) : bool :=
  bool_decide (ID msg = "moby.buildkit.trace").

(** What the decoder writes to the logger of its context: the stream text of
    [Write(InfoLvl, msg)] and the progress line of
    [Infof("%s: %s %s", id, status, progress)]. *)
Inductive LogEvent : Type :=
| LogWrite (msg : string)
| LogProgress (id status : string) (progress : JSONProgress).

Section Decoder.

(** The printer of graph-trace records ([buildkitPrinter], with
    [newBuildkitPrinter] and [parseAndPrint]) is in another file of the
    package; [encoding/json] and the protobuf decoder of [StatusResponse]
    are libraries. The printer is a mutable object: its state is threaded. *)
Variable buildkitPrinter : Type.
Variable newBuildkitPrinter : buildkitPrinter.
Variable parseAndPrint :
  buildkitPrinter -> list vertex * list vertexLog -> buildkitPrinter * option error.
Variable json_Unmarshal_bytes : RawMessage -> Result string.
Variable StatusResponse_Unmarshal : string -> Result StatusResponse.

(** [toBuildkitStatus(aux, b)]; [*aux] panics on a nil pointer. *)
Definition toBuildkitStatus (aux : option RawMessage) (b : buildkitPrinter)
  : buildkitPrinter * Outcome (option error) :=
  match aux with
  | None => (b, Panics "invalid memory address or nil pointer dereference")
  | Some raw =>
    match json_Unmarshal_bytes raw with
    | Err err => (b, Returns (Some err))
    | Ok dt =>
      match StatusResponse_Unmarshal dt with
      | Err err => (b, Returns (Some err))
      | Ok resp =>
        let '(b, err) := parseAndPrint b (toVertexes resp) in (b, Returns err)
      end
    end
  end.

(** The variables of [readDockerOutput] that outlive an iteration, and the
    lines logged so far (oldest first). *)
Record DecoderState := mkDecoderState {
  progressLastPrinted : gmap string time.Time;
  progressPrintWait : gmap string time.Duration;
  result : dockerOutput;
  b : buildkitPrinter;
  logged : list LogEvent;
}.

Definition initialState : DecoderState :=
  mkDecoderState ∅ ∅ dockerOutput_zero newBuildkitPrinter [].

(** Lines 543-556: the stream text. The tracing spans opened for [Run] lines
    carry no data of the result and are left out. *)
Definition handleStream (st : DecoderState) (message : JSONMessage) : DecoderState :=
  if (0 <? String.length (Stream message))%nat then
    let msg := Stream message in
    let builtDigestMatch := regexp.oldDigestRegexp_FindStringSubmatch msg in
    let result :=
      if (2 <=? length builtDigestMatch)%nat then
        mkDockerOutput (aux (result st)) (nth 1 builtDigestMatch "")
      else result st in
    mkDecoderState (progressLastPrinted st) (progressPrintWait st) result (b st)
      (logged st ++ [LogWrite msg])
  else st.

(** [shouldPrint] and [shouldSkip] of lines 572-576; [now] is the reading
    of the clock in [time.Since]. *)
Definition shouldPrint (st : DecoderState) (now : time.Time) (id : string)
  (progress : JSONProgress) : bool :=
  let waitDur := default 0%Z (progressPrintWait st !! id) in
  match progressLastPrinted st !! id with
  | None => true
  | Some lastPrinted =>
    (Current progress =? Total progress)%Z || (waitDur <? time.Sub now lastPrinted)%Z
  end.

Definition shouldSkip (message : JSONMessage) (progress : JSONProgress) : bool :=
  (Current progress =? 0)%Z &&
  (String.eqb (Status message) "Waiting" || String.eqb (Status message) "Preparing").

(** Lines 566-587: the throttled progress line. *)
Definition handleProgress (st : DecoderState) (clock : Clock)
  (message : JSONMessage) : DecoderState :=
  let id := ID message in
  match Progress message with
  | Some progress =>
    if negb (String.eqb id "") then
      let waitDur := default 0%Z (progressPrintWait st !! id) in
      if shouldPrint st (atSince clock) id progress
         && negb (shouldSkip message progress) then
        mkDecoderState
          (<[id := atNow clock]> (progressLastPrinted st))
          (<[id := if (waitDur =? 0)%Z then (5 * time.Second)%Z
                   else time.wrap64 (2 * waitDur)]> (progressPrintWait st))
          (result st) (b st)
          (logged st ++ [LogProgress id (Status message) progress])
      else st
    else st
  | None => st
  end.

(** Lines 596-598. *)
Definition handleAux (st : DecoderState) (message : JSONMessage) : DecoderState :=
  match Aux message with
  | Some a =>
    if negb (messageIsFromBuildkit message) then
      mkDecoderState (progressLastPrinted st) (progressPrintWait st)
        (mkDockerOutput (Some a) (shortDigest (result st))) (b st) (logged st)
    else st
  | None => st
  end.

(** How an iteration of the loop ends: it goes on to the next one, or the
    function returns, or it panics. *)
Inductive Flow : Type :=
| Continue
| Exit (o : Outcome (dockerOutput * option error)).

(** One iteration of [for decoder.More()]: [decoded] is what
    [decoder.Decode(&message)] gave. *)
Definition loopBody (st : DecoderState) (clock : Clock)
  (decoded : Result JSONMessage) : DecoderState * Flow :=
  match decoded with
  | Err err =>
    (st, Exit (Returns (dockerOutput_zero, Some (Wrap err "decoding docker output"))))
  | Ok message =>
    let st := handleStream st message in
    if negb (String.eqb (ErrorMessage message) "") then
      (st, Exit (Returns (dockerOutput_zero,
                          Some (cleanupDockerBuildError (ErrorMessage message)))))
    else
    match Error message with
    | Some e =>
      (st, Exit (Returns (dockerOutput_zero,
                          Some (cleanupDockerBuildError (Message e)))))
    | None =>
      let st := handleProgress st clock message in
      if messageIsFromBuildkit message then
        let '(b', o) := toBuildkitStatus (Aux message) (b st) in
        let st := mkDecoderState (progressLastPrinted st) (progressPrintWait st)
                    (result st) b' (logged st) in
        match o with
        | Panics msg => (st, Exit (Panics msg))
        | Returns (Some err) => (st, Exit (Returns (dockerOutput_zero, Some err)))
        | Returns None => (handleAux st message, Continue)
        end
      else (handleAux st message, Continue)
    end
  end.

(** The loop and what follows it. [reader] lists, for each element the
    decoder finds in the response, the clock readings of its iteration and
    the result of decoding it; [ctxErr] is the value of [ctx.Err()] once the
    stream is exhausted. *)
Fixpoint readDockerOutput_loop (ctxErr : option error) (st : DecoderState)
  (reader : list (Clock * Result JSONMessage))
  : DecoderState * Outcome (dockerOutput * option error) :=
  match reader with
  | [] =>
    match ctxErr with
    | Some err => (st, Returns (dockerOutput_zero, Some err))
    | None => (st, Returns (result st, None))
    end
  | (clock, decoded) :: reader' =>
    match loopBody st clock decoded with
    | (st, Exit o) => (st, o)
    | (st, Continue) => readDockerOutput_loop ctxErr st reader'
    end
  end.

(** [readDockerOutput] with the state it leaves behind (log and printer). *)
Definition readDockerOutput_run (ctxErr : option error)
  (reader : list (Clock * Result JSONMessage))
  : DecoderState * Outcome (dockerOutput * option error) :=
  readDockerOutput_loop ctxErr initialState reader.

Definition readDockerOutput (ctxErr : option error)
  (reader : list (Clock * Result JSONMessage))
  : Outcome (dockerOutput * option error) :=
  (readDockerOutput_run ctxErr reader).2.

End Decoder.
Arguments mkDecoderState {buildkitPrinter} progressLastPrinted progressPrintWait result b logged.
Arguments progressLastPrinted {buildkitPrinter} d.
Arguments progressPrintWait {buildkitPrinter} d.
Arguments result {buildkitPrinter} d.
Arguments b {buildkitPrinter} d.
Arguments logged {buildkitPrinter} d.
Arguments initialState {buildkitPrinter} newBuildkitPrinter.
Arguments handleStream {buildkitPrinter} st message.
Arguments shouldPrint {buildkitPrinter} st now id progress.
Arguments handleProgress {buildkitPrinter} st clock message.
Arguments handleAux {buildkitPrinter} st message.

(** ** Recovering the digest: [getDigestFromDockerOutput] *)

(** [types.ImageInspect] of the docker library, with the field read here. *)
Record ImageInspect := mkImageInspect {
  ImageInspect_ID : string;
}.

(** The calls made on the docker client [d.dCli]. *)
Inductive DockerCall : Type :=
| ImageInspectWithRaw_call (imageID : string).

Section DigestRecovery.

(** [json.Unmarshal] into a [map[string]string], and the answer of the
    daemon to [ImageInspectWithRaw]. *)
Variable json_Unmarshal_map : RawMessage -> Result (gmap string string).
Variable ImageInspectWithRaw : string -> Result ImageInspect.

Definition getDigestFromAux (aux : RawMessage) : Result Digest :=
  match json_Unmarshal_map aux with
  | Err err => Err (Wrap err "getDigestFromAux")
  | Ok digestMap =>
    match digestMap !! "ID" with
    | None => Err "getDigestFromAux: ID not found"
    | Some id => Ok id
    end
  end.

(** The result, with the calls made on the docker client on the way. *)
Definition getDigestFromDockerOutput (output : dockerOutput)
  : list DockerCall * Result Digest :=
  match aux output with
  | Some a => ([], getDigestFromAux a)
  | None =>
    if negb (String.eqb (shortDigest output) "") then
      ([ImageInspectWithRaw_call (shortDigest output)],
       match ImageInspectWithRaw (shortDigest output) with
       | Err err => Err err
       | Ok data => Ok (ImageInspect_ID data)
       end)
    else
      ([], Err "Docker is not responding. Maybe Docker is out of disk space? Try running `docker system prune`")
  end.

Variable buildkitPrinter : Type.
Variable newBuildkitPrinter : buildkitPrinter.
Variable parseAndPrint :
  buildkitPrinter -> list vertex * list vertexLog -> buildkitPrinter * option error.
Variable json_Unmarshal_bytes : RawMessage -> Result string.
Variable StatusResponse_Unmarshal : string -> Result StatusResponse.

Definition getDigestFromBuildOutput (ctxErr : option error)
  (reader : list (Clock * Result JSONMessage))
  : Outcome (list DockerCall * Result Digest) :=
  match readDockerOutput buildkitPrinter newBuildkitPrinter parseAndPrint
          json_Unmarshal_bytes StatusResponse_Unmarshal ctxErr reader with
  | Panics msg => Panics msg
  | Returns (_, Some err) => Returns ([], Err (Wrap err "ImageBuild"))
  | Returns (result, None) =>
    let '(calls, digest) := getDigestFromDockerOutput result in
    Returns (calls, wrapErr digest "getDigestFromBuildOutput")
  end.

End DigestRecovery.

(** A model of [Digest.Encoded] for the examples: the text after the first
    colon of [algorithm:hex]. (go-digest panics on a digest that has no
    colon; the examples use digests that have one.) *)
Fixpoint Encoded_after_colon (d : Digest) : string :=
  match d with
  | String c d' => if Ascii.eqb c ":" then d' else Encoded_after_colon d'
  | EmptyString => EmptyString
  end.


(** ** Indenting the Dockerfile in the log: [indent] *)

Module GoSplit.

(** The string ["\n"]. *)
Definition LF : string := String (ascii_of_nat 10) EmptyString.

(** [strings.Split(s, sep)] for a separator that is not empty: the pieces
    of [s] between the occurrences of [sep], found from the left and without
    overlap. The scan keeps the piece under construction; [skip] counts the
    characters of a separator still to be passed over. *)
Fixpoint Split_from (sep : string) (skip : nat) (s : string) : string * list string :=
  match s with
  | EmptyString => (EmptyString, [])
  | String c s' =>
    match skip with
    | S k => Split_from sep k s'
    | O =>
      if String.prefix sep s then
        let '(piece, pieces) := Split_from sep (String.length sep - 1) s' in
        (EmptyString, piece :: pieces)
      else
        let '(piece, pieces) := Split_from sep 0 s' in
        (String c piece, pieces)
    end
  end.

Definition Split (s sep : string) : list string :=
  let '(piece, pieces) := Split_from sep 0 s in piece :: pieces.

(** Whether a character is in a cutset. *)
Fixpoint inCutset (c : ascii) (cutset : string) : bool :=
  match cutset with
  | String c' cutset' => Ascii.eqb c c' || inCutset c cutset'
  | EmptyString => false
  end.

(** [strings.TrimRight(s, cutset)]: [s] without its trailing characters
    that are in [cutset]. *)
Fixpoint TrimRight (s cutset : string) : string :=
  match s with
  | EmptyString => EmptyString
  | String c s' =>
    match TrimRight s' cutset with
    | EmptyString => if inCutset c cutset then EmptyString else String c EmptyString
    | r => String c r
    end
  end.

End GoSplit.

(** The loop [for _, j := range pieces { result += indent + j + "\n" }]. *)
Definition indent_lines (indent : string) (pieces : list string) : string :=
  fold_left (fun result j => result +:+ (indent +:+ j +:+ GoSplit.LF)) pieces "".

Definition indent (text indent : string) : string :=
  if String.eqb text "" then indent +:+ text
  else if String.eqb (str_drop (String.length text - 1) text) GoSplit.LF then
    indent_lines indent
      (GoSplit.Split (str_take (String.length text - 1) text) GoSplit.LF)
  else
    let result :=
      indent_lines indent (GoSplit.Split (GoSplit.TrimRight text GoSplit.LF) GoSplit.LF) in
    str_take (String.length result - 1) result.

(** ** Tagging and pushing: [TagImage] and [PushImage] *)

(** The calls [TagImage] and [PushImage] make on the docker client. *)
Inductive ClientCall : Type :=
| ImageTag_call (source target : string)
| ImagePush_call (ref : NamedTagged).

Section TagAndPush.

Variable ImageTagPrefix : string.
Variable Encoded : Digest -> string.

(** [reference.Named], [reference.WithTag] and the [String] method of a tagged
    reference belong to docker/distribution; [ImageTag] and [ImagePush] are
    the answers of the docker client, the second one the decoded elements of
    the response. [Digest.String] is the conversion of the string type. *)
Variable Named : Type.
Variable WithTag : Named -> string -> Result NamedTagged.
Variable NamedTagged_String : NamedTagged -> string.
Variable ImageTag : string -> string -> option error.
Variable ImagePush : NamedTagged -> Result (list (Clock * Result JSONMessage)).

(** The [%q] verb of [fmt]. *)
Variable Sprintf_q : string -> string.

(** The result, with the calls made on the docker client on the way. *)
Definition TagImage (ref : Named) (dig : Digest) : list ClientCall * Result NamedTagged :=
  match digestAsTag ImageTagPrefix Encoded dig with
  | Err err => ([], Err (Wrap err "TagImage"))
  | Ok tag =>
    match WithTag ref tag with
    | Err err => ([], Err (Wrap err "TagImage"))
    | Ok namedTagged =>
      ([ImageTag_call dig (NamedTagged_String namedTagged)],
       match ImageTag dig (NamedTagged_String namedTagged) with
       | Some err => Err (Wrap err "TagImage#ImageTag")
       | None => Ok namedTagged
       end)
    end
  end.

Variable buildkitPrinter : Type.
Variable newBuildkitPrinter : buildkitPrinter.
Variable parseAndPrint :
  buildkitPrinter -> list vertex * list vertexLog -> buildkitPrinter * option error.
Variable json_Unmarshal_bytes : RawMessage -> Result string.
Variable StatusResponse_Unmarshal : string -> Result StatusResponse.

(** The deferred [Close] of the response only writes to the log when it
    fails; the tracing span carries no data of the result. *)
Definition PushImage (ctxErr : option error) (ref : NamedTagged)
  : Outcome (Result NamedTagged) :=
  match ImagePush ref with
  | Err err => Returns (Err (Wrap err "PushImage#ImagePush"))
  | Ok imagePushResponse =>
    match readDockerOutput buildkitPrinter newBuildkitPrinter parseAndPrint
            json_Unmarshal_bytes StatusResponse_Unmarshal ctxErr imagePushResponse with
    | Panics msg => Panics msg
    | Returns (_, Some err) =>
      Returns (Err (Wrap err ("pushing image " +:+ Sprintf_q (Name ref))))
    | Returns (_, None) => Returns (Ok ref)
    end
  end.

End TagAndPush.

(** * Vocabulary of the statements *)

(** ** Manifest synthesis *)

Section SynthesizerVocabulary.

Variable Cmd : Type.
Variable PathSet : Type.
Variable PathSet_Empty : PathSet -> bool.

(** A conditional run is one whose trigger set is not empty. *)
Definition conditional (run : Run Cmd PathSet) : bool :=
  negb (PathSet_Empty (Triggers run)).

(** The runs before the first one whose trigger set is empty, and the runs
    from that one on. *)
Fixpoint conditionalPrefix (runs : list (Run Cmd PathSet)) : list (Run Cmd PathSet) :=
  match runs with
  | run :: runs' => if conditional run then run :: conditionalPrefix runs' else []
  | [] => []
  end.

Fixpoint afterConditionalPrefix (runs : list (Run Cmd PathSet)) : list (Run Cmd PathSet) :=
  match runs with
  | run :: runs' => if conditional run then afterConditionalPrefix runs' else runs
  | [] => []
  end.

(** One copy-instruction per path mapping, from the container path to the
    container path. *)
Definition copyInstrs (ps : list PathMapping) : dockerfile.Dockerfile Cmd :=
  map (fun p => dockerfile.Line (Sprintf_COPY (ContainerPath p) (ContainerPath p))) ps.

Definition runInstrs (runs : list (Run Cmd PathSet)) : dockerfile.Dockerfile Cmd :=
  map (fun run => dockerfile.RunInstr (RunCmd run)) runs.

Definition labelInstrs (labels : list (string * string)) : dockerfile.Dockerfile Cmd :=
  map (fun kv => dockerfile.LabelInstr kv.1 kv.2) labels.

Variable PathMatcher : Type.
Variable CreateRunMatcher : Run Cmd PathSet -> Result PathMatcher.
Variable FilterMappings : list PathMapping -> PathMatcher -> Result (list PathMapping).

(** The path mappings a run's triggers match: its matcher is created and the
    filter returns [ps]. *)
Definition matchedMappings (paths : list PathMapping) (run : Run Cmd PathSet)
  (ps : list PathMapping) : Prop :=
  exists matcher, CreateRunMatcher run = Ok matcher /\
                  FilterMappings paths matcher = Ok ps.

Variable Cmd_String : Cmd -> string.

(** A run of the conditional prefix fails with [e]: [e] is the error of its
    matcher, or the error of the filter, or, when the filter returns no path
    mapping, [No inputs for run: ] followed by the command of the run. *)
Definition runFailure (paths : list PathMapping) (run : Run Cmd PathSet)
  (e : error) : Prop :=
  CreateRunMatcher run = Err e \/
  (exists matcher, CreateRunMatcher run = Ok matcher /\
                   FilterMappings paths matcher = Err e) \/
  (matchedMappings paths run [] /\
   e = "No inputs for run: " +:+ Cmd_String (RunCmd run)).

(** The instructions of the conditional prefix: for each run its copies, then
    its run-instruction. *)
Definition conditionalInstrs (runs : list (Run Cmd PathSet))
  (matched : list (list PathMapping)) : dockerfile.Dockerfile Cmd :=
  concat (zip_with (fun run ps => copyInstrs ps ++ [dockerfile.RunInstr (RunCmd run)])
            runs matched).

Variable Cmd_Empty : Cmd -> bool.
Variable BuildMode : string.
Variable BuildModeScratch : string.

(** What [DeprecatedFastBuildImage] appends after the conditional prefix:
    the catch-all copy, the remaining runs, the entrypoint if there is one,
    and the labels. *)
Definition manifestTail (extraLabels : list (string * string))
  (remaining : list (Run Cmd PathSet)) (entrypoint : Cmd) : dockerfile.Dockerfile Cmd :=
  dockerfile.AddAllInstr :: runInstrs remaining
    ++ (if Cmd_Empty entrypoint then [] else [dockerfile.EntrypointInstr entrypoint])
    ++ dockerfile.LabelInstr BuildMode BuildModeScratch :: labelInstrs extraLabels.

End SynthesizerVocabulary.
Arguments conditional {Cmd PathSet} PathSet_Empty run.
Arguments conditionalPrefix {Cmd PathSet} PathSet_Empty runs.
Arguments afterConditionalPrefix {Cmd PathSet} PathSet_Empty runs.
Arguments copyInstrs {Cmd} ps.
Arguments runInstrs {Cmd PathSet} runs.
Arguments labelInstrs {Cmd} labels.
Arguments matchedMappings {Cmd PathSet PathMatcher} CreateRunMatcher FilterMappings paths run ps.
Arguments runFailure {Cmd PathSet PathMatcher} CreateRunMatcher FilterMappings Cmd_String paths run e.
Arguments conditionalInstrs {Cmd PathSet} runs matched.
Arguments manifestTail {Cmd PathSet} Cmd_Empty BuildMode BuildModeScratch extraLabels remaining entrypoint.

(** A small instance of what the synthesizer takes from other packages, for
    the examples: a command is its text, a trigger set is a list of paths,
    and the filter keeps the mappings whose local path is a trigger. *)
Module Toy.

Definition Cmd := string.
Definition Cmd_Empty (c : Cmd) : bool := String.eqb c "".
Definition Cmd_String (c : Cmd) : string := c.
Definition PathSet := list string.
Definition PathSet_Empty (ps : PathSet) : bool := bool_decide (ps = []).
Definition PathMatcher := list string.
Definition CreateRunMatcher (run : Run Cmd PathSet) : Result PathMatcher :=
  Ok (Triggers run).
Definition FilterMappings (paths : list PathMapping) (m : PathMatcher)
  : Result (list PathMapping) :=
  Ok (filter (fun p => LocalPath p ∈ m) paths).
Definition SyncsToPathMappings (syncs : list PathMapping) : list PathMapping := syncs.

Definition addConditionalRuns :=
  addConditionalRuns Cmd Cmd_String PathSet PathSet_Empty PathMatcher
    CreateRunMatcher FilterMappings.

Definition DeprecatedFastBuildImage :=
  DeprecatedFastBuildImage Cmd Cmd_Empty Cmd_String PathSet PathSet_Empty
    PathMatcher CreateRunMatcher FilterMappings PathMapping SyncsToPathMappings
    "tilt.buildMode" "scratch".

End Toy.

(** ** Decoding *)

(** The texts the pattern of the legacy digest line matches, with the text
    [hex] of the group. *)
Definition matchesOldDigest (msg hex : string) : Prop :=
  exists ws, msg = "Successfully built " +:+ hex +:+ ws /\
    hex <> "" /\ regexp.all_chars regexp.is_lower_hex hex = true /\
    regexp.all_chars regexp.is_space ws = true.

(** What one decoded record does to the output: its aux payload replaces
    the one retained unless the record is a graph-trace record, and the
    group of a legacy digest line replaces the short digest. *)
Definition recordOutput (out : dockerOutput) (m : JSONMessage) : dockerOutput :=
  mkDockerOutput
    (match Aux m with
     | Some a => if messageIsFromBuildkit m then aux out else Some a
     | None => aux out
     end)
    (match regexp.oldDigestRegexp_FindStringSubmatch (Stream m) with
     | _ :: hex :: _ => hex
     | _ => shortDigest out
     end).

(** The records of a response that were decoded. *)
Definition decodedMessages (reader : list (Clock * Result JSONMessage))
  : list JSONMessage :=
  omap (fun item => match item.2 with Ok m => Some m | Err _ => None end) reader.

(** An error record, and the message the daemon put in it: the top-level
    error string when there is one, else the message of the error object. *)
Definition isErrorRecord (m : JSONMessage) : Prop :=
  ErrorMessage m <> "" \/ Error m <> None.

Definition daemonMessage (m : JSONMessage) : string :=
  if String.eqb (ErrorMessage m) "" then
    match Error m with
    | Some e => Message e
    | None => ""
    end
  else ErrorMessage m.

(** A progress record is suppressed when nothing has been done and it only
    waits or prepares. *)
Definition suppressed (m : JSONMessage) (p : JSONProgress) : Prop :=
  Current p = 0%Z /\ (Status m = "Waiting" \/ Status m = "Preparing").

(** The wait window after a print, from the window before it. *)
Definition nextWait (waitDur : time.Duration) : time.Duration :=
  if (waitDur =? 0)%Z then (5 * time.Second)%Z else time.wrap64 (2 * waitDur).

(** A record that carries only progress. *)
Definition progressRecord (id status : string) (p : JSONProgress) : JSONMessage :=
  mkJSONMessage "" status (Some p) id None "" None.

(** The progress lines among the lines logged. *)
Definition isProgressLine (ev : LogEvent) : bool :=
  match ev with
  | LogProgress _ _ _ => true
  | LogWrite _ => false
  end.

Definition progressLines (log : list LogEvent) : list LogEvent :=
  List.filter isProgressLine log.

Section DecoderVocabulary.

Variable buildkitPrinter : Type.
Variable newBuildkitPrinter : buildkitPrinter.
Variable parseAndPrint :
  buildkitPrinter -> list vertex * list vertexLog -> buildkitPrinter * option error.
Variable json_Unmarshal_bytes : RawMessage -> Result string.
Variable StatusResponse_Unmarshal : string -> Result StatusResponse.

Local Abbreviation State := (DecoderState buildkitPrinter).

(** The print condition of a progress record for [id] when [time.Since]
    reads the clock at [now]: the identifier was never printed, or the
    record is complete, or more than the wait window has passed since the
    last print. *)
Definition printCondition (st : State) (now : time.Time) (id : string)
  (p : JSONProgress) : Prop :=
  progressLastPrinted st !! id = None \/
  Current p = Total p \/
  exists lastPrinted, progressLastPrinted st !! id = Some lastPrinted /\
    (default 0 (progressPrintWait st !! id) < time.Sub now lastPrinted)%Z.

(** The state after printing the progress line of [m], when [time.Now]
    reads the clock at [now]. *)
Definition printed (st : State) (now : time.Time) (m : JSONMessage)
  (p : JSONProgress) : State :=
  mkDecoderState
    (<[ID m := now]> (progressLastPrinted st))
    (<[ID m := nextWait (default 0%Z (progressPrintWait st !! ID m))]>
       (progressPrintWait st))
    (result st) (b st)
    (logged st ++ [LogProgress (ID m) (Status m) p]).

(** The iterations of the loop over the first elements of the response, as
    long as none of them leaves the function. *)
Fixpoint iterations (st : State) (reader : list (Clock * Result JSONMessage))
  : State * Flow :=
  match reader with
  | [] => (st, Continue)
  | (clock, decoded) :: reader' =>
    match loopBody _ parseAndPrint json_Unmarshal_bytes StatusResponse_Unmarshal
            st clock decoded with
    | (st, Continue) => iterations st reader'
    | (st, Exit o) => (st, Exit o)
    end
  end.

(** A state the decoder can be in at the start of an iteration. *)
Definition reachable (st : State) : Prop :=
  exists reader, iterations (initialState newBuildkitPrinter) reader = (st, Continue).

(** An element of the response the decoder passes without leaving: it is
    decoded, it is no error record, and if it is a graph-trace record its
    payload is there and is rendered without error. *)
Definition benign (item : Clock * Result JSONMessage) : Prop :=
  exists m, item.2 = Ok m /\
    ErrorMessage m = "" /\ Error m = None /\
    (messageIsFromBuildkit m = true ->
     exists a, Aux m = Some a /\
       forall b0, (toBuildkitStatus _ parseAndPrint json_Unmarshal_bytes
                     StatusResponse_Unmarshal (Some a) b0).2 = Returns None).

End DecoderVocabulary.
Arguments printCondition {buildkitPrinter} st now id p.
Arguments printed {buildkitPrinter} st now m p.

(** An instance of the decoder's surroundings for the examples: a printer
    without state that accepts every vertex, and a JSON decoder that refuses
    a payload starting with an exclamation mark. *)
Module ToyDecoder.

Definition buildkitPrinter := unit.
Definition parseAndPrint (b : buildkitPrinter) (x : list vertex * list vertexLog)
  : buildkitPrinter * option error := (b, None).
Definition json_Unmarshal_bytes (raw : RawMessage) : Result string :=
  if String.prefix "!" raw then
    Err "invalid character '!' looking for beginning of value"
  else Ok raw.
Definition StatusResponse_Unmarshal (dt : string) : Result StatusResponse :=
  Ok (mkStatusResponse [] []).

Definition readDockerOutput_run :=
  readDockerOutput_run buildkitPrinter tt parseAndPrint json_Unmarshal_bytes
    StatusResponse_Unmarshal.

Definition readDockerOutput :=
  readDockerOutput buildkitPrinter tt parseAndPrint json_Unmarshal_bytes
    StatusResponse_Unmarshal.

(** The aux payload is the digest itself, and the daemon knows one image. *)
Definition json_Unmarshal_map (raw : RawMessage) : Result (gmap string string) :=
  if String.prefix "!" raw then
    Err "invalid character '!' looking for beginning of value"
  else Ok {[ "ID" := raw ]}.
Definition ImageInspectWithRaw (imageID : string) : Result ImageInspect :=
  if String.prefix imageID "abcdef0123456789aaaabbbbccccdddd" then
    Ok (mkImageInspect "sha256:abcdef0123456789aaaabbbbccccdddd")
  else Err "No such image".

Definition getDigestFromBuildOutput :=
  getDigestFromBuildOutput json_Unmarshal_map ImageInspectWithRaw
    buildkitPrinter tt parseAndPrint json_Unmarshal_bytes StatusResponse_Unmarshal.

(** Records and instants of the example streams; the readings of the clock
    in an iteration coincide. *)
Definition seconds (n : Z) : Clock :=
  mkClock (n * time.Second)%Z (n * time.Second)%Z.

Definition layer (status : string) (current total : Z) : Result JSONMessage :=
  Ok (progressRecord "layer1" status (mkJSONProgress current total)).

Definition streamLine (text : string) : Result JSONMessage :=
  Ok (mkJSONMessage text "" None "" None "" None).

Definition errorLine (text : string) : Result JSONMessage :=
  Ok (mkJSONMessage "" "" None "" None text None).

End ToyDecoder.

(** ** Lines of a text *)

(** The number of newlines of a text. *)
Fixpoint countLF (s : string) : nat :=
  match s with
  | String c s' => (if Ascii.eqb c regexp.newline then 1 else 0) + countLF s'
  | EmptyString => 0
  end.

(** A text without newline. *)
Definition noLF (s : string) : Prop :=
  regexp.all_chars (fun c => negb (Ascii.eqb c regexp.newline)) s = true.

(** The number of lines [indent] sees in a text: a newline at the end closes
    the last line and opens no other. *)
Definition lineCount (text : string) : nat :=
  if String.eqb (str_drop (String.length text - 1) text) GoSplit.LF
  then countLF text else S (countLF text).

(** ** Substrings *)

(** [sub] occurs in [s] (as [strings.Contains] decides it). *)
Fixpoint contains (s sub : string) : bool :=
  String.prefix sub s ||
  match s with
  | String _ s' => contains s' sub
  | EmptyString => false
  end.

(** The wrapper phrase [cleanupDockerBuildError] trims. *)
Definition solveWrapper : string :=
  "failed to solve with frontend dockerfile.v0: failed to build LLB: ".

(** ** Reading a manifest *)

Section ManifestVocabulary.

Variable Cmd : Type.

(** The commands of the run-instructions of a manifest, the entrypoints it
    sets and the labels it attaches, each in the order of the manifest; the
    number of its catch-all copies. *)
Definition runCommands (df : dockerfile.Dockerfile Cmd) : list Cmd :=
  omap (fun i => match i with dockerfile.RunInstr c => Some c | _ => None end) df.

Definition entrypoints (df : dockerfile.Dockerfile Cmd) : list Cmd :=
  omap (fun i => match i with dockerfile.EntrypointInstr c => Some c | _ => None end) df.

Definition labelsOf (df : dockerfile.Dockerfile Cmd) : list (string * string) :=
  omap (fun i => match i with dockerfile.LabelInstr k v => Some (k, v) | _ => None end) df.

Definition catchAllCopies (df : dockerfile.Dockerfile Cmd) : nat :=
  length (omap (fun i => match i with dockerfile.AddAllInstr => Some tt | _ => None end) df).

End ManifestVocabulary.
Arguments runCommands {Cmd} df.
Arguments entrypoints {Cmd} df.
Arguments labelsOf {Cmd} df.
Arguments catchAllCopies {Cmd} df.

(** A second instance of the synthesizer's surroundings, for the examples
    of errors: creating a matcher fails on an empty trigger pattern. *)
Module ToyStrict.

Definition CreateRunMatcher (run : Run Toy.Cmd Toy.PathSet) : Result Toy.PathMatcher :=
  if bool_decide ("" ∈ Triggers run) then Err "empty trigger pattern"
  else Ok (Triggers run).

Definition addConditionalRuns :=
  addConditionalRuns Toy.Cmd Toy.Cmd_String Toy.PathSet Toy.PathSet_Empty
    Toy.PathMatcher CreateRunMatcher Toy.FilterMappings.

Definition DeprecatedFastBuildImage :=
  DeprecatedFastBuildImage Toy.Cmd Toy.Cmd_Empty Toy.Cmd_String Toy.PathSet
    Toy.PathSet_Empty Toy.PathMatcher CreateRunMatcher Toy.FilterMappings
    PathMapping Toy.SyncsToPathMappings "tilt.buildMode" "scratch".

End ToyStrict.

(** ** Reading the log of the decoder *)

(** The stream texts among the lines logged. *)
Definition writtenLines (log : list LogEvent) : list string :=
  omap (fun ev => match ev with LogWrite msg => Some msg | _ => None end) log.

(** The stream texts of the records that have one. *)
Definition streamTexts (ms : list JSONMessage) : list string :=
  List.filter (fun s => negb (String.eqb s "")) (map Stream ms).

(** A record that leaves the retained aux payload as it is: it has none, or
    it is a graph-trace record. *)
Definition keepsAux (m : JSONMessage) : Prop :=
  Aux m = None \/ messageIsFromBuildkit m = true.

(** A record whose stream text is no legacy digest line. *)
Definition keepsShortDigest (m : JSONMessage) : Prop :=
  forall hex, ~ matchesOldDigest (Stream m) hex.

(** ** Tagging and pushing *)

(** An element of a response that does not make the decoder fail by itself:
    it is decoded and it is no error record. *)
Definition noFailure (item : Clock * Result JSONMessage) : Prop :=
  exists m, item.2 = Ok m /\ ErrorMessage m = "" /\ Error m = None.

(** A small instance of what [TagImage] and [PushImage] take from elsewhere:
    a name is its text, the encoded form of a digest is what follows
    [sha256:], the daemon refuses to tag with a target that holds a space,
    and the registry answers a push with a status line, or with an error
    record for the image [private/app]. *)
Module ToyTag.

Definition ImageTagPrefix : string := "tilt-".
Definition Encoded (d : Digest) : string := TrimPrefix d "sha256:".
Definition Named := string.
Definition WithTag (ref : Named) (tag : string) : Result NamedTagged :=
  if String.eqb tag "" then Err "invalid tag format" else Ok (mkNamedTagged ref tag).
Definition NamedTagged_String (ref : NamedTagged) : string :=
  Name ref +:+ ":" +:+ Tag ref.
Definition ImageTag (source target : string) : option error :=
  if contains target " " then Some "invalid reference format" else None.
Definition ImagePush (ref : NamedTagged) : Result (list (Clock * Result JSONMessage)) :=
  if String.eqb (Name ref) "private/app" then
    Ok [(ToyDecoder.seconds 0, ToyDecoder.streamLine "The push refers to repository");
        (ToyDecoder.seconds 1, ToyDecoder.errorLine "denied: requested access to the resource is denied")]
  else
    Ok [(ToyDecoder.seconds 0, ToyDecoder.streamLine "The push refers to repository")].
Definition Sprintf_q (s : string) : string :=
  String (ascii_of_nat 34) s +:+ String (ascii_of_nat 34) "".

Definition TagImage :=
  TagImage ImageTagPrefix Encoded Named WithTag NamedTagged_String ImageTag.

Definition PushImage :=
  PushImage ImagePush Sprintf_q ToyDecoder.buildkitPrinter tt ToyDecoder.parseAndPrint
    ToyDecoder.json_Unmarshal_bytes ToyDecoder.StatusResponse_Unmarshal.

End ToyTag.
(** * Properties *)

(** ** Strings *)

Section StringFacts.

Implicit Types s p r : string.

Lemma app_String c s r : String c s +:+ r = String c (s +:+ r).
Proof. reflexivity. Qed.

Lemma app_empty_l r : "" +:+ r = r.
Proof. reflexivity. Qed.

Lemma String_length_app s r :
  String.length (s +:+ r) = (String.length s + String.length r)%nat.
Proof.
  induction s as [|c s IH]; [done |].
  rewrite app_String. simpl. by rewrite IH.
Qed.

Lemma str_take_drop n s : str_take n s +:+ str_drop n s = s.
Proof.
  revert s; induction n as [|n IH]; intros [|c s]; simpl; try done.
  by rewrite app_String, IH.
Qed.

Lemma length_str_take n s :
  String.length (str_take n s) = (n `min` String.length s)%nat.
Proof.
  revert s; induction n as [|n IH]; intros [|c s]; simpl; try done.
  by rewrite IH.
Qed.

Lemma length_str_drop n s :
  String.length (str_drop n s) = (String.length s - n)%nat.
Proof.
  revert s; induction n as [|n IH]; intros [|c s]; simpl; try done.
Qed.

Lemma str_take_all n s : (String.length s <= n)%nat -> str_take n s = s.
Proof.
  revert s; induction n as [|n IH]; intros [|c s]; simpl; try done; try lia.
  intros H. rewrite IH; [done | lia].
Qed.

Lemma str_take_app p r : str_take (String.length p) (p +:+ r) = p.
Proof.
  induction p as [|c p IH]; [by destruct r |].
  rewrite app_String. simpl. by rewrite IH.
Qed.

Lemma str_drop_app p r : str_drop (String.length p) (p +:+ r) = r.
Proof.
  induction p as [|c p IH]; [by destruct r |].
  rewrite app_String. simpl. done.
Qed.

Lemma str_drop_nil_iff n s :
  str_drop n s = "" <-> (String.length s <= n)%nat.
Proof.
  split.
  - intros H. pose proof (length_str_drop n s) as L. rewrite H in L. simpl in L. lia.
  - intros H. pose proof (length_str_drop n s) as L.
    destruct (str_drop n s); [done | simpl in L; lia].
Qed.

(** [String.prefix p s] holds exactly when [s] is [p] followed by something. *)
Lemma prefix_iff p s : String.prefix p s = true <-> exists r, s = p +:+ r.
Proof.
  revert s; induction p as [|c p IH]; intros s.
  - split; [by exists s | by destruct s].
  - destruct s as [|c' s]; simpl; [split; [done | by intros [r ?]] |].
    destruct (Ascii.ascii_dec c c') as [->|Hne].
    + rewrite IH. split; intros [r Hr]; exists r.
      * by rewrite app_String, Hr.
      * rewrite app_String in Hr. by injection Hr.
    + split; [done |]. intros [r Hr]. rewrite app_String in Hr.
      injection Hr; congruence.
Qed.

Lemma prefix_str_take n s : String.prefix (str_take n s) s = true.
Proof. apply prefix_iff. exists (str_drop n s). by rewrite str_take_drop. Qed.

Lemma app_inv_head p r r' : p +:+ r = p +:+ r' -> r = r'.
Proof.
  induction p as [|c p IH]; [done |].
  rewrite !app_String. intros H; injection H; auto.
Qed.

End StringFacts.

(** ** The tagger *)

Section TaggerProperties.

Variable ImageTagPrefix : string.
Variable Encoded : Digest -> string.

Local Abbreviation tagOf := (digestAsTag ImageTagPrefix Encoded).
Local Abbreviation matches := (digestMatchesRef ImageTagPrefix Encoded).

Lemma digestAsTag_short d :
  (String.length (Encoded d) < 16)%nat ->
  tagOf d = Err ("digest too short: " +:+ Encoded d).
Proof.
  intros H. unfold digestAsTag.
  destruct (Nat.ltb_spec (String.length (Encoded d)) 16); [done | lia].
Qed.

Lemma digestAsTag_long d :
  (16 <= String.length (Encoded d))%nat ->
  tagOf d = Ok (ImageTagPrefix +:+ str_take 16 (Encoded d)).
Proof.
  intros H. unfold digestAsTag.
  destruct (Nat.ltb_spec (String.length (Encoded d)) 16); [lia | done].
Qed.

Lemma digestMatchesRef_iff ref d :
  matches ref d = true <->
  (String.length ImageTagPrefix < String.length (Tag ref))%nat /\
  String.prefix (str_drop (String.length ImageTagPrefix) (Tag ref)) (Encoded d) = true.
Proof.
  unfold digestMatchesRef, HasPrefix.
  destruct (Nat.leb_spec (String.length (Tag ref)) (String.length ImageTagPrefix)).
  - split; [done | intros [? _]; lia].
  - split; [by intros -> | by intros [_ ->]].
Qed.

(** C1. [digestAsTag] fails exactly when the encoded form of the digest has
    fewer than 16 characters; otherwise it returns [ImageTagPrefix] followed
    by the first 16 characters of the encoded form. Two digests whose
    encoded forms have the same first 16 characters get the same result. *)
Theorem digestAsTag_spec (d : Digest) :
  ((exists e, tagOf d = Err e) <-> (String.length (Encoded d) < 16)%nat) /\
  ((16 <= String.length (Encoded d))%nat ->
     tagOf d = Ok (ImageTagPrefix +:+ str_take 16 (Encoded d)) /\
     String.length (str_take 16 (Encoded d)) = 16%nat /\
     String.prefix (str_take 16 (Encoded d)) (Encoded d) = true) /\
  (forall d' : Digest,
     str_take 16 (Encoded d) = str_take 16 (Encoded d') -> tagOf d = tagOf d').
Proof.
  split; [| split].
  - split.
    + intros [e He]. destruct (decide (String.length (Encoded d) < 16)%nat) as [|Hge];
        [done |].
      rewrite digestAsTag_long in He by lia. discriminate.
    + intros H. eexists. by apply digestAsTag_short.
  - intros H. split; [by apply digestAsTag_long |].
    split; [rewrite length_str_take; lia | apply prefix_str_take].
  - intros d' Heq.
    assert (String.length (str_take 16 (Encoded d))
            = String.length (str_take 16 (Encoded d'))) as Hlen by congruence.
    rewrite !length_str_take in Hlen.
    destruct (decide (String.length (Encoded d) < 16)%nat) as [Hlt|Hge].
    + rewrite !digestAsTag_short by lia.
      rewrite !str_take_all in Heq by lia. by rewrite Heq.
    + rewrite !digestAsTag_long by lia. by rewrite Heq.
Qed.

(** C2. [digestMatchesRef] is true exactly when the tag of the reference,
    with its first [len(ImageTagPrefix)] characters removed, is a non-empty
    string that starts the encoded form of the digest; that is, when the tag
    is strictly longer than the prefix and what follows position
    [len(ImageTagPrefix)] in it is an initial segment of the encoded form. *)
Theorem digestMatchesRef_spec (ref : NamedTagged) (d : Digest) :
  let tagHash := str_drop (String.length ImageTagPrefix) (Tag ref) in
  (matches ref d = true <->
     tagHash <> "" /\ exists rest, Encoded d = tagHash +:+ rest) /\
  (matches ref d = true <->
     (String.length ImageTagPrefix < String.length (Tag ref))%nat /\
     str_take (String.length tagHash) (Encoded d) = tagHash).
Proof.
  intros tagHash. rewrite digestMatchesRef_iff, prefix_iff. fold tagHash.
  assert (tagHash <> "" <->
          (String.length ImageTagPrefix < String.length (Tag ref))%nat) as Hne.
  { unfold tagHash. rewrite str_drop_nil_iff. lia. }
  split.
  - by rewrite Hne.
  - apply and_iff_compat_l. split.
    + intros [rest ->]. apply str_take_app.
    + intros H. exists (str_drop (String.length tagHash) (Encoded d)).
      rewrite <- (str_take_drop (String.length tagHash) (Encoded d)) at 1.
      by rewrite H.
Qed.

(** C3, as amended. When [digestAsTag] succeeds on the digest and gives the
    tag of the reference, [digestMatchesRef] is true. The converse needs
    more: [digestAsTag digest] is the tag of the reference exactly when
    [digestMatchesRef] is true, the tag begins with [ImageTagPrefix], and
    16 characters follow the prefix in it. *)
Theorem digestAsTag_iff_digestMatchesRef (ref : NamedTagged) (d : Digest) :
  (tagOf d = Ok (Tag ref) -> matches ref d = true) /\
  (tagOf d = Ok (Tag ref) <->
     matches ref d = true /\
     String.prefix ImageTagPrefix (Tag ref) = true /\
     String.length (Tag ref) = (String.length ImageTagPrefix + 16)%nat).
Proof.
  assert (tagOf d = Ok (Tag ref) ->
          matches ref d = true /\
          String.prefix ImageTagPrefix (Tag ref) = true /\
          String.length (Tag ref) = (String.length ImageTagPrefix + 16)%nat) as Hfwd.
  { intros H.
    destruct (decide (String.length (Encoded d) < 16)%nat) as [Hlt|Hge].
    { rewrite digestAsTag_short in H by done. discriminate. }
    rewrite digestAsTag_long in H by lia.
    assert (ImageTagPrefix +:+ str_take 16 (Encoded d) = Tag ref) as H' by congruence.
    clear H; rename H' into H.
    rewrite digestMatchesRef_iff, <- H, String_length_app, length_str_take, str_drop_app.
    repeat split; try lia.
    - apply prefix_str_take.
    - apply prefix_iff. by eexists. }
  split; [by intros H; apply Hfwd |].
  split; [done |].
  intros (Hm & Hp & Hlen).
  apply digestMatchesRef_iff in Hm as [_ Hm].
  apply prefix_iff in Hp as [hash Hhash].
  rewrite Hhash, str_drop_app in Hm. rewrite Hhash, String_length_app in Hlen.
  apply prefix_iff in Hm as [rest Hrest].
  rewrite digestAsTag_long by (rewrite Hrest, String_length_app; lia).
  rewrite Hhash, Hrest. do 2 f_equal.
  replace 16%nat with (String.length hash) by lia. apply str_take_app.
Qed.

(** C9. [digestMatchesRef] does not look at the first [len(ImageTagPrefix)]
    characters of the tag: two tags of the same length that agree after that
    position give the same answer, and a tag longer than the prefix whose
    remainder starts the encoded form of the digest is accepted whatever its
    first characters are. *)
Theorem digestMatchesRef_ignores_prefix (ref : NamedTagged) (d : Digest) :
  (forall ref' : NamedTagged,
     String.length (Tag ref) = String.length (Tag ref') ->
     str_drop (String.length ImageTagPrefix) (Tag ref)
       = str_drop (String.length ImageTagPrefix) (Tag ref') ->
     matches ref d = matches ref' d) /\
  ((String.length ImageTagPrefix < String.length (Tag ref))%nat ->
   String.prefix (str_drop (String.length ImageTagPrefix) (Tag ref)) (Encoded d) = true ->
   matches ref d = true).
Proof.
  split.
  - intros ref' Hlen Hdrop. unfold digestMatchesRef. by rewrite Hlen, Hdrop.
  - intros Hlt Hp. by apply digestMatchesRef_iff.
Qed.

End TaggerProperties.

(** The first two digests share their first 16 hex characters. *)
Lemma digestAsTag_spec_witness :
  digestAsTag "tilt-" Encoded_after_colon "sha256:0123456789abcdef0000" =
  digestAsTag "tilt-" Encoded_after_colon "sha256:0123456789abcdefffff".
Proof.
  apply (digestAsTag_spec "tilt-" Encoded_after_colon "sha256:0123456789abcdef0000").
  reflexivity.
Defined.

Example digestAsTag_example :
  digestAsTag "tilt-" Encoded_after_colon "sha256:0123456789abcdef0000"
    = Ok "tilt-0123456789abcdef" /\
  digestAsTag "tilt-" Encoded_after_colon "sha256:0123456789abcde"
    = Err "digest too short: 0123456789abcde".
Proof. split; reflexivity. Qed.

Lemma digestMatchesRef_spec_witness :
  digestMatchesRef "tilt-" Encoded_after_colon
    (mkNamedTagged "gcr.io/app" "tilt-0123456789abcdef")
    "sha256:0123456789abcdef0000" = true.
Proof.
  apply (proj2 (proj1 (digestMatchesRef_spec "tilt-" Encoded_after_colon
           (mkNamedTagged "gcr.io/app" "tilt-0123456789abcdef")
           "sha256:0123456789abcdef0000"))).
  split; [by vm_compute | by exists "0000"].
Defined.

(** C3 fails from right to left: a tag that carries only three characters of
    the digest is accepted, and it is not the tag [digestAsTag] computes. *)
Lemma digestMatchesRef_without_digestAsTag :
  let ref := mkNamedTagged "gcr.io/app" "tilt-012" in
  let d : Digest := "sha256:0123456789abcdef0000" in
  digestMatchesRef "tilt-" Encoded_after_colon ref d = true /\
  digestAsTag "tilt-" Encoded_after_colon d = Ok "tilt-0123456789abcdef" /\
  digestAsTag "tilt-" Encoded_after_colon d <> Ok (Tag ref).
Proof. repeat split. discriminate. Qed.

Lemma digestAsTag_iff_digestMatchesRef_witness :
  digestMatchesRef "tilt-" Encoded_after_colon
    (mkNamedTagged "gcr.io/app" "tilt-0123456789abcdef")
    "sha256:0123456789abcdef0000" = true.
Proof.
  apply (digestAsTag_iff_digestMatchesRef "tilt-" Encoded_after_colon
           (mkNamedTagged "gcr.io/app" "tilt-0123456789abcdef")
           "sha256:0123456789abcdef0000").
  reflexivity.
Defined.

(** A tag that does not begin with the prefix is accepted. *)
Lemma digestMatchesRef_ignores_prefix_witness :
  digestMatchesRef "tilt-" Encoded_after_colon
    (mkNamedTagged "gcr.io/app" "v1.2-0123456789")
    "sha256:0123456789abcdef0000" = true /\
  String.prefix "tilt-" "v1.2-0123456789" = false.
Proof.
  split; [| reflexivity].
  apply (digestMatchesRef_ignores_prefix "tilt-" Encoded_after_colon
           (mkNamedTagged "gcr.io/app" "v1.2-0123456789")
           "sha256:0123456789abcdef0000").
  - simpl. lia.
  - reflexivity.
Defined.

(** ** The manifest synthesizer *)

Section SynthesizerProperties.

Variable Cmd : Type.
Variable Cmd_Empty : Cmd -> bool.
Variable Cmd_String : Cmd -> string.
Variable PathSet : Type.
Variable PathSet_Empty : PathSet -> bool.
Variable PathMatcher : Type.
Variable CreateRunMatcher : Run Cmd PathSet -> Result PathMatcher.
Variable FilterMappings : list PathMapping -> PathMatcher -> Result (list PathMapping).
Variable Sync : Type.
Variable SyncsToPathMappings : list Sync -> list PathMapping.
Variable BuildMode : string.
Variable BuildModeScratch : string.

Local Abbreviation Dockerfile := (dockerfile.Dockerfile Cmd).
Local Abbreviation run1 :=
  (addConditionalRun Cmd Cmd_String PathSet PathMatcher CreateRunMatcher FilterMappings).
Local Abbreviation loop :=
  (addConditionalRuns_loop Cmd Cmd_String PathSet PathSet_Empty PathMatcher
     CreateRunMatcher FilterMappings).
Local Abbreviation condRuns :=
  (addConditionalRuns Cmd Cmd_String PathSet PathSet_Empty PathMatcher
     CreateRunMatcher FilterMappings).
Local Abbreviation synthesize :=
  (DeprecatedFastBuildImage Cmd Cmd_Empty Cmd_String PathSet PathSet_Empty PathMatcher
     CreateRunMatcher FilterMappings Sync SyncsToPathMappings BuildMode BuildModeScratch).
Local Abbreviation matched := (matchedMappings CreateRunMatcher FilterMappings).
Local Abbreviation failure := (runFailure CreateRunMatcher FilterMappings Cmd_String).
Local Abbreviation hasInputs :=
  (fun paths r => exists ps, matchedMappings CreateRunMatcher FilterMappings paths r ps
                             /\ ps <> []).
Local Abbreviation isConditional := (conditional PathSet_Empty).
Local Abbreviation prefixOf := (conditionalPrefix PathSet_Empty).
Local Abbreviation restOf := (afterConditionalPrefix PathSet_Empty).

Lemma fold_left_snoc {A B : Type} (f : B -> A) (l : list B) (d : list A) :
  fold_left (fun d x => d ++ [f x]) l d = d ++ map f l.
Proof.
  revert d; induction l as [|x l IH]; intros d; simpl.
  - by rewrite app_nil_r.
  - rewrite IH. by rewrite <- app_assoc.
Qed.

Lemma fold_left_Join (ps : list PathMapping) (df : Dockerfile) :
  fold_left
    (fun df p => dockerfile.Join df (Sprintf_COPY (ContainerPath p) (ContainerPath p)))
    ps df = df ++ copyInstrs ps.
Proof. apply (fold_left_snoc (fun p => dockerfile.Line _)). Qed.

Lemma addRemainingRuns_app (rs : list (Run Cmd PathSet)) (df : Dockerfile) :
  addRemainingRuns Cmd PathSet df rs = df ++ runInstrs rs.
Proof. apply (fold_left_snoc (fun r => dockerfile.RunInstr (RunCmd r))). Qed.

Lemma applyLabels_app (extra : list (string * string)) (df : Dockerfile) (mode : string) :
  applyLabels Cmd BuildMode extra df mode
  = df ++ dockerfile.LabelInstr BuildMode mode :: labelInstrs extra.
Proof.
  unfold applyLabels, dockerfile.WithLabel. cbv zeta.
  etransitivity; [apply (fold_left_snoc (fun kv => dockerfile.LabelInstr kv.1 kv.2)) |].
  by rewrite <- app_assoc.
Qed.

Lemma addConditionalRun_ok df run paths ps :
  matched paths run ps -> ps <> [] ->
  run1 df run paths = Ok (df ++ copyInstrs ps ++ [dockerfile.RunInstr (RunCmd run)]).
Proof.
  intros (m & Hm & Hf) Hne. unfold addConditionalRun. rewrite Hm. simpl. rewrite Hf. simpl.
  destruct ps as [|p ps]; [done |]. simpl length. simpl Nat.eqb. cbv iota.
  rewrite fold_left_Join. unfold dockerfile.Run. by rewrite <- app_assoc.
Qed.

Lemma addConditionalRun_no_inputs df run paths :
  matched paths run [] ->
  run1 df run paths = Err ("No inputs for run: " +:+ Cmd_String (RunCmd run)).
Proof.
  intros (m & Hm & Hf). unfold addConditionalRun. rewrite Hm. simpl. by rewrite Hf.
Qed.

Lemma prefix_app_rest (runs : list (Run Cmd PathSet)) :
  runs = prefixOf runs ++ restOf runs.
Proof.
  induction runs as [|r runs IH]; [done |]. simpl.
  destruct (isConditional r); [simpl; by f_equal | done].
Qed.

Lemma prefix_all_conditional (runs : list (Run Cmd PathSet)) :
  Forall (fun r => isConditional r = true) (prefixOf runs).
Proof.
  induction runs as [|r runs IH]; [constructor |]. simpl.
  destruct (isConditional r) eqn:E; constructor; done.
Qed.

Lemma rest_head_unconditional (runs : list (Run Cmd PathSet)) r rest :
  restOf runs = r :: rest -> PathSet_Empty (Triggers r) = true.
Proof.
  induction runs as [|r' runs IH]; [done |]. simpl.
  destruct (isConditional r') eqn:E; [done |].
  intros [= -> ->]. unfold conditional in E. by destruct (PathSet_Empty _).
Qed.

Lemma drop_prefix (runs : list (Run Cmd PathSet)) :
  drop (length (prefixOf runs)) runs = restOf runs.
Proof.
  induction runs as [|r runs IH]; [done |]. simpl.
  destruct (isConditional r); done.
Qed.

Lemma prefix_unconditional (runs : list (Run Cmd PathSet)) :
  Forall (fun r => PathSet_Empty (Triggers r) = true) runs ->
  prefixOf runs = [] /\ restOf runs = runs.
Proof.
  destruct 1 as [|r runs Hr _]; [done |]. simpl. unfold conditional. by rewrite Hr.
Qed.

(** The loop, when every run of the conditional prefix has inputs. *)
Lemma addConditionalRuns_loop_ok paths runs ms df consumed :
  Forall2 (fun r ps => matched paths r ps /\ ps <> []) (prefixOf runs) ms ->
  loop df consumed runs paths
  = Ok (df ++ conditionalInstrs (prefixOf runs) ms,
        (consumed + length (prefixOf runs))%nat).
Proof.
  revert ms df consumed. induction runs as [|r runs IH]; intros ms df consumed H.
  - inversion H; subst. simpl. unfold conditionalInstrs. simpl.
    by rewrite app_nil_r, Nat.add_0_r.
  - simpl in *. unfold conditional in *. destruct (PathSet_Empty (Triggers r)); simpl in *.
    + inversion H; subst. unfold conditionalInstrs. simpl.
      by rewrite app_nil_r, Nat.add_0_r.
    + inversion H as [|? ps ? ms' [Hm Hne] Hrest]; subst.
      rewrite (addConditionalRun_ok _ _ _ _ Hm Hne). simpl.
      rewrite (IH ms' _ _ Hrest). unfold conditionalInstrs. simpl.
      rewrite <- !app_assoc. do 2 f_equal. lia.
Qed.

Lemma addConditionalRuns_ok paths runs ms df :
  Forall2 (fun r ps => matched paths r ps /\ ps <> []) (prefixOf runs) ms ->
  condRuns df runs paths
  = Ok (df ++ conditionalInstrs (prefixOf runs) ms, restOf runs).
Proof.
  intros H. unfold addConditionalRuns.
  rewrite (addConditionalRuns_loop_ok _ _ _ _ _ H). simpl. by rewrite drop_prefix.
Qed.

Lemma DeprecatedFastBuildImage_ok extraLabels base syncs runs entrypoint ms :
  Forall2 (fun r ps => matched (SyncsToPathMappings syncs) r ps /\ ps <> [])
    (prefixOf runs) ms ->
  synthesize extraLabels base syncs runs entrypoint
  = Ok (base ++ conditionalInstrs (prefixOf runs) ms
          ++ manifestTail Cmd_Empty BuildMode BuildModeScratch
               extraLabels (restOf runs) entrypoint,
        SyncsToPathMappings syncs).
Proof.
  intros H. unfold DeprecatedFastBuildImage. cbv zeta.
  rewrite (addConditionalRuns_ok _ _ _ _ H). simpl.
  rewrite applyLabels_app. unfold manifestTail, dockerfile.AddAll, dockerfile.Entrypoint.
  do 2 f_equal.
  destruct (Cmd_Empty entrypoint); simpl; rewrite addRemainingRuns_app;
    rewrite <- ?app_assoc; simpl; reflexivity.
Qed.

(** The loop fails when it meets, in the conditional prefix, a run without
    inputs; [pre] are the runs before it. *)
Lemma addConditionalRuns_loop_fails paths pre run post df consumed :
  Forall (fun r => isConditional r = true) pre ->
  isConditional run = true ->
  matched paths run [] ->
  exists e, loop df consumed (pre ++ run :: post) paths = Err e.
Proof.
  intros Hpre Hrun Hm. revert df consumed.
  induction Hpre as [|r pre Hr _ IH]; intros df consumed; simpl.
  - unfold conditional in Hrun. destruct (PathSet_Empty (Triggers run)); [done |].
    rewrite (addConditionalRun_no_inputs _ _ _ Hm). by eexists.
  - unfold conditional in Hr. destruct (PathSet_Empty (Triggers r)); [done |].
    destruct (run1 df r paths) as [df'|e]; simpl; [apply IH | by eexists].
Qed.

Lemma addConditionalRuns_loop_no_inputs paths pre run post df consumed :
  Forall (fun r => isConditional r = true) pre ->
  isConditional run = true ->
  matched paths run [] ->
  Forall (fun r => exists ps, matched paths r ps /\ ps <> []) pre ->
  loop df consumed (pre ++ run :: post) paths
  = Err ("No inputs for run: " +:+ Cmd_String (RunCmd run)).
Proof.
  intros Hpre Hrun Hm Hok. revert df consumed.
  induction Hpre as [|r pre Hr _ IH]; intros df consumed; simpl.
  - unfold conditional in Hrun. destruct (PathSet_Empty (Triggers run)); [done |].
    by rewrite (addConditionalRun_no_inputs _ _ _ Hm).
  - unfold conditional in Hr. destruct (PathSet_Empty (Triggers r)); [done |].
    inversion Hok as [|? ? (ps & Hps & Hne) Hok']; subst.
    rewrite (addConditionalRun_ok _ _ _ _ Hps Hne). simpl. by apply IH.
Qed.

(** C4. When every run of the conditional prefix has inputs, the manifest is
    the base, then for each run of the prefix (the runs before the first one
    with an empty trigger set), in order, one [COPY p p] per matched path
    mapping followed by its run-instruction, then the catch-all copy, then
    the run-instructions of all the later runs in their order, conditional
    or not, then entrypoint and labels. The prefix and the later runs make
    up the runs; the first of the later runs has an empty trigger set. When
    no run is conditional the catch-all copy is the first instruction after
    the base and every run-instruction comes after it. *)
Theorem DeprecatedFastBuildImage_manifest extraLabels base syncs runs entrypoint :
  let paths := SyncsToPathMappings syncs in
  (forall ms : list (list PathMapping),
     Forall2 (fun r ps => matched paths r ps /\ ps <> []) (prefixOf runs) ms ->
     synthesize extraLabels base syncs runs entrypoint
     = Ok (base
             ++ conditionalInstrs (prefixOf runs) ms
             ++ dockerfile.AddAllInstr :: runInstrs (restOf runs)
             ++ (if Cmd_Empty entrypoint then []
                 else [dockerfile.EntrypointInstr entrypoint])
             ++ dockerfile.LabelInstr BuildMode BuildModeScratch
                  :: labelInstrs extraLabels,
           paths)) /\
  (runs = prefixOf runs ++ restOf runs /\
   Forall (fun r => PathSet_Empty (Triggers r) = false) (prefixOf runs) /\
   (forall r rest, restOf runs = r :: rest -> PathSet_Empty (Triggers r) = true)) /\
  (Forall (fun r => PathSet_Empty (Triggers r) = true) runs ->
     synthesize extraLabels base syncs runs entrypoint
     = Ok (base
             ++ dockerfile.AddAllInstr :: runInstrs runs
             ++ (if Cmd_Empty entrypoint then []
                 else [dockerfile.EntrypointInstr entrypoint])
             ++ dockerfile.LabelInstr BuildMode BuildModeScratch
                  :: labelInstrs extraLabels,
           paths)).
Proof.
  intros paths. split; [| split].
  - intros ms H. by rewrite (DeprecatedFastBuildImage_ok _ _ _ _ _ _ H).
  - split; [apply prefix_app_rest |]. split; [| apply rest_head_unconditional].
    eapply Forall_impl; [apply prefix_all_conditional |].
    intros r Hr. unfold conditional in Hr. by destruct (PathSet_Empty _).
  - intros Hall. destruct (prefix_unconditional _ Hall) as [Hp Hr].
    assert (Forall2 (fun r ps => matched paths r ps /\ ps <> []) (prefixOf runs) [])
      as H by (rewrite Hp; constructor).
    rewrite (DeprecatedFastBuildImage_ok _ _ _ _ _ _ H), Hp, Hr. reflexivity.
Qed.

(** The loop returns the error of a run of the conditional prefix when the
    runs before it have inputs. *)
Lemma addConditionalRuns_loop_first_error paths pre run post df consumed e :
  Forall (fun r => isConditional r = true) pre ->
  isConditional run = true ->
  Forall (fun r => exists ps, matched paths r ps /\ ps <> []) pre ->
  (forall df', run1 df' run paths = Err e) ->
  loop df consumed (pre ++ run :: post) paths = Err e.
Proof.
  intros Hpre Hrun Hok He. revert df consumed.
  induction Hpre as [|r pre Hr _ IH]; intros df consumed; simpl.
  - unfold conditional in Hrun. destruct (PathSet_Empty (Triggers run)); [done |].
    by rewrite He.
  - unfold conditional in Hr. destruct (PathSet_Empty (Triggers r)); [done |].
    inversion Hok as [|? ? (ps & Hps & Hne) Hok']; subst.
    erewrite addConditionalRun_ok by done. simpl. by apply IH.
Qed.

Lemma addConditionalRun_fails df run paths e :
  failure paths run e -> run1 df run paths = Err e.
Proof.
  unfold addConditionalRun.
  intros [H|[(m & Hm & Hf)|((m & Hm & Hf) & ->)]].
  - by rewrite H.
  - rewrite Hm. simpl. by rewrite Hf.
  - rewrite Hm. simpl. by rewrite Hf.
Qed.

(** A run has inputs or fails, and not both. *)
Lemma addConditionalRun_cases run paths :
  hasInputs paths run \/ exists e, failure paths run e.
Proof.
  destruct (CreateRunMatcher run) as [m|e] eqn:Hm; [| right; exists e; by left].
  destruct (FilterMappings paths m) as [[|p ps]|e] eqn:Hf.
  - right. eexists. right. right. split; [by exists m | done].
  - left. exists (p :: ps). split; [by exists m | done].
  - right. exists e. right. left. by exists m.
Qed.

Lemma runFailure_no_inputs run paths e :
  failure paths run e -> ~ hasInputs paths run.
Proof.
  intros Hf (ps & (m & Hm & Hps) & Hne).
  destruct Hf as [H|[(m' & Hm' & H)|((m' & Hm' & H) & _)]]; congruence.
Qed.

(** Before or at a run without inputs there is a first run that fails. *)
Lemma first_failing_run paths pre run :
  matched paths run [] ->
  exists ok failing later e,
    pre ++ [run] = ok ++ failing :: later /\
    Forall (hasInputs paths) ok /\
    failure paths failing e.
Proof.
  intros Hm. induction pre as [|r pre (ok & failing & later & e & Heq & Hok & Hf)].
  - exists [], run, [], ("No inputs for run: " +:+ Cmd_String (RunCmd run)).
    split; [done |]. split; [constructor |]. right. right. done.
  - destruct (addConditionalRun_cases r paths) as [Hin|[e' He']].
    + exists (r :: ok), failing, later, e. simpl. rewrite Heq.
      split; [done |]. split; [by constructor | done].
    + exists [], r, (pre ++ [run]), e'. split; [done |]. split; [constructor | done].
Qed.

(** C5, as amended. When a run of the conditional prefix matches no path
    mapping, the synthesis fails and gives no manifest: among the runs up to
    that one there is a first run that fails (the runs before it have
    inputs; its matcher or the filter returns an error, or the filter
    returns no path mapping), [addConditionalRuns] returns the error of that
    run and [DeprecatedFastBuildImage] returns it wrapped with its own name.
    When every run before the run without inputs has inputs, the error of
    [addConditionalRuns] is [No inputs for run: ] followed by the command of
    that run. *)
Theorem DeprecatedFastBuildImage_no_inputs extraLabels base syncs pre run post entrypoint :
  let paths := SyncsToPathMappings syncs in
  let runs := pre ++ run :: post in
  Forall (fun r => isConditional r = true) pre ->
  isConditional run = true ->
  matched paths run [] ->
  (exists ok failing later e,
     pre ++ [run] = ok ++ failing :: later /\
     Forall (fun r => exists ps, matched paths r ps /\ ps <> []) ok /\
     failure paths failing e /\
     condRuns base runs paths = Err e /\
     synthesize extraLabels base syncs runs entrypoint
       = Err (Wrap e "DeprecatedFastBuildImage")) /\
  (Forall (fun r => exists ps, matched paths r ps /\ ps <> []) pre ->
     condRuns base runs paths
       = Err ("No inputs for run: " +:+ Cmd_String (RunCmd run)) /\
     synthesize extraLabels base syncs runs entrypoint
       = Err (Wrap ("No inputs for run: " +:+ Cmd_String (RunCmd run))
                "DeprecatedFastBuildImage")).
Proof.
  intros paths runs Hpre Hrun Hm. split.
  - destruct (first_failing_run paths pre run Hm)
      as (ok & failing & later & e & Heq & Hok & Hf).
    exists ok, failing, later, e. split; [done |]. split; [done |]. split; [done |].
    assert (Forall (fun r => isConditional r = true) (ok ++ failing :: later)) as Hall.
    { rewrite <- Heq. apply Forall_app. split; [done | by constructor]. }
    apply Forall_app in Hall as [Hcok Hcf]. apply Forall_cons in Hcf as [Hcf _].
    assert (runs = ok ++ failing :: (later ++ post)) as Hruns.
    { unfold runs. change (run :: post) with ([run] ++ post).
      by rewrite app_assoc, Heq, <- app_assoc. }
    pose proof (addConditionalRuns_loop_first_error paths ok failing (later ++ post)
                  base 0 e Hcok Hcf Hok
                  (fun df' => addConditionalRun_fails df' failing paths e Hf)) as He.
    unfold DeprecatedFastBuildImage, addConditionalRuns. cbv zeta.
    fold paths. fold runs. rewrite Hruns, He. done.
  - intros Hok.
    pose proof (addConditionalRuns_loop_no_inputs paths pre run post base 0
                  Hpre Hrun Hm Hok) as He.
    unfold DeprecatedFastBuildImage, addConditionalRuns. cbv zeta.
    fold paths. fold runs in He |- *. by rewrite He.
Qed.

End SynthesizerProperties.

(** The scenario of a conditional run, an unconditional one, and a later run
    with triggers, which is run unconditionally after the catch-all copy. *)
Lemma DeprecatedFastBuildImage_manifest_witness :
  Toy.DeprecatedFastBuildImage [] [dockerfile.Line "FROM node"]
    [mkPathMapping "package.json" "/src/package.json"; mkPathMapping "." "/src"]
    [mkRun "npm install" ["package.json"]; mkRun "npm build" [];
     mkRun "npm test" ["package.json"]]
    ""
  = Ok ([dockerfile.Line "FROM node";
         dockerfile.Line "COPY /src/package.json /src/package.json";
         dockerfile.RunInstr "npm install";
         dockerfile.AddAllInstr;
         dockerfile.RunInstr "npm build";
         dockerfile.RunInstr "npm test";
         dockerfile.LabelInstr "tilt.buildMode" "scratch"],
        [mkPathMapping "package.json" "/src/package.json"; mkPathMapping "." "/src"]).
Proof.
  apply (proj1 (DeprecatedFastBuildImage_manifest
                  Toy.Cmd Toy.Cmd_Empty Toy.Cmd_String Toy.PathSet Toy.PathSet_Empty
                  Toy.PathMatcher Toy.CreateRunMatcher Toy.FilterMappings
                  PathMapping Toy.SyncsToPathMappings "tilt.buildMode" "scratch"
                  [] [dockerfile.Line "FROM node"]
                  [mkPathMapping "package.json" "/src/package.json"; mkPathMapping "." "/src"]
                  [mkRun "npm install" ["package.json"]; mkRun "npm build" [];
                   mkRun "npm test" ["package.json"]]
                  "")
          [[mkPathMapping "package.json" "/src/package.json"]]).
  repeat constructor; [| discriminate].
  exists ["package.json"]. split; reflexivity.
Defined.

(** Two runs of the conditional prefix have no inputs: the error names the
    first one, and not the second. *)
Lemma DeprecatedFastBuildImage_names_first_run_only :
  let runs := [mkRun "pip install" ["requirements.txt"];
               mkRun "npm install" ["package.json"]] in
  conditionalPrefix Toy.PathSet_Empty runs = runs /\
  matchedMappings Toy.CreateRunMatcher Toy.FilterMappings []
    (mkRun "npm install" ["package.json"]) [] /\
  Toy.addConditionalRuns [] runs [] = Err "No inputs for run: pip install" /\
  Toy.DeprecatedFastBuildImage [] [] [] runs ""
  = Err "DeprecatedFastBuildImage: No inputs for run: pip install".
Proof.
  repeat split. exists ["package.json"]. split; reflexivity.
Qed.

(** The run without inputs after a run that has inputs: the error names it.
    After a run that has no inputs either, the error is the one of that
    first run. *)
Lemma DeprecatedFastBuildImage_no_inputs_witness :
  Toy.DeprecatedFastBuildImage [] []
    [mkPathMapping "package.json" "/src/package.json"]
    [mkRun "npm install" ["package.json"]; mkRun "pip install" ["requirements.txt"];
     mkRun "npm build" []]
    ""
  = Err "DeprecatedFastBuildImage: No inputs for run: pip install" /\
  (let runs := [mkRun "pip install" ["requirements.txt"];
                mkRun "npm install" ["package.json"]] in
   exists ok failing later e,
     runs = ok ++ failing :: later /\
     Forall (fun r => exists ps,
               matchedMappings Toy.CreateRunMatcher Toy.FilterMappings [] r ps /\
               ps <> []) ok /\
     runFailure Toy.CreateRunMatcher Toy.FilterMappings Toy.Cmd_String [] failing e /\
     Toy.addConditionalRuns [] runs [] = Err e /\
     Toy.DeprecatedFastBuildImage [] [] [] runs ""
     = Err (Wrap e "DeprecatedFastBuildImage")).
Proof.
  split.
  - apply (DeprecatedFastBuildImage_no_inputs
             Toy.Cmd Toy.Cmd_Empty Toy.Cmd_String Toy.PathSet Toy.PathSet_Empty
             Toy.PathMatcher Toy.CreateRunMatcher Toy.FilterMappings
             PathMapping Toy.SyncsToPathMappings "tilt.buildMode" "scratch"
             [] [] [mkPathMapping "package.json" "/src/package.json"]
             [mkRun "npm install" ["package.json"]]
             (mkRun "pip install" ["requirements.txt"])
             [mkRun "npm build" []] "").
    + repeat constructor.
    + reflexivity.
    + exists ["requirements.txt"]. split; reflexivity.
    + repeat constructor.
      exists [mkPathMapping "package.json" "/src/package.json"]. split; [| discriminate].
      exists ["package.json"]. split; reflexivity.
  - refine (proj1 (DeprecatedFastBuildImage_no_inputs
             Toy.Cmd Toy.Cmd_Empty Toy.Cmd_String Toy.PathSet Toy.PathSet_Empty
             Toy.PathMatcher Toy.CreateRunMatcher Toy.FilterMappings
             PathMapping Toy.SyncsToPathMappings "tilt.buildMode" "scratch"
             [] [] []
             [mkRun "pip install" ["requirements.txt"]]
             (mkRun "npm install" ["package.json"])
             [] "" _ _ _)).
    + repeat constructor.
    + reflexivity.
    + exists ["package.json"]. split; reflexivity.
Defined.

(** ** The pattern of the legacy digest line *)

Section OldDigestRegexp.

Import regexp.

Lemma span_spec f s run rest :
  span f s = (run, rest) ->
  s = run +:+ rest /\ all_chars f run = true /\
  match rest with
  | String c _ => f c = false
  | EmptyString => True
  end.
Proof.
  revert run rest. induction s as [|c s IH]; intros run rest; simpl.
  - by intros [= <- <-].
  - destruct (f c) eqn:Hc.
    + destruct (span f s) as [run' rest'] eqn:E. intros [= <- <-].
      destruct (IH _ _ eq_refl) as (-> & Hall & Hrest).
      rewrite app_String. simpl. by rewrite Hc, Hall.
    + by intros [= <- <-].
Qed.

Lemma span_app f run rest :
  all_chars f run = true ->
  match rest with
  | String c _ => f c = false
  | EmptyString => True
  end ->
  span f (run +:+ rest) = (run, rest).
Proof.
  intros Hall Hrest. induction run as [|c run IH].
  - rewrite app_empty_l. destruct rest as [|c rest]; simpl; [done | by rewrite Hrest].
  - simpl in Hall. apply andb_prop in Hall as [Hc Hall].
    rewrite app_String. simpl. by rewrite Hc, (IH Hall).
Qed.

Lemma is_space_not_hex c : is_space c = true -> is_lower_hex c = false.
Proof.
  unfold is_space, is_lower_hex. generalize (nat_of_ascii c). intros n H.
  repeat (apply orb_prop in H as [H|H]); apply Nat.eqb_eq in H; by subst n.
Qed.

Lemma all_space_head rest :
  all_chars is_space rest = true ->
  match rest with
  | String c _ => is_lower_hex c = false
  | EmptyString => True
  end.
Proof.
  destruct rest as [|c rest]; [done |]. simpl.
  intros H. apply andb_prop in H as [H _]. by apply is_space_not_hex.
Qed.

Lemma FindStringSubmatch_match msg hex :
  matchesOldDigest msg hex -> oldDigestRegexp_FindStringSubmatch msg = [msg; hex].
Proof.
  intros (ws & -> & Hne & Hhex & Hws). unfold oldDigestRegexp_FindStringSubmatch, HasPrefix.
  assert (String.prefix "Successfully built " ("Successfully built " +:+ hex +:+ ws) = true)
    as -> by (apply prefix_iff; by eexists).
  rewrite (str_drop_app "Successfully built "), (span_app _ _ _ Hhex (all_space_head _ Hws)).
  destruct hex; [done |]. simpl. by rewrite Hws.
Qed.

Lemma FindStringSubmatch_cases msg :
  oldDigestRegexp_FindStringSubmatch msg = [] \/
  exists hex, matchesOldDigest msg hex /\
    oldDigestRegexp_FindStringSubmatch msg = [msg; hex].
Proof.
  unfold oldDigestRegexp_FindStringSubmatch, HasPrefix.
  destruct (String.prefix "Successfully built " msg) eqn:Hp; [| by left].
  apply prefix_iff in Hp as [r ->]. rewrite (str_drop_app "Successfully built ").
  destruct (span is_lower_hex r) as [hex rest] eqn:E.
  destruct (span_spec _ _ _ _ E) as (-> & Hhex & _).
  destruct (Nat.eqb_spec (String.length hex) 0); [by left |].
  destruct (all_chars is_space rest) eqn:Hws; [| by left].
  right. exists hex. split; [| done]. exists rest. repeat split; try done.
  by intros ->.
Qed.

Lemma FindStringSubmatch_nil msg :
  oldDigestRegexp_FindStringSubmatch msg = [] <-> forall hex, ~ matchesOldDigest msg hex.
Proof.
  split.
  - intros H hex Hm. by rewrite (FindStringSubmatch_match _ _ Hm) in H.
  - intros H. destruct (FindStringSubmatch_cases msg) as [|(hex & Hm & _)]; [done |].
    by destruct (H hex).
Qed.

End OldDigestRegexp.

(** ** The cleanup of daemon errors *)

Section Cleanup.

Import regexp.

Lemma TrimPrefix_app p s : TrimPrefix (p +:+ s) p = s.
Proof.
  unfold TrimPrefix, HasPrefix.
  assert (String.prefix p (p +:+ s) = true) as -> by (apply prefix_iff; by eexists).
  apply str_drop_app.
Qed.

Lemma TrimPrefix_other p s : String.prefix p s = false -> TrimPrefix s p = s.
Proof. intros H. unfold TrimPrefix, HasPrefix. by rewrite H. Qed.

(** A text in which the pattern matches nowhere is left as it is. *)
Lemma ReplaceAllString_no_match re s :
  (forall n, match_here re (str_drop n s) = None) ->
  ReplaceAllString_group1 re s = s.
Proof.
  unfold ReplaceAllString_group1. induction s as [|c s IH]; intros H; [done |].
  pose proof (H 0%nat) as H0. simpl in H0.
  simpl. rewrite H0. f_equal. apply IH. intros n. apply (H (S n)).
Qed.

Example cleanup_executor_failed :
  cleanupDockerBuildError
    "failed to solve with frontend dockerfile.v0: failed to build LLB: executor failed running [/bin/sh -c exit 1]: runc did not terminate sucessfully"
  = "executor failed running [/bin/sh -c exit 1]".
Proof. reflexivity. Qed.

End Cleanup.

(** ** [indent] *)

Section IndentProperties.

Import GoSplit.

Implicit Types s p r text ind : string.

Lemma app_assoc_str s p r : (s +:+ p) +:+ r = s +:+ (p +:+ r).
Proof.
  induction s as [|c s IH]; [done |]. by rewrite !app_String, IH.
Qed.

Lemma app_empty_r s : s +:+ "" = s.
Proof. induction s as [|c s IH]; [done |]. by rewrite app_String, IH. Qed.

Lemma prefix_empty s : String.prefix "" s = true.
Proof. by destruct s. Qed.

(** *** [Split] at newlines *)

Lemma Split_nil : Split "" LF = [""].
Proof. reflexivity. Qed.

Lemma prefix_char a c s : String.prefix (String a "") (String c s) = Ascii.eqb a c.
Proof.
  change (String.prefix (String a "") (String c s))
    with (if Ascii.ascii_dec a c then String.prefix "" s else false).
  destruct (Ascii.ascii_dec a c) as [->|Hne].
  - by rewrite prefix_empty, Ascii.eqb_refl.
  - symmetry. by apply Ascii.eqb_neq.
Qed.

Lemma Split_from_cons sep c s :
  Split_from sep 0 (String c s)
  = if String.prefix sep (String c s) then
      let '(piece, pieces) := Split_from sep (String.length sep - 1) s in
      (EmptyString, piece :: pieces)
    else
      let '(piece, pieces) := Split_from sep 0 s in
      (String c piece, pieces).
Proof. reflexivity. Qed.

Lemma Split_newline s : Split (String regexp.newline s) LF = "" :: Split s LF.
Proof.
  unfold Split. rewrite Split_from_cons. unfold LF at 1.
  change (ascii_of_nat 10) with regexp.newline.
  rewrite prefix_char, Ascii.eqb_refl.
  change (String.length LF - 1)%nat with 0%nat.
  by destruct (Split_from LF 0 s).
Qed.

Lemma Split_other c s :
  Ascii.eqb c regexp.newline = false ->
  Split (String c s) LF
  = match Split s LF with
    | p :: ps => String c p :: ps
    | [] => []
    end.
Proof.
  intros Hc. unfold Split. rewrite Split_from_cons. unfold LF at 1.
  change (ascii_of_nat 10) with regexp.newline.
  rewrite prefix_char, Ascii.eqb_sym, Hc.
  by destruct (Split_from LF 0 s).
Qed.

Lemma Split_cons_inv s : exists p ps, Split s LF = p :: ps.
Proof. unfold Split. destruct (Split_from LF 0 s). by eexists _, _. Qed.

Lemma Split_app_LF p r : noLF p -> Split (p +:+ LF +:+ r) LF = p :: Split r LF.
Proof.
  unfold noLF. induction p as [|c p IH]; intros H.
  - rewrite app_empty_l. apply Split_newline.
  - simpl in H. apply andb_prop in H as [Hc Hp]. apply negb_true_iff in Hc.
    rewrite app_String, (Split_other _ _ Hc), (IH Hp). done.
Qed.

Lemma Split_noLF p : noLF p -> Split p LF = [p].
Proof.
  unfold noLF. induction p as [|c p IH]; intros H; [done |].
  simpl in H. apply andb_prop in H as [Hc Hp]. apply negb_true_iff in Hc.
  by rewrite (Split_other _ _ Hc), (IH Hp).
Qed.

Lemma Split_pieces_noLF s : Forall noLF (Split s LF).
Proof.
  induction s as [|c s IH]; [by repeat constructor |].
  destruct (Ascii.eqb c regexp.newline) eqn:Hc.
  - apply Ascii.eqb_eq in Hc as ->. rewrite Split_newline. by constructor.
  - rewrite (Split_other _ _ Hc). destruct (Split s LF) as [|p ps]; [done |].
    inversion IH; subst. constructor; [| done].
    unfold noLF in *. simpl. by rewrite Hc.
Qed.

Lemma Split_length s : length (Split s LF) = S (countLF s).
Proof.
  induction s as [|c s IH]; [done |]. simpl.
  destruct (Ascii.eqb c regexp.newline) eqn:Hc.
  - apply Ascii.eqb_eq in Hc as ->. rewrite Split_newline. simpl. by rewrite IH.
  - rewrite (Split_other _ _ Hc). destruct (Split s LF) as [|p ps]; simpl in *; lia.
Qed.

(** Splitting at newlines and joining with newlines are inverse. *)
Lemma concat_Split s : String.concat LF (Split s LF) = s.
Proof.
  induction s as [|c s IH]; [done |].
  destruct (Ascii.eqb c regexp.newline) eqn:Hc.
  - apply Ascii.eqb_eq in Hc as ->. rewrite Split_newline.
    destruct (Split_cons_inv s) as (p & ps & E). rewrite E in IH |- *.
    change (String.concat LF ("" :: p :: ps))
      with ("" +:+ LF +:+ String.concat LF (p :: ps)).
    by rewrite IH.
  - rewrite (Split_other _ _ Hc).
    destruct (Split_cons_inv s) as (p & ps & E). rewrite E in IH |- *.
    destruct ps as [|q ps].
    + simpl in *. by rewrite IH.
    + change (String.concat LF (String c p :: q :: ps))
        with (String c p +:+ LF +:+ String.concat LF (q :: ps)).
      change (String.concat LF (p :: q :: ps))
        with (p +:+ LF +:+ String.concat LF (q :: ps)) in IH.
      by rewrite app_String, IH.
Qed.

Lemma Split_concat ps :
  ps <> [] -> Forall noLF ps -> Split (String.concat LF ps) LF = ps.
Proof.
  induction ps as [|p ps IH]; [done |]. intros _ H.
  inversion H as [|? ? Hp Hps]; subst.
  destruct ps as [|q ps]; [by apply Split_noLF |].
  change (String.concat LF (p :: q :: ps))
    with (p +:+ LF +:+ String.concat LF (q :: ps)).
  rewrite (Split_app_LF _ _ Hp). by rewrite IH.
Qed.

(** *** The last character of a text *)

Lemma last_char text :
  text <> "" -> exists body c, text = body +:+ String c "".
Proof.
  induction text as [|a text IH]; [done |]. intros _.
  destruct text as [|a' text'].
  - by exists "", a.
  - destruct IH as (body & c & E); [done |].
    exists (String a body), c. by rewrite app_String, <- E.
Qed.

Lemma length_snoc body c : String.length (body +:+ String c "") = S (String.length body).
Proof. rewrite String_length_app. simpl. lia. Qed.

Lemma str_drop_snoc body c :
  str_drop (String.length (body +:+ String c "") - 1) (body +:+ String c "") = String c "".
Proof.
  rewrite length_snoc. replace (S (String.length body) - 1)%nat with (String.length body) by lia.
  apply str_drop_app.
Qed.

Lemma str_take_snoc body c :
  str_take (String.length (body +:+ String c "") - 1) (body +:+ String c "") = body.
Proof.
  rewrite length_snoc. replace (S (String.length body) - 1)%nat with (String.length body) by lia.
  apply str_take_app.
Qed.

Lemma snoc_not_empty body c : body +:+ String c "" <> "".
Proof. by destruct body. Qed.

(** [TrimRight] leaves a text that ends outside the cutset. *)
Lemma TrimRight_id body c cutset :
  inCutset c cutset = false ->
  TrimRight (body +:+ String c "") cutset = body +:+ String c "".
Proof.
  intros Hc. induction body as [|a body IH].
  - simpl. by rewrite Hc.
  - rewrite app_String. simpl. rewrite IH.
    destruct (body +:+ String c "") eqn:E; [by destruct body | done].
Qed.

(** *** The three cases of [indent] *)

Lemma indent_lines_concat ind p ps :
  indent_lines ind (p :: ps) = String.concat LF (map (String.append ind) (p :: ps)) +:+ LF.
Proof.
  unfold indent_lines.
  assert (forall qs acc,
    fold_left (fun result j => result +:+ (ind +:+ j +:+ LF)) qs acc
    = acc +:+ fold_right (fun j r => (ind +:+ j +:+ LF) +:+ r) "" qs) as Hfold.
  { induction qs as [|q qs IH]; intros acc; simpl.
    - by rewrite app_empty_r.
    - by rewrite IH, app_assoc_str. }
  rewrite Hfold, app_empty_l. clear Hfold.
  revert p. induction ps as [|q ps IH]; intros p.
  - simpl. by rewrite app_empty_r, app_assoc_str.
  - change (fold_right (fun j r => (ind +:+ j +:+ LF) +:+ r) "" (p :: q :: ps))
      with ((ind +:+ p +:+ LF)
            +:+ fold_right (fun j r => (ind +:+ j +:+ LF) +:+ r) "" (q :: ps)).
    rewrite IH.
    change (String.concat LF (map (String.append ind) (p :: q :: ps)))
      with ((ind +:+ p) +:+ LF
            +:+ String.concat LF (map (String.append ind) (q :: ps))).
    by rewrite !app_assoc_str.
Qed.

Lemma indent_empty ind : indent "" ind = ind.
Proof. unfold indent. simpl. apply app_empty_r. Qed.

Lemma indent_trailing body ind :
  indent (body +:+ LF) ind
  = String.concat LF (map (String.append ind) (Split body LF)) +:+ LF.
Proof.
  unfold indent.
  destruct (String.eqb_spec (body +:+ LF) "") as [E|_]; [by destruct (snoc_not_empty _ _ E) |].
  unfold LF at 1 2 3 4. rewrite str_drop_snoc, str_take_snoc.
  fold LF. rewrite String.eqb_refl.
  destruct (Split_cons_inv body) as (p & ps & E). rewrite E.
  apply indent_lines_concat.
Qed.

Lemma indent_open body c ind :
  Ascii.eqb c regexp.newline = false ->
  indent (body +:+ String c "") ind
  = String.concat LF (map (String.append ind) (Split (body +:+ String c "") LF)).
Proof.
  intros Hc. unfold indent.
  destruct (String.eqb_spec (body +:+ String c "") "") as [E|_];
    [by destruct (snoc_not_empty _ _ E) |].
  rewrite str_drop_snoc.
  destruct (String.eqb_spec (String c "") LF) as [E|_].
  { injection E as ->. by rewrite Ascii.eqb_refl in Hc. }
  assert (inCutset c LF = false) as Hcut
    by (unfold LF, inCutset; change (ascii_of_nat 10) with regexp.newline;
        by rewrite Hc).
  rewrite (TrimRight_id _ _ _ Hcut).
  destruct (Split_cons_inv (body +:+ String c "")) as (p & ps & E). rewrite E.
  cbv zeta. rewrite indent_lines_concat.
  generalize (String.concat LF (map (String.append ind) (p :: ps))). intros r.
  unfold LF. rewrite length_snoc.
  replace (S (String.length r) - 1)%nat with (String.length r) by lia.
  apply str_take_app.
Qed.

Lemma map_append_empty ps : map (String.append "") ps = ps.
Proof. induction ps as [|p ps IH]; [done |]. simpl. by rewrite IH. Qed.

(** X1. With an empty indentation, [indent] returns the text as it is. *)
Theorem indent_no_indentation text : indent text "" = text.
Proof.
  destruct (decide (text = "")) as [->|Hne]; [done |].
  destruct (last_char text Hne) as (body & c & ->).
  destruct (Ascii.eqb c regexp.newline) eqn:Hc.
  - apply Ascii.eqb_eq in Hc as ->. change (String regexp.newline "") with LF.
    by rewrite indent_trailing, map_append_empty, concat_Split.
  - by rewrite (indent_open _ _ _ Hc), map_append_empty, concat_Split.
Qed.

Lemma length_concat_indented ind ps :
  String.length (String.concat LF (map (String.append ind) ps))
  = (String.length (String.concat LF ps) + length ps * String.length ind)%nat.
Proof.
  induction ps as [|p ps IH]; [done |].
  destruct ps as [|q ps].
  - simpl. rewrite String_length_app. lia.
  - change (String.concat LF (map (String.append ind) (p :: q :: ps)))
      with ((ind +:+ p) +:+ LF +:+ String.concat LF (map (String.append ind) (q :: ps))).
    change (String.concat LF (p :: q :: ps))
      with (p +:+ LF +:+ String.concat LF (q :: ps)).
    rewrite !String_length_app, IH. simpl length. lia.
Qed.

Lemma countLF_app s r : countLF (s +:+ r) = (countLF s + countLF r)%nat.
Proof.
  induction s as [|c s IH]; [done |]. rewrite app_String. simpl. rewrite IH. lia.
Qed.

Lemma lineCount_trailing body : lineCount (body +:+ LF) = S (countLF body).
Proof.
  unfold lineCount. unfold LF at 1 2. rewrite str_drop_snoc. fold LF.
  rewrite String.eqb_refl, countLF_app. simpl. lia.
Qed.

Lemma lineCount_open body c :
  Ascii.eqb c regexp.newline = false ->
  lineCount (body +:+ String c "") = S (countLF (body +:+ String c "")).
Proof.
  intros Hc. unfold lineCount. rewrite str_drop_snoc.
  destruct (String.eqb_spec (String c "") LF) as [E|_]; [| done].
  injection E as ->. by rewrite Ascii.eqb_refl in Hc.
Qed.

(** X2. [indent] adds the length of the indentation once per line: the
    result is as long as the text plus the indentation times the number of
    lines, where a newline at the end of the text opens no line and the empty
    text is one line. *)
Theorem indent_length text ind :
  String.length (indent text ind)
  = (String.length text + lineCount text * String.length ind)%nat.
Proof.
  destruct (decide (text = "")) as [->|Hne].
  { rewrite indent_empty. simpl. lia. }
  destruct (last_char text Hne) as (body & c & ->).
  destruct (Ascii.eqb c regexp.newline) eqn:Hc.
  - apply Ascii.eqb_eq in Hc as ->. change (String regexp.newline "") with LF.
    rewrite indent_trailing, lineCount_trailing, !String_length_app.
    rewrite length_concat_indented, concat_Split, Split_length. simpl. lia.
  - rewrite (indent_open _ _ _ Hc), (lineCount_open _ _ Hc).
    by rewrite length_concat_indented, concat_Split, Split_length.
Qed.

Lemma noLF_app s r : noLF s -> noLF r -> noLF (s +:+ r).
Proof.
  unfold noLF. intros Hs Hr. induction s as [|c s IH]; [done |].
  rewrite app_String. simpl in *. apply andb_prop in Hs as [-> Hs]. by apply IH.
Qed.

Lemma concat_snoc_empty ps :
  ps <> [] -> String.concat LF (ps ++ [""]) = String.concat LF ps +:+ LF.
Proof.
  induction ps as [|p ps IH]; [done |]. intros _.
  destruct ps as [|q ps].
  - simpl. by rewrite app_empty_r.
  - change (String.concat LF ((p :: q :: ps) ++ [""]))
      with (p +:+ LF +:+ String.concat LF ((q :: ps) ++ [""])).
    change (String.concat LF (p :: q :: ps))
      with (p +:+ LF +:+ String.concat LF (q :: ps)).
    rewrite IH by done. by rewrite !app_assoc_str.
Qed.

Lemma indented_noLF ind ps :
  noLF ind -> Forall noLF ps -> Forall noLF (map (String.append ind) ps).
Proof.
  intros Hind H. induction H as [|p ps Hp _ IH]; [constructor |].
  constructor; [by apply noLF_app | done].
Qed.

(** X3. When the indentation holds no newline, the lines of [indent text]
    are the lines of the text, each with the indentation in front; after a
    newline at the end of the text nothing is added. *)
Theorem indent_lines_of text ind :
  noLF ind ->
  (forall body, text = body +:+ LF ->
     Split (indent text ind) LF = map (String.append ind) (Split body LF) ++ [""]) /\
  ((forall body, text <> body +:+ LF) ->
     Split (indent text ind) LF = map (String.append ind) (Split text LF)).
Proof.
  intros Hind. split.
  - intros body ->. rewrite indent_trailing.
    destruct (Split_cons_inv body) as (p & ps & E).
    pose proof (Split_pieces_noLF body) as Hps. rewrite E in Hps |- *.
    rewrite <- concat_snoc_empty by done.
    apply Split_concat; [done |].
    apply Forall_app. split; [by apply indented_noLF | by repeat constructor].
  - intros Hopen. destruct (decide (text = "")) as [->|Hne].
    { rewrite indent_empty. simpl. rewrite app_empty_r. by apply Split_noLF. }
    destruct (last_char text Hne) as (body & c & ->).
    destruct (Ascii.eqb c regexp.newline) eqn:Hc.
    { apply Ascii.eqb_eq in Hc as ->. by destruct (Hopen body). }
    rewrite (indent_open _ _ _ Hc).
    destruct (Split_cons_inv (body +:+ String c "")) as (p & ps & E).
    pose proof (Split_pieces_noLF (body +:+ String c "")) as Hps. rewrite E in Hps |- *.
    apply Split_concat; [done | by apply indented_noLF].
Qed.

End IndentProperties.

Lemma indent_lines_of_witness :
  GoSplit.Split (indent ("FROM node" +:+ GoSplit.LF +:+ "RUN make" +:+ GoSplit.LF) "  ")
    GoSplit.LF
  = ["  FROM node"; "  RUN make"; ""].
Proof.
  refine (proj1 (indent_lines_of
                   ("FROM node" +:+ GoSplit.LF +:+ "RUN make" +:+ GoSplit.LF) "  " _)
            ("FROM node" +:+ GoSplit.LF +:+ "RUN make") _); reflexivity.
Defined.

Example indent_examples :
  indent ("FROM node" +:+ GoSplit.LF +:+ "RUN make") "  "
    = "  FROM node" +:+ GoSplit.LF +:+ "  RUN make" /\
  indent "" "  " = "  " /\
  indent GoSplit.LF "  " = "  " +:+ GoSplit.LF.
Proof. repeat split. Qed.

(** ** [cleanupDockerBuildError] *)

Section CleanupProperties.

Import regexp.
Import GoSplit.

Implicit Types s x pat : string.

Lemma length_line_of s : (String.length (line_of s) <= String.length s)%nat.
Proof.
  induction s as [|c s IH]; [done |]. simpl.
  destruct (Ascii.eqb c newline); simpl; lia.
Qed.

Lemma line_of_noLF s : noLF s -> line_of s = s.
Proof.
  unfold noLF. induction s as [|c s IH]; [done |]. simpl.
  intros H. apply andb_prop in H as [Hc Hs]. apply negb_true_iff in Hc.
  by rewrite Hc, (IH Hs).
Qed.

Lemma prefix_length pat s :
  String.prefix pat s = true -> (String.length pat <= String.length s)%nat.
Proof.
  intros H. apply prefix_iff in H as [r ->]. rewrite String_length_app. lia.
Qed.

Lemma last_index_nil pat :
  last_index pat "" = if String.prefix pat "" then Some 0%nat else None.
Proof. reflexivity. Qed.

Lemma last_index_cons pat c s :
  last_index pat (String c s)
  = match last_index pat s with
    | Some j => Some (S j)
    | None => if String.prefix pat (String c s) then Some 0%nat else None
    end.
Proof. reflexivity. Qed.

Lemma last_index_fits pat s j :
  last_index pat s = Some j -> (j + String.length pat <= String.length s)%nat.
Proof.
  revert j. induction s as [|c s IH]; intros j.
  - rewrite last_index_nil. destruct (String.prefix pat "") eqn:E; [| done].
    intros [= <-]. apply prefix_length in E. simpl in *. lia.
  - rewrite last_index_cons. destruct (last_index pat s) as [j'|].
    + intros [= <-]. specialize (IH _ eq_refl). simpl. lia.
    + destruct (String.prefix pat (String c s)) eqn:E; [| done].
      intros [= <-]. apply prefix_length in E. simpl in *. lia.
Qed.

Lemma last_index_short pat s :
  (String.length s < String.length pat)%nat -> last_index pat s = None.
Proof.
  intros H. destruct (last_index pat s) as [j|] eqn:E; [| done].
  apply last_index_fits in E. lia.
Qed.

Lemma prefix_refl pat : String.prefix pat pat = true.
Proof. apply prefix_iff. exists "". by rewrite app_empty_r. Qed.

(** The last occurrence of [pat] in [x] followed by [pat] is the one at the
    end. *)
Lemma last_index_at_end pat x :
  last_index pat (x +:+ pat) = Some (String.length x).
Proof.
  induction x as [|c x IH].
  - rewrite app_empty_l. destruct pat as [|a pat]; [done |].
    rewrite last_index_cons, last_index_short by (simpl; lia).
    by rewrite prefix_refl.
  - rewrite app_String, last_index_cons. by rewrite IH.
Qed.

(** A match lies within the text, and its group is no longer than it. *)
Lemma match_here_fits re s group n :
  match_here re s = Some (group, n) ->
  (n <= String.length s /\ String.length group <= n)%nat.
Proof.
  unfold match_here.
  destruct (String.prefix (before re +:+ group_open re) s) eqn:Hp; [| done].
  destruct (last_index _ _) as [j|] eqn:Hj; [| done].
  intros [= <- <-]. apply last_index_fits in Hj. apply prefix_length in Hp.
  pose proof (length_line_of (str_drop (String.length (before re +:+ group_open re)) s)).
  rewrite length_str_drop in *.
  rewrite !String_length_app in *. rewrite length_str_take. lia.
Qed.

Lemma ReplaceAllString_from_length re skip s :
  (String.length (ReplaceAllString_from re skip s) <= String.length s - skip)%nat.
Proof.
  revert skip. induction s as [|c s IH]; intros skip; [simpl; lia |].
  destruct skip as [|k]; simpl.
  - destruct (match_here re (String c s)) as [[group n]|] eqn:E.
    + apply match_here_fits in E as [Hn Hg]. simpl in Hn.
      rewrite String_length_app. specialize (IH (n - 1)%nat). lia.
    + simpl. specialize (IH 0%nat). lia.
  - apply IH.
Qed.

Lemma ReplaceAllString_from_skip_all re skip s :
  (String.length s <= skip)%nat -> ReplaceAllString_from re skip s = "".
Proof.
  intros H. pose proof (ReplaceAllString_from_length re skip s) as L.
  destruct (ReplaceAllString_from re skip s); [done | simpl in L; lia].
Qed.

Lemma TrimPrefix_length s pat :
  (String.length (TrimPrefix s pat) <= String.length s)%nat.
Proof.
  unfold TrimPrefix. destruct (HasPrefix s pat); [| done].
  rewrite length_str_drop. lia.
Qed.

(** X4. Cleaning a daemon error never makes it longer. *)
Theorem cleanupDockerBuildError_length err :
  (String.length (cleanupDockerBuildError err) <= String.length err)%nat.
Proof.
  unfold cleanupDockerBuildError, dockerBuildCleanupRexes, ReplaceAllString_group1.
  simpl fold_left.
  pose proof (TrimPrefix_length err
    "failed to solve with frontend dockerfile.v0: failed to build LLB: ") as H0.
  set (s0 := TrimPrefix err _) in *.
  pose proof (ReplaceAllString_from_length rex_executor_failed 0 s0) as H1.
  set (s1 := ReplaceAllString_from rex_executor_failed 0 s0) in *.
  pose proof (ReplaceAllString_from_length rex_cache_key 0 s1) as H2.
  lia.
Qed.

Lemma contains_drop s pat n :
  contains s pat = false -> String.prefix pat (str_drop n s) = false.
Proof.
  revert s. induction n as [|n IH]; intros s H.
  - destruct s; simpl in *; by apply orb_false_elim in H as [H _].
  - destruct s as [|c s]; simpl in *; apply orb_false_elim in H as [H1 H2]; [done |].
    by apply IH.
Qed.

Lemma match_here_none re s :
  String.prefix (before re +:+ group_open re) s = false -> match_here re s = None.
Proof. intros H. unfold match_here. by rewrite H. Qed.

Lemma ReplaceAllString_absent re s :
  contains s (before re +:+ group_open re) = false ->
  ReplaceAllString_group1 re s = s.
Proof.
  intros H. apply ReplaceAllString_no_match. intros n.
  apply match_here_none. by apply contains_drop.
Qed.

(** An error that does not begin with the wrapper phrase and holds neither
    [executor failed running] nor [failed to compute cache key: ] is
    returned as it is. *)
Lemma cleanup_of_other err :
  String.prefix solveWrapper err = false ->
  contains err "executor failed running" = false ->
  contains err "failed to compute cache key: " = false ->
  cleanupDockerBuildError err = err.
Proof.
  intros Hw H1 H2. unfold cleanupDockerBuildError, dockerBuildCleanupRexes.
  unfold solveWrapper in Hw. simpl fold_left. rewrite (TrimPrefix_other _ _ Hw).
  rewrite (ReplaceAllString_absent rex_executor_failed) by done.
  by rewrite (ReplaceAllString_absent rex_cache_key).
Qed.

(** Of an error that begins with the wrapper phrase and holds neither of the
    two phrases after it, what follows the wrapper phrase is returned. *)
Lemma cleanup_of_wrapped_other rest :
  contains rest "executor failed running" = false ->
  contains rest "failed to compute cache key: " = false ->
  cleanupDockerBuildError (solveWrapper +:+ rest) = rest.
Proof.
  intros H1 H2. unfold cleanupDockerBuildError, dockerBuildCleanupRexes, solveWrapper.
  simpl fold_left. rewrite TrimPrefix_app.
  rewrite (ReplaceAllString_absent rex_executor_failed) by done.
  by rewrite (ReplaceAllString_absent rex_cache_key).
Qed.

(** A text that is one match of the pattern from its first to its last
    character is replaced by the group. *)
Lemma match_here_whole re x :
  noLF x -> noLF (group_close re +:+ after re) ->
  match_here re ((before re +:+ group_open re) +:+ x +:+ group_close re +:+ after re)
  = Some (group_open re +:+ x +:+ group_close re,
          String.length ((before re +:+ group_open re) +:+ x
                         +:+ group_close re +:+ after re)).
Proof.
  intros Hx Htail. unfold match_here.
  set (head := before re +:+ group_open re).
  set (tail := group_close re +:+ after re) in *.
  assert (String.prefix head (head +:+ x +:+ tail) = true) as ->
    by (apply prefix_iff; by eexists).
  rewrite str_drop_app, (line_of_noLF (x +:+ tail)) by (by apply noLF_app).
  rewrite last_index_at_end, str_take_app.
  rewrite !String_length_app. do 2 f_equal. lia.
Qed.

Lemma ReplaceAllString_whole re x :
  noLF x -> noLF (group_close re +:+ after re) ->
  ReplaceAllString_group1 re
    ((before re +:+ group_open re) +:+ x +:+ group_close re +:+ after re)
  = group_open re +:+ x +:+ group_close re.
Proof.
  intros Hx Htail. pose proof (match_here_whole re x Hx Htail) as Hm.
  unfold ReplaceAllString_group1.
  destruct ((before re +:+ group_open re) +:+ x +:+ group_close re +:+ after re)
    as [|c s] eqn:E.
  - apply (f_equal String.length) in E. rewrite !String_length_app in E. simpl in E.
    assert (String.length (group_open re +:+ x +:+ group_close re) = 0%nat) as H0
      by (rewrite !String_length_app; lia).
    by destruct (group_open re +:+ x +:+ group_close re).
  - simpl ReplaceAllString_from. rewrite Hm.
    rewrite ReplaceAllString_from_skip_all by (simpl; lia).
    apply app_empty_r.
Qed.

(** The error of a failed command: when [x] holds no newline and the second
    pattern finds nothing in [executor failed running x], the message
    [executor failed running x: runc did not terminate sucessfully], with or
    without the wrapper phrase in front, is cleaned to
    [executor failed running x]. *)
Lemma cleanup_of_executor_failed x :
  noLF x ->
  contains ("executor failed running" +:+ x) "failed to compute cache key: " = false ->
  cleanupDockerBuildError
    (solveWrapper +:+ "executor failed running" +:+ x
       +:+ ": runc did not terminate sucessfully")
  = "executor failed running" +:+ x /\
  cleanupDockerBuildError
    ("executor failed running" +:+ x +:+ ": runc did not terminate sucessfully")
  = "executor failed running" +:+ x.
Proof.
  intros Hx Hc.
  assert (regexp.ReplaceAllString_group1 rex_cache_key
            (regexp.ReplaceAllString_group1 rex_executor_failed
               ("executor failed running" +:+ x
                  +:+ ": runc did not terminate sucessfully"))
          = "executor failed running" +:+ x) as Hclean.
  { assert (regexp.ReplaceAllString_group1 rex_executor_failed
              ("executor failed running" +:+ x
                 +:+ ": runc did not terminate sucessfully")
            = "executor failed running" +:+ x +:+ "") as H1
      by exact (ReplaceAllString_whole rex_executor_failed x Hx eq_refl).
    rewrite H1, app_empty_r.
    by apply (ReplaceAllString_absent rex_cache_key). }
  unfold cleanupDockerBuildError, dockerBuildCleanupRexes, solveWrapper.
  simpl fold_left. split.
  - by rewrite TrimPrefix_app.
  - by rewrite TrimPrefix_other.
Qed.

(** The error of a missing file: when [x] holds no newline and the message
    holds no [executor failed running], the message
    [failed to compute cache key: x not found: not found], with or without
    the wrapper phrase in front, is cleaned to [x not found]. *)
Lemma cleanup_of_cache_key x :
  noLF x ->
  contains ("failed to compute cache key: " +:+ x +:+ " not found: not found")
    "executor failed running" = false ->
  cleanupDockerBuildError
    (solveWrapper +:+ "failed to compute cache key: " +:+ x +:+ " not found: not found")
  = x +:+ " not found" /\
  cleanupDockerBuildError
    ("failed to compute cache key: " +:+ x +:+ " not found: not found")
  = x +:+ " not found".
Proof.
  intros Hx Hc.
  assert (regexp.ReplaceAllString_group1 rex_cache_key
            (regexp.ReplaceAllString_group1 rex_executor_failed
               ("failed to compute cache key: " +:+ x +:+ " not found: not found"))
          = x +:+ " not found") as Hclean.
  { rewrite (ReplaceAllString_absent rex_executor_failed) by done.
    exact (ReplaceAllString_whole rex_cache_key x Hx eq_refl). }
  unfold cleanupDockerBuildError, dockerBuildCleanupRexes, solveWrapper.
  simpl fold_left. split.
  - by rewrite TrimPrefix_app.
  - by rewrite TrimPrefix_other.
Qed.

Lemma noLF_String c s : noLF (String c s) <-> Ascii.eqb c newline = false /\ noLF s.
Proof.
  unfold noLF. simpl. rewrite andb_true_iff, negb_true_iff. done.
Qed.

Lemma noLF_app_inv s r : noLF (s +:+ r) -> noLF s /\ noLF r.
Proof.
  induction s as [|c s IH]; [by rewrite app_empty_l |].
  rewrite app_String, !noLF_String. intros [Hc H]. destruct (IH H). done.
Qed.

Lemma prefix_String a pat c s :
  String.prefix (String a pat) (String c s)
  = if Ascii.eqb a c then String.prefix pat s else false.
Proof.
  change (String.prefix (String a pat) (String c s))
    with (if Ascii.ascii_dec a c then String.prefix pat s else false).
  destruct (Ascii.ascii_dec a c) as [->|Hne].
  - by rewrite Ascii.eqb_refl.
  - apply Ascii.eqb_neq in Hne. by rewrite Hne.
Qed.

(** A phrase without newline begins a text exactly when it begins its first
    line. *)
Lemma prefix_first_line pat l rest :
  noLF pat -> pat <> "" ->
  String.prefix pat (l +:+ LF +:+ rest) = String.prefix pat l.
Proof.
  intros Hpat Hne. revert l. induction pat as [|a pat IH]; intros l; [done |].
  apply noLF_String in Hpat as [Ha Hpat].
  destruct l as [|c l].
  - rewrite app_empty_l. unfold LF, GoSplit.LF. rewrite app_String, prefix_String.
    change (ascii_of_nat 10) with newline. by rewrite Ha.
  - rewrite app_String, !prefix_String. destruct (Ascii.eqb a c); [| done].
    destruct pat as [|b pat]; [by destruct l | ].
    by apply IH.
Qed.

Lemma line_of_first_line l rest : noLF l -> line_of (l +:+ LF +:+ rest) = l.
Proof.
  induction l as [|c l IH].
  - intros _. rewrite app_empty_l. unfold LF, GoSplit.LF. rewrite app_String. reflexivity.
  - intros [Hc Hl]%noLF_String. rewrite app_String. simpl. by rewrite Hc, IH.
Qed.

Lemma match_here_first_line re l rest :
  noLF (before re +:+ group_open re) -> before re +:+ group_open re <> "" ->
  noLF l ->
  match_here re (l +:+ LF +:+ rest) = match_here re l.
Proof.
  intros Hh Hne Hl. unfold match_here. rewrite (prefix_first_line _ _ _ Hh Hne).
  destruct (String.prefix (before re +:+ group_open re) l) eqn:Hp; [| done].
  apply prefix_iff in Hp as [l2 ->].
  apply noLF_app_inv in Hl as [_ Hl2].
  rewrite app_assoc_str, !str_drop_app.
  by rewrite (line_of_first_line _ _ Hl2), (line_of_noLF _ Hl2).
Qed.

Lemma ReplaceAllString_from_lines re skip l rest :
  noLF (before re +:+ group_open re) -> before re +:+ group_open re <> "" ->
  noLF l -> (skip <= String.length l)%nat ->
  ReplaceAllString_from re skip (l +:+ LF +:+ rest)
  = ReplaceAllString_from re skip l +:+ LF +:+ ReplaceAllString_from re 0 rest.
Proof.
  intros Hh Hne. revert skip. induction l as [|c l IH]; intros skip Hl Hskip.
  - simpl in Hskip. assert (skip = 0%nat) as -> by lia.
    rewrite app_empty_l. unfold LF, GoSplit.LF. rewrite app_String, app_empty_l.
    pose proof (match_here_first_line re "" rest Hh Hne Hl) as Hm.
    rewrite app_empty_l in Hm. unfold LF, GoSplit.LF in Hm. rewrite app_String, app_empty_l in Hm.
    simpl ReplaceAllString_from at 1. rewrite Hm.
    assert (match_here re "" = None) as ->.
    { unfold match_here. destruct (before re +:+ group_open re); done. }
    simpl. by rewrite app_empty_l.
  - pose proof Hl as Hl'. apply noLF_String in Hl' as [Hc Hl'].
    rewrite app_String. destruct skip as [|k].
    + pose proof (match_here_first_line re (String c l) rest Hh Hne Hl) as Hm.
      rewrite app_String in Hm.
      simpl ReplaceAllString_from at 1 2. rewrite Hm.
      destruct (match_here re (String c l)) as [[group n]|] eqn:E.
      * apply match_here_fits in E as [Hn _]. simpl in Hn.
        rewrite (IH (n - 1)%nat Hl') by lia. by rewrite app_assoc_str.
      * rewrite (IH 0%nat Hl') by lia. by rewrite app_String.
    + simpl. apply IH; [done | simpl in Hskip; lia].
Qed.

Lemma noLF_line_of s : noLF (line_of s).
Proof.
  induction s as [|c s IH]; [done |]. simpl.
  destruct (Ascii.eqb c newline) eqn:Hc; [done |]. by apply noLF_String.
Qed.

Lemma noLF_str_take n s : noLF s -> noLF (str_take n s).
Proof.
  revert s. induction n as [|n IH]; intros [|c s]; try done.
  intros [Hc Hs]%noLF_String. simpl. apply noLF_String. split; [done | by apply IH].
Qed.

Lemma noLF_str_drop n s : noLF s -> noLF (str_drop n s).
Proof.
  revert s. induction n as [|n IH]; intros [|c s]; try done.
  intros [Hc Hs]%noLF_String. simpl. by apply IH.
Qed.

Lemma match_here_noLF re s group n :
  noLF (group_open re) -> noLF (group_close re) ->
  match_here re s = Some (group, n) -> noLF group.
Proof.
  intros Ho Hc. unfold match_here.
  destruct (String.prefix _ s); [| done].
  destruct (last_index _ _) as [j|]; [| done].
  intros [= <- _]. apply noLF_app; [done |]. apply noLF_app; [| done].
  apply noLF_str_take, noLF_line_of.
Qed.

Lemma ReplaceAllString_from_noLF re skip s :
  noLF (group_open re) -> noLF (group_close re) ->
  noLF s -> noLF (ReplaceAllString_from re skip s).
Proof.
  intros Ho Hc. revert skip. induction s as [|c s IH]; intros skip Hs; [done |].
  pose proof Hs as [Hc' Hs']%noLF_String.
  destruct skip as [|k]; simpl; [| by apply IH].
  destruct (match_here re (String c s)) as [[group n]|] eqn:E.
  - apply noLF_app; [by eapply match_here_noLF | by apply IH].
  - apply noLF_String. split; [done | by apply IH].
Qed.

Lemma TrimPrefix_first_line pat l rest :
  noLF pat -> pat <> "" ->
  TrimPrefix (l +:+ LF +:+ rest) pat = TrimPrefix l pat +:+ LF +:+ rest.
Proof.
  intros Hpat Hne. unfold TrimPrefix, HasPrefix.
  rewrite (prefix_first_line _ _ _ Hpat Hne).
  destruct (String.prefix pat l) eqn:Hp; [| done].
  apply prefix_iff in Hp as [l2 ->]. by rewrite app_assoc_str, !str_drop_app.
Qed.

Lemma noLF_TrimPrefix pat l : noLF l -> noLF (TrimPrefix l pat).
Proof.
  intros Hl. unfold TrimPrefix. destruct (HasPrefix l pat); [| done].
  by apply noLF_str_drop.
Qed.

Lemma ReplaceAllString_lines re l rest :
  noLF (before re +:+ group_open re) -> before re +:+ group_open re <> "" ->
  noLF l ->
  ReplaceAllString_group1 re (l +:+ LF +:+ rest)
  = ReplaceAllString_group1 re l +:+ LF +:+ ReplaceAllString_group1 re rest.
Proof.
  intros Hh Hne Hl. unfold ReplaceAllString_group1.
  apply ReplaceAllString_from_lines; [done | done | done | lia].
Qed.

(** X5. The cleaning works line by line: no match of a pattern spans a
    newline, so cleaning a first line followed by more text gives the
    cleaned first line followed by the cleaned text, every match in either
    being replaced. The wrapper phrase is trimmed only at the very beginning:
    the text after the first line is taken not to begin with it. *)
Theorem cleanupDockerBuildError_line_by_line l rest :
  noLF l ->
  String.prefix solveWrapper rest = false ->
  cleanupDockerBuildError (l +:+ LF +:+ rest)
  = cleanupDockerBuildError l +:+ LF +:+ cleanupDockerBuildError rest.
Proof.
  intros Hl Hw. unfold cleanupDockerBuildError, dockerBuildCleanupRexes.
  simpl fold_left. unfold solveWrapper in Hw.
  rewrite (TrimPrefix_other _ rest Hw).
  rewrite TrimPrefix_first_line by done.
  set (t := TrimPrefix l _).
  assert (noLF t) as Ht by (by apply noLF_TrimPrefix).
  rewrite (ReplaceAllString_lines rex_executor_failed t rest) by done.
  rewrite (ReplaceAllString_lines rex_cache_key) ; [done | done | done |].
  by apply ReplaceAllString_from_noLF.
Qed.

Lemma ReplaceAllString_keeps_before re u s :
  (forall n, (n < String.length u)%nat ->
     String.prefix (before re +:+ group_open re) (str_drop n (u +:+ s)) = false) ->
  ReplaceAllString_group1 re (u +:+ s) = u +:+ ReplaceAllString_group1 re s.
Proof.
  unfold ReplaceAllString_group1. induction u as [|c u IH]; intros H.
  - by rewrite !app_empty_l.
  - rewrite !app_String. simpl ReplaceAllString_from.
    pose proof (H 0%nat ltac:(simpl; lia)) as H0. simpl str_drop in H0.
    rewrite app_String in H0. rewrite (match_here_none _ _ H0). f_equal.
    apply IH. intros n Hn. apply (H (S n)). simpl. lia.
Qed.

Lemma prefix_app_short pat s r :
  (String.length pat <= String.length s)%nat ->
  String.prefix pat (s +:+ r) = String.prefix pat s.
Proof.
  revert s. induction pat as [|a pat IH]; intros s Hlen.
  - by rewrite !prefix_empty.
  - destruct s as [|c s]; [simpl in Hlen; lia |].
    rewrite app_String, !prefix_String. destruct (Ascii.eqb a c); [| done].
    apply IH. simpl in Hlen. lia.
Qed.

Lemma str_drop_app_le n s r :
  (n <= String.length s)%nat -> str_drop n (s +:+ r) = str_drop n s +:+ r.
Proof.
  revert s. induction n as [|n IH]; intros s Hn; [by destruct s |].
  destruct s as [|c s]; [simpl in Hn; lia |].
  rewrite app_String. simpl. apply IH. simpl in Hn. lia.
Qed.

(** When [u] followed by all but the last character of [pat] does not hold
    [pat], no occurrence of [pat] starts within [u] in [u] followed by [pat]
    and whatever comes after. *)
Lemma no_start_before u h c rest n :
  contains (u +:+ h) (h +:+ String c "") = false ->
  (n < String.length u)%nat ->
  String.prefix (h +:+ String c "") (str_drop n (u +:+ (h +:+ String c "") +:+ rest)) = false.
Proof.
  intros Hc Hn. pose proof (contains_drop _ _ n Hc) as Hd.
  rewrite <- Hd.
  replace (u +:+ (h +:+ String c "") +:+ rest) with ((u +:+ h) +:+ (String c "" +:+ rest))
    by (by rewrite !app_assoc_str).
  rewrite (str_drop_app_le n (u +:+ h)) by (rewrite String_length_app; lia).
  apply prefix_app_short.
  rewrite length_str_drop, !String_length_app. simpl. lia.
Qed.

(** X6. Text in front of the message of a failed command, or of a missing
    file, is kept as it is when the opening phrase of the pattern does not
    begin in it: the match is looked for from left to right, and the
    opening phrase occurs first where the message begins. *)
Theorem cleanupDockerBuildError_keeps_text_before u x :
  noLF x ->
  (let msg := u +:+ "executor failed running" +:+ x
                +:+ ": runc did not terminate sucessfully" in
   String.prefix solveWrapper msg = false ->
   contains (u +:+ "executor failed runnin") "executor failed running" = false ->
   contains (u +:+ "executor failed running" +:+ x) "failed to compute cache key: " = false ->
   cleanupDockerBuildError msg = u +:+ "executor failed running" +:+ x) /\
  (let msg := u +:+ "failed to compute cache key: " +:+ x +:+ " not found: not found" in
   String.prefix solveWrapper msg = false ->
   contains msg "executor failed running" = false ->
   contains (u +:+ "failed to compute cache key:") "failed to compute cache key: " = false ->
   cleanupDockerBuildError msg = u +:+ x +:+ " not found").
Proof.
  intros Hx. split.
  - intros msg Hw Hu Hc. unfold cleanupDockerBuildError, dockerBuildCleanupRexes.
    unfold solveWrapper in Hw. simpl fold_left. rewrite (TrimPrefix_other _ _ Hw).
    unfold msg.
    rewrite (ReplaceAllString_keeps_before rex_executor_failed u).
    + assert (ReplaceAllString_group1 rex_executor_failed
                ("executor failed running" +:+ x
                   +:+ ": runc did not terminate sucessfully")
              = "executor failed running" +:+ x +:+ "") as H1
        by exact (ReplaceAllString_whole rex_executor_failed x Hx eq_refl).
      rewrite H1, app_empty_r.
      by apply (ReplaceAllString_absent rex_cache_key).
    + intros n Hn.
      exact (no_start_before u "executor failed runnin" "g"
               (x +:+ ": runc did not terminate sucessfully") n Hu Hn).
  - intros msg Hw Hc Hu. unfold cleanupDockerBuildError, dockerBuildCleanupRexes.
    unfold solveWrapper in Hw. simpl fold_left. rewrite (TrimPrefix_other _ _ Hw).
    rewrite (ReplaceAllString_absent rex_executor_failed) by done.
    unfold msg.
    rewrite (ReplaceAllString_keeps_before rex_cache_key u).
    + f_equal. exact (ReplaceAllString_whole rex_cache_key x Hx eq_refl).
    + intros n Hn.
      exact (no_start_before u "failed to compute cache key:" " "
               (x +:+ " not found: not found") n Hu Hn).
Qed.

End CleanupProperties.

(** Two lines, each with a match of one of the patterns. *)
Lemma cleanupDockerBuildError_line_by_line_witness :
  cleanupDockerBuildError
    ("executor failed running [/bin/sh -c make]: runc did not terminate sucessfully"
       +:+ GoSplit.LF +:+ "failed to compute cache key: foo.txt not found: not found")
  = cleanupDockerBuildError
      "executor failed running [/bin/sh -c make]: runc did not terminate sucessfully"
    +:+ GoSplit.LF
    +:+ cleanupDockerBuildError "failed to compute cache key: foo.txt not found: not found".
Proof.
  refine (cleanupDockerBuildError_line_by_line
            "executor failed running [/bin/sh -c make]: runc did not terminate sucessfully"
            "failed to compute cache key: foo.txt not found: not found" _ _);
    vm_compute; reflexivity.
Defined.

(** The message of a failed command behind the text of the RPC layer. *)
Lemma cleanupDockerBuildError_keeps_text_before_witness :
  cleanupDockerBuildError
    ("rpc error: code = Unknown desc = " +:+ "executor failed running"
       +:+ " [/bin/sh -c exit 1]" +:+ ": runc did not terminate sucessfully")
  = "rpc error: code = Unknown desc = " +:+ "executor failed running"
      +:+ " [/bin/sh -c exit 1]".
Proof.
  refine (proj1 (cleanupDockerBuildError_keeps_text_before
                   "rpc error: code = Unknown desc = " " [/bin/sh -c exit 1]" _) _ _ _);
    vm_compute; reflexivity.
Defined.

Example cleanupDockerBuildError_two_lines :
  cleanupDockerBuildError
    ("executor failed running [/bin/sh -c make]: runc did not terminate sucessfully"
       +:+ GoSplit.LF +:+ "failed to compute cache key: foo.txt not found: not found")
  = "executor failed running [/bin/sh -c make]" +:+ GoSplit.LF +:+ "foo.txt not found".
Proof. vm_compute. reflexivity. Qed.

(** ** The decoder *)

(** From [H : readDockerOutput ... = o], the run of the loop that returned
    [o], as an equation [E] with the state it left. *)
Ltac name_final_state H :=
  unfold readDockerOutput, readDockerOutput_run in H;
  match type of H with
  | (?run).2 = _ =>
    let st' := fresh "st'" in
    let o := fresh "o" in
    destruct run as [st' o] eqn:E; simpl in H; subst o
  end.

Section DecoderProperties.

Variable buildkitPrinter : Type.
Variable newBuildkitPrinter : buildkitPrinter.
Variable parseAndPrint :
  buildkitPrinter -> list vertex * list vertexLog -> buildkitPrinter * option error.
Variable json_Unmarshal_bytes : RawMessage -> Result string.
Variable StatusResponse_Unmarshal : string -> Result StatusResponse.

Variable json_Unmarshal_map : RawMessage -> Result (gmap string string).
Variable ImageInspectWithRaw : string -> Result ImageInspect.

Local Abbreviation digestOfAux := (getDigestFromAux json_Unmarshal_map).
Local Abbreviation digestOf :=
  (getDigestFromDockerOutput json_Unmarshal_map ImageInspectWithRaw).
Local Abbreviation State := (DecoderState buildkitPrinter).
Local Abbreviation status :=
  (toBuildkitStatus buildkitPrinter parseAndPrint json_Unmarshal_bytes
     StatusResponse_Unmarshal).
Local Abbreviation body :=
  (loopBody buildkitPrinter parseAndPrint json_Unmarshal_bytes StatusResponse_Unmarshal).
Local Abbreviation iter :=
  (iterations buildkitPrinter parseAndPrint json_Unmarshal_bytes StatusResponse_Unmarshal).
Local Abbreviation loop :=
  (readDockerOutput_loop buildkitPrinter parseAndPrint json_Unmarshal_bytes
     StatusResponse_Unmarshal).
Local Abbreviation run :=
  (readDockerOutput_run buildkitPrinter newBuildkitPrinter parseAndPrint
     json_Unmarshal_bytes StatusResponse_Unmarshal).
Local Abbreviation decode :=
  (readDockerOutput buildkitPrinter newBuildkitPrinter parseAndPrint
     json_Unmarshal_bytes StatusResponse_Unmarshal).
Local Abbreviation isBenign :=
  (benign buildkitPrinter parseAndPrint json_Unmarshal_bytes StatusResponse_Unmarshal).

Implicit Types (st : State) (m : JSONMessage) (now : Clock).
Implicit Types (reader pre post : list (Clock * Result JSONMessage)).

(** *** The loop and its iterations *)

Lemma loop_cons ctxErr st now d reader :
  loop ctxErr st ((now, d) :: reader)
  = match body st now d with
    | (st', Exit o) => (st', o)
    | (st', Continue) => loop ctxErr st' reader
    end.
Proof. reflexivity. Qed.

Lemma loop_app_continue ctxErr pre post st st' :
  iter st pre = (st', Continue) ->
  loop ctxErr st (pre ++ post) = loop ctxErr st' post.
Proof.
  revert st. induction pre as [|[now d] pre IH]; intros st H; simpl in *.
  - by injection H as ->.
  - destruct (body st now d) as [st1 [|o]]; [by apply IH | done].
Qed.

Lemma loop_app_exit ctxErr pre post st st' o :
  iter st pre = (st', Exit o) ->
  loop ctxErr st (pre ++ post) = (st', o).
Proof.
  revert st. induction pre as [|[now d] pre IH]; intros st H; simpl in *.
  - done.
  - destruct (body st now d) as [st1 [|o1]]; [by apply IH | congruence].
Qed.

Lemma iterations_cases st reader :
  (exists st', iter st reader = (st', Continue)) \/
  (exists st' o, iter st reader = (st', Exit o)).
Proof. destruct (iter st reader) as [st' [|o]]; eauto. Qed.

(** *** One iteration *)

Lemma body_decode_error st now err :
  body st now (Err err)
  = (st, Exit (Returns (dockerOutput_zero, Some (Wrap err "decoding docker output")))).
Proof. reflexivity. Qed.

Lemma body_error_record st now m :
  isErrorRecord m ->
  body st now (Ok m)
  = (handleStream st m,
     Exit (Returns (dockerOutput_zero, Some (cleanupDockerBuildError (daemonMessage m))))).
Proof.
  intros Herr. unfold loopBody, daemonMessage.
  destruct (String.eqb_spec (ErrorMessage m) "") as [Heq|Hne]; simpl; [| done].
  destruct Herr as [H|H]; [done |].
  destruct (Error m); done.
Qed.

(** An iteration that leaves the function by [return] returns the zero
    output together with an error. *)
Lemma body_exit_zero st now d st' out e :
  body st now d = (st', Exit (Returns (out, e))) ->
  out = dockerOutput_zero /\ e <> None.
Proof.
  unfold loopBody. destruct d as [m|err]; [| by intros [= <- <- <-]].
  destruct (negb (String.eqb (ErrorMessage m) "")); [by intros [= <- <- <-] |].
  destruct (Error m); [by intros [= <- <- <-] |].
  destruct (messageIsFromBuildkit m); [| done].
  destruct (status _ _) as [b' [[err|]|msg]]; [by intros [= <- <- <-] | done | done].
Qed.

Lemma iterations_exit_zero st reader st' out e :
  iter st reader = (st', Exit (Returns (out, e))) ->
  out = dockerOutput_zero /\ e <> None.
Proof.
  revert st. induction reader as [|[now d] reader IH]; intros st; simpl; [done |].
  destruct (body st now d) as [st1 [|o]] eqn:E; [apply IH |].
  intros [= -> ->]. by eapply body_exit_zero.
Qed.

Lemma benign_continue st item :
  isBenign item -> exists st', body st item.1 item.2 = (st', Continue).
Proof.
  intros (m & -> & Hem & Her & Hbk). unfold loopBody. rewrite Hem, Her. simpl.
  destruct (messageIsFromBuildkit m); [| by eexists].
  destruct (Hbk eq_refl) as (a & -> & Hst).
  specialize (Hst (b (handleProgress (handleStream st m) item.1 m))).
  destruct (status _ _) as [b' o]. simpl in Hst. subst o. by eexists.
Qed.

Lemma benign_iterations st pre :
  Forall isBenign pre -> exists st', iter st pre = (st', Continue).
Proof.
  intros H. revert st. induction H as [|[now d] pre Hb _ IH]; intros st; simpl.
  - by eexists.
  - destruct (benign_continue st _ Hb) as [st1 E]. simpl in E. rewrite E. apply IH.
Qed.

(** *** The whole stream *)

Lemma run_exit_at ctxErr pre now d post st1 st' o :
  iter (initialState newBuildkitPrinter) pre = (st1, Continue) ->
  body st1 now d = (st', Exit o) ->
  run ctxErr (pre ++ (now, d) :: post) = (st', o).
Proof.
  intros Hpre Hbody. unfold readDockerOutput_run.
  by rewrite (loop_app_continue _ _ _ _ _ Hpre), loop_cons, Hbody.
Qed.

Lemma decode_exit_at ctxErr pre now d post o :
  Forall isBenign pre ->
  (forall st, exists st', body st now d = (st', Exit o)) ->
  decode ctxErr (pre ++ (now, d) :: post) = o.
Proof.
  intros Hpre Hbody.
  destruct (benign_iterations (initialState newBuildkitPrinter) pre Hpre) as [st1 H1].
  destruct (Hbody st1) as [st' H']. unfold readDockerOutput.
  by rewrite (run_exit_at _ _ _ _ _ _ _ _ H1 H').
Qed.

Lemma loop_error_zero ctxErr st reader st' out err :
  loop ctxErr st reader = (st', Returns (out, Some err)) -> out = dockerOutput_zero.
Proof.
  revert st. induction reader as [|[now d] reader IH]; intros st; simpl.
  - destruct ctxErr; by intros [= <- <-].
  - destruct (body st now d) as [st1 [|o]] eqn:E; [apply IH |].
    intros [= -> ->]. by destruct (body_exit_zero _ _ _ _ _ _ E).
Qed.

Lemma loop_with_error_record ctxErr st pre now m post st' out e :
  isErrorRecord m ->
  loop ctxErr st (pre ++ (now, Ok m) :: post) = (st', Returns (out, e)) ->
  out = dockerOutput_zero /\ e <> None.
Proof.
  intros Herr. destruct (iterations_cases st pre) as [[st1 H1]|(st1 & o & H1)].
  - rewrite (loop_app_continue _ _ _ _ _ H1), loop_cons.
    rewrite (body_error_record _ _ _ Herr). by intros [= <- <- <-].
  - rewrite (loop_app_exit _ _ _ _ _ _ H1). intros [= -> ->].
    by eapply iterations_exit_zero.
Qed.

Lemma decode_error_record ctxErr pre now m post :
  isErrorRecord m -> Forall isBenign pre ->
  decode ctxErr (pre ++ (now, Ok m) :: post)
  = Returns (dockerOutput_zero, Some (cleanupDockerBuildError (daemonMessage m))).
Proof.
  intros Herr Hpre. apply decode_exit_at; [done |].
  intros st. rewrite (body_error_record _ _ _ Herr). by eexists.
Qed.

(** A graph-trace record whose payload cannot be decoded. *)
Lemma body_malformed_trace st now m a e :
  ErrorMessage m = "" -> Error m = None ->
  messageIsFromBuildkit m = true -> Aux m = Some a ->
  (json_Unmarshal_bytes a = Err e \/
   exists dt, json_Unmarshal_bytes a = Ok dt /\ StatusResponse_Unmarshal dt = Err e) ->
  exists st', body st now (Ok m) = (st', Exit (Returns (dockerOutput_zero, Some e))).
Proof.
  intros Hem Her Hbk Ha Hbad. unfold loopBody, toBuildkitStatus.
  rewrite Hem, Her, Hbk, Ha. simpl.
  destruct Hbad as [->|(dt & -> & ->)]; by eexists.
Qed.

(** C10. Whenever [readDockerOutput] returns an error, the output it returns
    with it is the zero [dockerOutput]: this holds after a JSON decode
    error, at an error record, at a graph-trace payload that cannot be
    decoded, and when the context is cancelled, whatever the records before
    have put in [result]. *)
Theorem readDockerOutput_error_atomic ctxErr reader :
  (forall out err,
     decode ctxErr reader = Returns (out, Some err) -> out = dockerOutput_zero) /\
  (forall pre now e post,
     reader = pre ++ (now, Err e) :: post -> Forall isBenign pre ->
     decode ctxErr reader
     = Returns (dockerOutput_zero, Some (Wrap e "decoding docker output"))) /\
  (forall pre now m post,
     reader = pre ++ (now, Ok m) :: post -> Forall isBenign pre ->
     isErrorRecord m ->
     decode ctxErr reader
     = Returns (dockerOutput_zero, Some (cleanupDockerBuildError (daemonMessage m)))) /\
  (forall pre now m a e post,
     reader = pre ++ (now, Ok m) :: post -> Forall isBenign pre ->
     ErrorMessage m = "" -> Error m = None ->
     messageIsFromBuildkit m = true -> Aux m = Some a ->
     (json_Unmarshal_bytes a = Err e \/
      exists dt, json_Unmarshal_bytes a = Ok dt /\ StatusResponse_Unmarshal dt = Err e) ->
     decode ctxErr reader = Returns (dockerOutput_zero, Some e)) /\
  (forall e,
     ctxErr = Some e -> Forall isBenign reader ->
     decode ctxErr reader = Returns (dockerOutput_zero, Some e)).
Proof.
  repeat split.
  - intros out err H. name_final_state H.
    by eapply loop_error_zero.
  - intros pre now e post -> Hpre. apply decode_exit_at; [done |].
    intros st. rewrite body_decode_error. by eexists.
  - intros pre now m post -> Hpre Herr. by apply decode_error_record.
  - intros pre now m a e post -> Hpre Hem Her Hbk Ha Hbad.
    apply decode_exit_at; [done |]. intros st. by eapply body_malformed_trace.
  - intros e -> Hall.
    destruct (benign_iterations (initialState newBuildkitPrinter) reader Hall)
      as [st1 H1].
    unfold readDockerOutput, readDockerOutput_run.
    rewrite <- (app_nil_r reader), (loop_app_continue _ _ _ _ _ H1). reflexivity.
Qed.

(** C7. A stream with an error record never decodes successfully: whatever
    [readDockerOutput] returns, it is the zero output with an error. When
    the records before the first error record are passed without leaving,
    decoding stops at that record (what follows it has no effect) and the
    error is the daemon's message after [cleanupDockerBuildError]. What the
    cleaning gives: of [executor failed running x: runc did not terminate
    sucessfully] it keeps [executor failed running x], and of
    [failed to compute cache key: x not found: not found] it keeps
    [x not found], for every [x] on one line, the greedy group reaching to
    the end of [x] also when [x] holds the closing phrase itself; a message
    without the two phrases is returned as it is; in each case the wrapper
    phrase in front of the message is dropped. *)
Theorem readDockerOutput_error_record ctxErr pre now m post :
  isErrorRecord m ->
  let cleaned := cleanupDockerBuildError (daemonMessage m) in
  (forall out e,
     decode ctxErr (pre ++ (now, Ok m) :: post) = Returns (out, e) ->
     out = dockerOutput_zero /\ e <> None) /\
  (Forall isBenign pre ->
     decode ctxErr (pre ++ (now, Ok m) :: post)
     = Returns (dockerOutput_zero, Some cleaned) /\
     run ctxErr (pre ++ (now, Ok m) :: post) = run ctxErr (pre ++ [(now, Ok m)])) /\
  (forall x,
     let msg := "executor failed running" +:+ x
                  +:+ ": runc did not terminate sucessfully" in
     noLF x ->
     contains ("executor failed running" +:+ x) "failed to compute cache key: " = false ->
     daemonMessage m = msg \/ daemonMessage m = solveWrapper +:+ msg ->
     cleaned = "executor failed running" +:+ x) /\
  (forall x,
     let msg := "failed to compute cache key: " +:+ x +:+ " not found: not found" in
     noLF x ->
     contains msg "executor failed running" = false ->
     daemonMessage m = msg \/ daemonMessage m = solveWrapper +:+ msg ->
     cleaned = x +:+ " not found") /\
  (forall rest,
     contains rest "executor failed running" = false ->
     contains rest "failed to compute cache key: " = false ->
     (daemonMessage m = rest /\ String.prefix solveWrapper rest = false) \/
     daemonMessage m = solveWrapper +:+ rest ->
     cleaned = rest).
Proof.
  intros Herr cleaned. split; [| split; [| split; [| split]]].
  - intros out e H. name_final_state H.
    by destruct (loop_with_error_record _ _ _ _ _ _ _ _ _ Herr E).
  - intros Hpre. split.
    + by apply decode_error_record.
    + destruct (benign_iterations (initialState newBuildkitPrinter) pre Hpre)
        as [st1 H1].
      pose proof (body_error_record st1 now m Herr) as H2.
      by rewrite !(run_exit_at _ _ _ _ _ _ _ _ H1 H2).
  - intros x msg Hx Hc. unfold cleaned.
    destruct (cleanup_of_executor_failed x Hx Hc) as [Hw Hp].
    intros [H | H]; rewrite H; [exact Hp | exact Hw].
  - intros x msg Hx Hc. unfold cleaned.
    destruct (cleanup_of_cache_key x Hx Hc) as [Hw Hp].
    intros [H | H]; rewrite H; [exact Hp | exact Hw].
  - intros rest H1 H2. unfold cleaned. intros [[H Hw] | H]; rewrite H.
    + exact (cleanup_of_other rest Hw H1 H2).
    + exact (cleanup_of_wrapped_other rest H1 H2).
Qed.

(** *** The output of a successful decoding *)

Lemma handleStream_result st m :
  result (handleStream st m)
  = mkDockerOutput (aux (result st))
      (match regexp.oldDigestRegexp_FindStringSubmatch (Stream m) with
       | _ :: hex :: _ => hex
       | _ => shortDigest (result st)
       end).
Proof.
  unfold handleStream. destruct (Stream m) as [|c s] eqn:E; simpl.
  - by destruct (result st).
  - destruct (regexp.oldDigestRegexp_FindStringSubmatch (String c s)) as [|x [|hex l]];
      simpl; try by destruct (result st).
Qed.

Lemma handleStream_match st m hex :
  matchesOldDigest (Stream m) hex ->
  result (handleStream st m) = mkDockerOutput (aux (result st)) hex.
Proof.
  intros H. by rewrite handleStream_result, (FindStringSubmatch_match _ _ H).
Qed.

Lemma handleStream_no_match st m :
  (forall hex, ~ matchesOldDigest (Stream m) hex) ->
  result (handleStream st m) = result st.
Proof.
  intros H. apply FindStringSubmatch_nil in H.
  rewrite handleStream_result, H. by destruct (result st).
Qed.

Lemma handleProgress_result st now m :
  result (handleProgress st now m) = result st.
Proof.
  unfold handleProgress. destruct (Progress m); [| done].
  destruct (negb _); [| done]. by destruct (_ && _).
Qed.

Lemma body_continue_result st now m st' :
  body st now (Ok m) = (st', Continue) ->
  result st' = recordOutput (result st) m.
Proof.
  unfold loopBody.
  destruct (negb (String.eqb (ErrorMessage m) "")); [done |].
  destruct (Error m); [done |].
  assert (forall b' : buildkitPrinter, result
            (handleAux
               (mkDecoderState
                  (progressLastPrinted (handleProgress (handleStream st m) now m))
                  (progressPrintWait (handleProgress (handleStream st m) now m))
                  (result (handleProgress (handleStream st m) now m))
                  b'
                  (logged (handleProgress (handleStream st m) now m))) m)
          = recordOutput (result st) m) as Haux.
  { intros b'. unfold handleAux, recordOutput. simpl.
    rewrite handleProgress_result, handleStream_result.
    destruct (Aux m); [destruct (messageIsFromBuildkit m) |]; done. }
  destruct (messageIsFromBuildkit m) eqn:Hbk.
  - destruct (status _ _) as [b' [[err|]|msg]]; try done.
    intros [= <-]. apply Haux.
  - intros [= <-]. rewrite <- (Haux (b (handleProgress (handleStream st m) now m))).
    by destruct (handleProgress (handleStream st m) now m).
Qed.

Lemma iterations_result st reader st' :
  iter st reader = (st', Continue) ->
  result st' = fold_left recordOutput (decodedMessages reader) (result st).
Proof.
  revert st. induction reader as [|[now d] reader IH]; intros st; simpl.
  - by intros [= <-].
  - destruct (body st now d) as [st1 [|o]] eqn:E; [| done].
    destruct d as [m|err]; [| done].
    intros H. rewrite (IH _ H). unfold decodedMessages. simpl.
    by rewrite (body_continue_result _ _ _ _ E).
Qed.

Lemma decode_success ctxErr reader out :
  decode ctxErr reader = Returns (out, None) ->
  ctxErr = None /\
  out = fold_left recordOutput (decodedMessages reader) dockerOutput_zero.
Proof.
  unfold readDockerOutput, readDockerOutput_run.
  destruct (iterations_cases (initialState newBuildkitPrinter) reader)
    as [[st1 H1]|(st1 & o & H1)].
  - rewrite <- (app_nil_r reader), (loop_app_continue _ _ _ _ _ H1).
    rewrite app_nil_r. simpl. destruct ctxErr; simpl; [done |].
    intros [= <-]. split; [done |]. by rewrite (iterations_result _ _ _ H1).
  - rewrite <- (app_nil_r reader), (loop_app_exit _ _ _ _ _ _ H1). simpl.
    intros ->. by destruct (iterations_exit_zero _ _ _ _ _ H1).
Qed.


(** *** Progress lines *)

Lemma shouldSkip_iff m p : shouldSkip m p = true <-> suppressed m p.
Proof.
  unfold shouldSkip, suppressed.
  rewrite andb_true_iff, orb_true_iff, Z.eqb_eq, !String.eqb_eq. done.
Qed.

Lemma shouldPrint_iff st (t : time.Time) id p :
  shouldPrint st t id p = true <-> printCondition st t id p.
Proof.
  unfold shouldPrint, printCondition.
  destruct (progressLastPrinted st !! id) as [lastPrinted|]; [| by split; auto].
  rewrite orb_true_iff, Z.eqb_eq, Z.ltb_lt. split.
  - intros [H|H]; [by right; left | right; right; by exists lastPrinted].
  - intros [H|[H|(l & [= <-] & H)]]; [done | by left | by right].
Qed.

Lemma handleProgress_print st now m p :
  ID m <> "" -> Progress m = Some p ->
  ~ suppressed m p -> printCondition st (atSince now) (ID m) p ->
  handleProgress st now m = printed st (atNow now) m p.
Proof.
  intros Hid Hp Hskip Hprint. unfold handleProgress. rewrite Hp.
  apply String.eqb_neq in Hid. rewrite Hid. simpl.
  apply shouldPrint_iff in Hprint. rewrite Hprint.
  destruct (shouldSkip m p) eqn:E; [by apply shouldSkip_iff in E |]. reflexivity.
Qed.

Lemma handleProgress_silent st now m p :
  Progress m = Some p ->
  suppressed m p \/ ~ printCondition st (atSince now) (ID m) p ->
  handleProgress st now m = st.
Proof.
  intros Hp H. unfold handleProgress. rewrite Hp.
  destruct (negb (String.eqb (ID m) "")); [| done].
  destruct (shouldPrint st (atSince now) (ID m) p) eqn:E1; [| done].
  destruct (shouldSkip m p) eqn:E2; [done |]. simpl.
  destruct H as [H|H].
  - apply shouldSkip_iff in H. congruence.
  - by apply shouldPrint_iff in E1.
Qed.

Lemma handleProgress_cases st now m :
  handleProgress st now m = st \/
  exists p, Progress m = Some p /\
    handleProgress st now m = printed st (atNow now) m p.
Proof.
  unfold handleProgress. destruct (Progress m) as [p|]; [| by left].
  destruct (negb (String.eqb (ID m) "")); [| by left].
  destruct (_ && _); [| by left]. right. by exists p.
Qed.

Lemma handleProgress_emits st now m p :
  ID m <> "" -> Progress m = Some p ->
  logged (handleProgress st now m) = logged st ++ [LogProgress (ID m) (Status m) p]
  <-> ~ suppressed m p /\ printCondition st (atSince now) (ID m) p.
Proof.
  intros Hid Hp. split.
  - intros H.
    destruct (shouldSkip m p) eqn:E2.
    { rewrite (handleProgress_silent _ _ _ _ Hp) in H
        by (left; by apply shouldSkip_iff).
      apply (f_equal length) in H. rewrite length_app in H. simpl in H. lia. }
    destruct (shouldPrint st (atSince now) (ID m) p) eqn:E1.
    + split; [| by apply shouldPrint_iff].
      intros Hs. apply shouldSkip_iff in Hs. congruence.
    + rewrite (handleProgress_silent _ _ _ _ Hp) in H.
      * apply (f_equal length) in H. rewrite length_app in H. simpl in H. lia.
      * right. intros Hc. apply shouldPrint_iff in Hc. congruence.
  - intros [Hs Hc]. by rewrite (handleProgress_print _ _ _ _ Hid Hp Hs Hc).
Qed.

Lemma handleStream_maps st m :
  progressLastPrinted (handleStream st m) = progressLastPrinted st /\
  progressPrintWait (handleStream st m) = progressPrintWait st.
Proof. unfold handleStream. by destruct (_ <? _)%nat. Qed.

Lemma handleAux_progress st m :
  logged (handleAux st m) = logged st /\
  progressLastPrinted (handleAux st m) = progressLastPrinted st /\
  progressPrintWait (handleAux st m) = progressPrintWait st.
Proof. unfold handleAux. destruct (Aux m); [destruct (negb _) |]; done. Qed.

(** What an iteration does to the log and to the throttling maps, for a
    record that is not an error record. *)
Lemma body_progress st now m :
  ErrorMessage m = "" -> Error m = None ->
  logged (body st now (Ok m)).1 = logged (handleProgress (handleStream st m) now m) /\
  progressLastPrinted (body st now (Ok m)).1
    = progressLastPrinted (handleProgress (handleStream st m) now m) /\
  progressPrintWait (body st now (Ok m)).1
    = progressPrintWait (handleProgress (handleStream st m) now m).
Proof.
  intros Hem Her. unfold loopBody. rewrite Hem, Her. simpl.
  destruct (messageIsFromBuildkit m).
  - destruct (status _ _) as [b' [[err|]|msg]]; simpl; try done.
    apply (handleAux_progress (mkDecoderState _ _ _ _ _)).
  - simpl. apply handleAux_progress.
Qed.

Lemma body_progressRecord st now id s p :
  id <> "moby.buildkit.trace" ->
  body st now (Ok (progressRecord id s p))
  = (handleProgress st now (progressRecord id s p), Continue).
Proof.
  intros Hid. unfold loopBody, messageIsFromBuildkit. simpl.
  rewrite bool_decide_eq_false_2 by done. reflexivity.
Qed.

(** *** The wait window *)

Lemma wrap64_small z :
  (- 2 ^ 63 <= z < 2 ^ 63)%Z -> time.wrap64 z = z.
Proof. intros H. unfold time.wrap64. rewrite Z.mod_small; lia. Qed.

Lemma nextWait_first : nextWait 0%Z = (5 * time.Second)%Z.
Proof. reflexivity. Qed.

Lemma nextWait_double w :
  w <> 0%Z -> (- 2 ^ 62 <= w < 2 ^ 62)%Z -> nextWait w = (2 * w)%Z.
Proof.
  intros Hw Hr. unfold nextWait. destruct (Z.eqb_spec w 0); [done |].
  apply wrap64_small. lia.
Qed.

Lemma body_maps_cases st now d :
  (progressLastPrinted (body st now d).1 = progressLastPrinted st /\
   progressPrintWait (body st now d).1 = progressPrintWait st) \/
  (exists id w,
     progressLastPrinted (body st now d).1
       = <[id := atNow now]> (progressLastPrinted st) /\
     progressPrintWait (body st now d).1 = <[id := w]> (progressPrintWait st)).
Proof.
  assert (forall m,
    let st1 := handleProgress (handleStream st m) now m in
    (progressLastPrinted st1 = progressLastPrinted st /\
     progressPrintWait st1 = progressPrintWait st) \/
    (exists id w,
       progressLastPrinted st1 = <[id := atNow now]> (progressLastPrinted st) /\
       progressPrintWait st1 = <[id := w]> (progressPrintWait st))) as Hcases.
  { intros m st1. subst st1. destruct (handleStream_maps st m) as [Hl Hw].
    destruct (handleProgress_cases (handleStream st m) now m) as [->|(p & _ & ->)].
    - by left.
    - right. unfold printed. simpl. rewrite Hl, Hw. by eexists _, _. }
  destruct d as [m|err]; [| by left].
  destruct (String.eqb_spec (ErrorMessage m) "") as [Hem|Hem].
  - destruct (Error m) as [e|] eqn:Her.
    + unfold loopBody. rewrite Hem, Her. simpl. left. apply handleStream_maps.
    + destruct (body_progress st now m Hem Her) as (_ & -> & ->). apply Hcases.
  - unfold loopBody. apply String.eqb_neq in Hem. rewrite Hem. simpl.
    left. apply handleStream_maps.
Qed.

Lemma body_wait_inv st now d :
  (forall id, progressLastPrinted st !! id = None -> progressPrintWait st !! id = None) ->
  forall id, progressLastPrinted (body st now d).1 !! id = None ->
             progressPrintWait (body st now d).1 !! id = None.
Proof.
  intros Hinv id.
  destruct (body_maps_cases st now d) as [[-> ->]|(id' & w & -> & ->)]; [apply Hinv |].
  destruct (decide (id' = id)) as [->|Hne].
  - by rewrite lookup_insert_eq.
  - rewrite !lookup_insert_ne by done. apply Hinv.
Qed.

Lemma iterations_wait_inv st reader st' :
  (forall id, progressLastPrinted st !! id = None -> progressPrintWait st !! id = None) ->
  iter st reader = (st', Continue) ->
  forall id, progressLastPrinted st' !! id = None -> progressPrintWait st' !! id = None.
Proof.
  revert st. induction reader as [|[now d] reader IH]; intros st Hinv; simpl.
  - by intros [= <-].
  - pose proof (body_wait_inv st now d Hinv) as H1.
    destruct (body st now d) as [st1 [|o]]; [| done]. by apply IH.
Qed.

Lemma reachable_wait_inv st id :
  reachable _ newBuildkitPrinter parseAndPrint json_Unmarshal_bytes
    StatusResponse_Unmarshal st ->
  progressLastPrinted st !! id = None -> progressPrintWait st !! id = None.
Proof.
  intros [reader H]. revert id. eapply iterations_wait_inv; [| exact H]. done.
Qed.

(** *** Three records of one identifier *)

Lemma Sub_exact t u :
  (time.minInt64 <= t - u <= time.maxInt64)%Z -> time.Sub t u = (t - u)%Z.
Proof. unfold time.Sub. lia. Qed.

Lemma throttling_scenario ctxErr id s0 s1 s2 p0 p1 p2 (c0 c1 c2 : Clock) :
  id <> "" -> id <> "moby.buildkit.trace" ->
  ~ suppressed (progressRecord id s0 p0) p0 ->
  ~ suppressed (progressRecord id s2 p2) p2 ->
  Current p1 <> Total p1 ->
  (atSince c1 - atNow c0 < 5 * time.Second)%Z ->
  (atSince c2 - atNow c0 > 5 * time.Second)%Z ->
  logged (run ctxErr [(c0, Ok (progressRecord id s0 p0));
                      (c1, Ok (progressRecord id s1 p1));
                      (c2, Ok (progressRecord id s2 p2))]).1
  = [LogProgress id s0 p0; LogProgress id s2 p2].
Proof.
  intros Hid Hbk Hs0 Hs2 Hp1 H01 H02.
  assert (time.minInt64 = (- 9223372036854775808)%Z) as Hmin by reflexivity.
  assert (time.maxInt64 = 9223372036854775807%Z) as Hmax by reflexivity.
  assert (time.Second = 1000000000%Z) as Hsec by reflexivity.
  unfold readDockerOutput_run.
  set (st0 := initialState newBuildkitPrinter).
  set (r0 := progressRecord id s0 p0).
  set (r1 := progressRecord id s1 p1).
  set (r2 := progressRecord id s2 p2).
  (* the first record is the first of its identifier *)
  rewrite loop_cons. unfold r0 at 1. rewrite body_progressRecord by done. fold r0.
  rewrite (handleProgress_print st0 c0 r0 p0) by (try done; by left).
  set (st1 := printed st0 (atNow c0) r0 p0).
  assert (progressLastPrinted st1 !! id = Some (atNow c0)) as Hl1
    by (unfold st1, printed; simpl; apply lookup_insert_eq).
  assert (progressPrintWait st1 !! id = Some (5 * time.Second)%Z) as Hw1
    by (unfold st1, printed; simpl; apply lookup_insert_eq).
  (* the second record comes within the window *)
  rewrite loop_cons. unfold r1 at 1. rewrite body_progressRecord by done. fold r1.
  assert (~ printCondition st1 (atSince c1) (ID r1) p1) as Hsilent.
  { change (ID r1) with id. intros [H|[H|(l & H & Hlt)]]; [congruence | done |].
    rewrite Hl1 in H. injection H as <-. rewrite Hw1 in Hlt. simpl in Hlt.
    unfold time.Sub in Hlt. lia. }
  rewrite (handleProgress_silent st1 c1 r1 p1) by (done || by right).
  (* the third record comes after the window *)
  rewrite loop_cons. unfold r2 at 1. rewrite body_progressRecord by done. fold r2.
  rewrite (handleProgress_print st1 c2 r2 p2); try done.
  - simpl. by destruct ctxErr.
  - right; right. exists (atNow c0). change (ID r2) with id. split; [done |].
    rewrite Hw1. simpl. unfold time.Sub. lia.
Qed.


End DecoderProperties.

(** ** The decoder on concrete streams *)

Section DecoderExamples.

Local Open Scope Z_scope.



(** An error record after a stream line: the stream line after it is not
    read and the error is the cleaned message of a failed command. The
    message of a missing file, with the wrapper phrase, is cleaned to the
    file that was not found. *)
Lemma readDockerOutput_error_record_witness :
  ToyDecoder.readDockerOutput None
    [(ToyDecoder.seconds 0, ToyDecoder.streamLine "Step 1/2 : FROM node");
     (ToyDecoder.seconds 1, ToyDecoder.errorLine "failed to solve with frontend dockerfile.v0: failed to build LLB: executor failed running [/bin/sh -c exit 1]: runc did not terminate sucessfully");
     (ToyDecoder.seconds 2, ToyDecoder.streamLine "Successfully built abcdef0123456789")]
  = Returns (dockerOutput_zero, Some "executor failed running [/bin/sh -c exit 1]") /\
  cleanupDockerBuildError
    (daemonMessage
       (mkJSONMessage "" "" None "" None "failed to solve with frontend dockerfile.v0: failed to build LLB: failed to compute cache key: foo.txt not found: not found" None))
  = "foo.txt" +:+ " not found".
Proof.
  split.
  - refine (proj1 (proj1 (proj2
              (readDockerOutput_error_record ToyDecoder.buildkitPrinter tt
                 ToyDecoder.parseAndPrint ToyDecoder.json_Unmarshal_bytes
                 ToyDecoder.StatusResponse_Unmarshal None
                 [(ToyDecoder.seconds 0, ToyDecoder.streamLine "Step 1/2 : FROM node")] (ToyDecoder.seconds 1)
                 (mkJSONMessage "" "" None "" None "failed to solve with frontend dockerfile.v0: failed to build LLB: executor failed running [/bin/sh -c exit 1]: runc did not terminate sucessfully" None)
                 [(ToyDecoder.seconds 2, ToyDecoder.streamLine "Successfully built abcdef0123456789")]
                 _)) _)).
    + left. discriminate.
    + repeat constructor. eexists. split; [reflexivity |].
      repeat split. intros H. vm_compute in H. discriminate H.
  - refine (proj1 (proj2 (proj2 (proj2
              (readDockerOutput_error_record ToyDecoder.buildkitPrinter tt
                 ToyDecoder.parseAndPrint ToyDecoder.json_Unmarshal_bytes
                 ToyDecoder.StatusResponse_Unmarshal None [] (ToyDecoder.seconds 0)
                 (mkJSONMessage "" "" None "" None "failed to solve with frontend dockerfile.v0: failed to build LLB: failed to compute cache key: foo.txt not found: not found" None)
                 [] _)))) "foo.txt" _ _ _).
    + left. discriminate.
    + vm_compute. reflexivity.
    + vm_compute. reflexivity.
    + right. vm_compute. reflexivity.
Defined.

Example cleanupDockerBuildError_examples :
  cleanupDockerBuildError "failed to compute cache key: foo.txt not found: not found"
    = "foo.txt not found" /\
  cleanupDockerBuildError "no such image" = "no such image".
Proof. split; reflexivity. Qed.


Example legacy_line_end_to_end :
  ToyDecoder.readDockerOutput None
    [(ToyDecoder.seconds 0, ToyDecoder.streamLine "Step 1/2 : FROM node");
     (ToyDecoder.seconds 1, ToyDecoder.streamLine ("Successfully built abcdef0123456789" +:+ String regexp.newline ""))]
  = Returns (mkDockerOutput None "abcdef0123456789", None) /\
  ToyDecoder.getDigestFromBuildOutput None
    [(ToyDecoder.seconds 0, ToyDecoder.streamLine "Step 1/2 : FROM node");
     (ToyDecoder.seconds 1, ToyDecoder.streamLine ("Successfully built abcdef0123456789" +:+ String regexp.newline ""))]
  = Returns ([ImageInspectWithRaw_call "abcdef0123456789"],
             Ok "sha256:abcdef0123456789aaaabbbbccccdddd") /\
  ToyDecoder.getDigestFromBuildOutput None
    [(ToyDecoder.seconds 0, ToyDecoder.streamLine "Step 1/2 : FROM node")]
  = Returns ([], Err "getDigestFromBuildOutput: Docker is not responding. Maybe Docker is out of disk space? Try running `docker system prune`").
Proof. repeat split. Qed.

(** The short digest seen before the error record is in the state of the
    decoder and not in what it returns. *)
Lemma readDockerOutput_error_atomic_witness :
  ToyDecoder.readDockerOutput None
    [(ToyDecoder.seconds 0, ToyDecoder.streamLine "Successfully built abcdef0123456789");
     (ToyDecoder.seconds 1, ToyDecoder.errorLine "no space left on device")]
  = Returns (dockerOutput_zero, Some "no space left on device") /\
  shortDigest (result (ToyDecoder.readDockerOutput_run None
    [(ToyDecoder.seconds 0, ToyDecoder.streamLine "Successfully built abcdef0123456789");
     (ToyDecoder.seconds 1, ToyDecoder.errorLine "no space left on device")]).1) = "abcdef0123456789".
Proof.
  split; [| reflexivity].
  refine (proj1 (proj2 (proj2
            (readDockerOutput_error_atomic ToyDecoder.buildkitPrinter tt
               ToyDecoder.parseAndPrint ToyDecoder.json_Unmarshal_bytes
               ToyDecoder.StatusResponse_Unmarshal None _)))
            [(ToyDecoder.seconds 0, ToyDecoder.streamLine "Successfully built abcdef0123456789")]
            (ToyDecoder.seconds 1)
            (mkJSONMessage "" "" None "" None "no space left on device" None)
            [] eq_refl _ _).
  - repeat constructor. eexists. split; [reflexivity |].
    repeat split. intros H. vm_compute in H. discriminate H.
  - left. discriminate.
Defined.

(** The other ways out of the decoder: an element that is not JSON, a
    graph-trace record whose payload cannot be decoded or is missing, a
    cancelled context. *)
Example readDockerOutput_failures :
  ToyDecoder.readDockerOutput None
    [(ToyDecoder.seconds 0, ToyDecoder.streamLine "Successfully built abcdef0123456789");
     (ToyDecoder.seconds 1, Err "unexpected EOF")]
  = Returns (dockerOutput_zero, Some "decoding docker output: unexpected EOF") /\
  ToyDecoder.readDockerOutput None
    [(ToyDecoder.seconds 0,
      Ok (mkJSONMessage "" "" None "moby.buildkit.trace" None "" (Some "!")))]
  = Returns (dockerOutput_zero,
             Some "invalid character '!' looking for beginning of value") /\
  ToyDecoder.readDockerOutput None
    [(ToyDecoder.seconds 0,
      Ok (mkJSONMessage "" "" None "moby.buildkit.trace" None "" None))]
  = Panics "invalid memory address or nil pointer dereference" /\
  ToyDecoder.readDockerOutput (Some "context canceled")
    [(ToyDecoder.seconds 0, Ok (mkJSONMessage "" "" None "" None "" (Some "sha256:0123")))]
  = Returns (dockerOutput_zero, Some "context canceled") /\
  ToyDecoder.readDockerOutput None
    [(ToyDecoder.seconds 0, Ok (mkJSONMessage "" "" None "" None "" (Some "sha256:0123")))]
  = Returns (mkDockerOutput (Some "sha256:0123") "", None).
Proof. repeat split. Qed.

(** The window is an [int64]: the 31st doubling of 5 seconds wraps around. *)
Example nextWait_wraps :
  Nat.iter 30 nextWait (5 * time.Second) = 5368709120000000000 /\
  Nat.iter 31 nextWait (5 * time.Second) = - 7709325833709551616.
Proof. split; reflexivity. Qed.

End DecoderExamples.

(** ** More on the manifest synthesizer *)

Section SynthesizerCensus.

Variable Cmd : Type.
Variable Cmd_Empty : Cmd -> bool.
Variable Cmd_String : Cmd -> string.
Variable PathSet : Type.
Variable PathSet_Empty : PathSet -> bool.
Variable PathMatcher : Type.
Variable CreateRunMatcher : Run Cmd PathSet -> Result PathMatcher.
Variable FilterMappings : list PathMapping -> PathMatcher -> Result (list PathMapping).
Variable Sync : Type.
Variable SyncsToPathMappings : list Sync -> list PathMapping.
Variable BuildMode : string.
Variable BuildModeScratch : string.

Local Abbreviation Dockerfile := (dockerfile.Dockerfile Cmd).
Local Abbreviation run1 :=
  (addConditionalRun Cmd Cmd_String PathSet PathMatcher CreateRunMatcher FilterMappings).
Local Abbreviation loop :=
  (addConditionalRuns_loop Cmd Cmd_String PathSet PathSet_Empty PathMatcher
     CreateRunMatcher FilterMappings).
Local Abbreviation condRuns :=
  (addConditionalRuns Cmd Cmd_String PathSet PathSet_Empty PathMatcher
     CreateRunMatcher FilterMappings).
Local Abbreviation synthesize :=
  (DeprecatedFastBuildImage Cmd Cmd_Empty Cmd_String PathSet PathSet_Empty PathMatcher
     CreateRunMatcher FilterMappings Sync SyncsToPathMappings BuildMode BuildModeScratch).
Local Abbreviation matched := (matchedMappings CreateRunMatcher FilterMappings).
Local Abbreviation isConditional := (conditional PathSet_Empty).
Local Abbreviation prefixOf := (conditionalPrefix PathSet_Empty).
Local Abbreviation restOf := (afterConditionalPrefix PathSet_Empty).

Lemma addConditionalRun_ok_inv df run paths df' :
  run1 df run paths = Ok df' -> exists ps, matched paths run ps /\ ps <> [].
Proof.
  unfold addConditionalRun.
  destruct (CreateRunMatcher run) as [m|e] eqn:Hm; simpl; [| done].
  destruct (FilterMappings paths m) as [ps|e] eqn:Hf; simpl; [| done].
  destruct ps as [|p ps]; [done |]. intros _. exists (p :: ps).
  split; [by exists m | done].
Qed.

Lemma addConditionalRun_err_indep df df' run paths e :
  run1 df run paths = Err e -> run1 df' run paths = Err e.
Proof.
  unfold addConditionalRun.
  destruct (CreateRunMatcher run) as [m|e0]; simpl; [| done].
  destruct (FilterMappings paths m) as [ps|e0]; simpl; [| done].
  by destruct ps.
Qed.

Lemma addConditionalRuns_loop_ok_inv paths runs df consumed df' consumed' :
  loop df consumed runs paths = Ok (df', consumed') ->
  exists ms, Forall2 (fun r ps => matched paths r ps /\ ps <> []) (prefixOf runs) ms.
Proof.
  revert df consumed. induction runs as [|r runs IH]; intros df consumed; simpl.
  - intros _. exists []. constructor.
  - unfold conditional. destruct (PathSet_Empty (Triggers r)); simpl.
    + intros _. exists []. constructor.
    + destruct (run1 df r paths) as [df1|e] eqn:E; simpl; [| done].
      intros H. destruct (IH _ _ H) as [ms Hms].
      destruct (addConditionalRun_ok_inv _ _ _ _ E) as (ps & Hps).
      exists (ps :: ms). by constructor.
Qed.

(** A manifest is returned only when every run of the conditional prefix
    has inputs. *)
Lemma fast_build_success_inv extraLabels base syncs runs entrypoint df paths :
  synthesize extraLabels base syncs runs entrypoint = Ok (df, paths) ->
  exists ms, Forall2 (fun r ps => matched (SyncsToPathMappings syncs) r ps /\ ps <> [])
               (prefixOf runs) ms.
Proof.
  intros H. unfold DeprecatedFastBuildImage, addConditionalRuns in H.
  cbv zeta in H.
  destruct (loop base 0 runs (SyncsToPathMappings syncs)) as [[df1 c1]|e] eqn:E;
    [| done].
  by eapply addConditionalRuns_loop_ok_inv.
Qed.

(** X7. [DeprecatedFastBuildImage] succeeds exactly when every run before
    the first one with an empty trigger set has a matcher, a filtered list
    of path mappings, and at least one mapping in it. *)
Theorem DeprecatedFastBuildImage_succeeds_iff extraLabels base syncs runs entrypoint :
  (exists df paths, synthesize extraLabels base syncs runs entrypoint = Ok (df, paths))
  <->
  (exists ms, Forall2 (fun r ps => matched (SyncsToPathMappings syncs) r ps /\ ps <> [])
                (prefixOf runs) ms).
Proof.
  split.
  - intros (df & paths & H). by eapply fast_build_success_inv.
  - intros [ms H]. eexists _, _. by apply DeprecatedFastBuildImage_ok.
Qed.

(** X8. An error of [CreateRunMatcher] or of [FilterMappings] on a run of
    the conditional prefix, the runs before it having inputs, is returned
    by [addConditionalRuns] as it is, and by [DeprecatedFastBuildImage]
    wrapped once with its name. *)
Theorem DeprecatedFastBuildImage_passes_error
  extraLabels base syncs pre run post entrypoint e :
  let paths := SyncsToPathMappings syncs in
  let runs := pre ++ run :: post in
  Forall (fun r => isConditional r = true) pre ->
  isConditional run = true ->
  Forall (fun r => exists ps, matched paths r ps /\ ps <> []) pre ->
  (CreateRunMatcher run = Err e \/
   exists m, CreateRunMatcher run = Ok m /\ FilterMappings paths m = Err e) ->
  condRuns base runs paths = Err e /\
  synthesize extraLabels base syncs runs entrypoint
  = Err (Wrap e "DeprecatedFastBuildImage").
Proof.
  intros paths runs Hpre Hrun Hok Herr.
  assert (forall df', run1 df' run paths = Err e) as He.
  { intros df'. unfold addConditionalRun.
    destruct Herr as [->|(m & -> & Hf)]; [done |]. simpl. by rewrite Hf. }
  pose proof (addConditionalRuns_loop_first_error _ Cmd_String _ PathSet_Empty _
                CreateRunMatcher FilterMappings paths pre run post base 0 e
                Hpre Hrun Hok He) as Hloop.
  unfold DeprecatedFastBuildImage, addConditionalRuns. cbv zeta.
  fold paths. fold runs in Hloop |- *. by rewrite Hloop.
Qed.

(** *** What a manifest holds *)

Lemma runCommands_app (d1 d2 : Dockerfile) :
  runCommands (d1 ++ d2) = runCommands d1 ++ runCommands d2.
Proof. apply omap_app. Qed.

Lemma runCommands_copyInstrs ps : runCommands (copyInstrs (Cmd := Cmd) ps) = [].
Proof. induction ps as [|p ps IH]; [done |]. exact IH. Qed.

Lemma runCommands_runInstrs (rs : list (Run Cmd PathSet)) :
  runCommands (runInstrs rs) = map RunCmd rs.
Proof. induction rs as [|r rs IH]; [done |]. simpl. by f_equal. Qed.

Lemma runCommands_labelInstrs ls : runCommands (labelInstrs (Cmd := Cmd) ls) = [].
Proof. induction ls as [|l ls IH]; [done |]. exact IH. Qed.

Lemma runCommands_conditionalInstrs (rs : list (Run Cmd PathSet)) ms :
  length rs = length ms ->
  runCommands (conditionalInstrs rs ms) = map RunCmd rs.
Proof.
  revert ms. induction rs as [|r rs IH]; intros [|m ms] Hlen; try done.
  unfold conditionalInstrs in *. simpl.
  rewrite !runCommands_app, runCommands_copyInstrs. simpl. f_equal.
  apply IH. simpl in Hlen. lia.
Qed.

Section Extract.

Context {A : Type} (f : dockerfile.Instr Cmd -> option A).

Lemma omap_copyInstrs ps :
  (forall t, f (dockerfile.Line t) = None) -> omap f (copyInstrs ps : list (dockerfile.Instr Cmd)) = [].
Proof.
  intros H. induction ps as [|p ps IH]; [done |].
  unfold copyInstrs in *. simpl. by rewrite H.
Qed.

Lemma omap_runInstrs (rs : list (Run Cmd PathSet)) :
  (forall c, f (dockerfile.RunInstr c) = None) -> omap f (runInstrs rs : list (dockerfile.Instr Cmd)) = [].
Proof.
  intros H. induction rs as [|r rs IH]; [done |].
  unfold runInstrs in *. simpl. by rewrite H.
Qed.

Lemma omap_labelInstrs ls :
  (forall k v, f (dockerfile.LabelInstr k v) = None) -> omap f (labelInstrs ls : list (dockerfile.Instr Cmd)) = [].
Proof.
  intros H. induction ls as [|l ls IH]; [done |].
  unfold labelInstrs in *. simpl. by rewrite H.
Qed.

Lemma omap_conditionalInstrs (rs : list (Run Cmd PathSet)) ms :
  (forall t, f (dockerfile.Line t) = None) ->
  (forall c, f (dockerfile.RunInstr c) = None) ->
  omap f (conditionalInstrs rs ms : list (dockerfile.Instr Cmd)) = [].
Proof.
  intros HL HR. revert ms. induction rs as [|r rs IH]; intros [|m ms]; try done.
  unfold conditionalInstrs in *. simpl.
  rewrite !omap_app, omap_copyInstrs by done. simpl. rewrite HR. apply IH.
Qed.

End Extract.

Lemma labelsOf_labelInstrs ls : labelsOf (labelInstrs (Cmd := Cmd) ls) = ls.
Proof.
  induction ls as [|[k v] ls IH]; [done |].
  unfold labelsOf, labelInstrs in *. simpl. f_equal. exact IH.
Qed.

(** X9. A manifest [DeprecatedFastBuildImage] returns is the base followed
    by instructions among which: the run-instructions are those of all the
    runs, each once and in the order of the runs, whatever their triggers;
    there is one catch-all copy; the entrypoint is set once when it is not
    empty and not at all otherwise; the labels are the build mode and then
    the extra labels. The path mappings returned are those of the syncs. *)
Theorem DeprecatedFastBuildImage_census extraLabels base syncs runs entrypoint df paths :
  synthesize extraLabels base syncs runs entrypoint = Ok (df, paths) ->
  exists added,
    df = base ++ added /\
    paths = SyncsToPathMappings syncs /\
    runCommands added = map RunCmd runs /\
    catchAllCopies added = 1%nat /\
    entrypoints added = (if Cmd_Empty entrypoint then [] else [entrypoint]) /\
    labelsOf added = (BuildMode, BuildModeScratch) :: extraLabels.
Proof.
  intros H.
  destruct (fast_build_success_inv extraLabels base syncs runs entrypoint df paths H)
    as [ms Hms].
  rewrite (DeprecatedFastBuildImage_ok _ _ _ _ _ _ _ _ _ _ _ _ _ _ _ _ _ _ Hms) in H.
  injection H as <- <-.
  pose proof (Forall2_length _ _ _ Hms) as Hlen.
  set (entry := if Cmd_Empty entrypoint then []
                else [dockerfile.EntrypointInstr entrypoint]).
  exists ((conditionalInstrs (prefixOf runs) ms : list (dockerfile.Instr Cmd))
          ++ [dockerfile.AddAllInstr] ++ runInstrs (restOf runs) ++ entry
          ++ [dockerfile.LabelInstr BuildMode BuildModeScratch]
          ++ labelInstrs extraLabels).
  split; [reflexivity |]. split; [done |].
  assert (forall d : list (dockerfile.Instr Cmd),
            d = entry -> runCommands d = []) as Hentry
    by (intros d ->; unfold entry; by destruct (Cmd_Empty entrypoint)).
  repeat split.
  - rewrite !runCommands_app, (runCommands_conditionalInstrs _ _ Hlen),
      runCommands_runInstrs, (Hentry entry eq_refl), runCommands_labelInstrs.
    simpl. rewrite !app_nil_r, <- map_app. f_equal. symmetry. apply prefix_app_rest.
  - unfold catchAllCopies.
    rewrite !omap_app, omap_conditionalInstrs, omap_runInstrs, omap_labelInstrs by done.
    unfold entry. by destruct (Cmd_Empty entrypoint).
  - unfold entrypoints.
    rewrite !omap_app, omap_conditionalInstrs, omap_runInstrs, omap_labelInstrs by done.
    unfold entry. by destruct (Cmd_Empty entrypoint).
  - unfold labelsOf.
    rewrite !omap_app, omap_conditionalInstrs, omap_runInstrs by done.
    fold (labelsOf (labelInstrs (Cmd := Cmd) extraLabels)). rewrite labelsOf_labelInstrs.
    unfold entry. by destruct (Cmd_Empty entrypoint).
Qed.

End SynthesizerCensus.

(** The runs of the census: one conditional, one not, one with triggers
    after it. *)
Lemma DeprecatedFastBuildImage_census_witness :
  exists added,
    [dockerfile.Line "FROM node";
     dockerfile.Line "COPY /src/package.json /src/package.json";
     dockerfile.RunInstr "npm install";
     dockerfile.AddAllInstr;
     dockerfile.RunInstr "npm build";
     dockerfile.RunInstr "npm test";
     dockerfile.EntrypointInstr "node index.js";
     dockerfile.LabelInstr "tilt.buildMode" "scratch";
     dockerfile.LabelInstr "team" "web"]
    = [dockerfile.Line "FROM node"] ++ added /\
    [mkPathMapping "package.json" "/src/package.json"]
    = Toy.SyncsToPathMappings [mkPathMapping "package.json" "/src/package.json"] /\
    runCommands added = map RunCmd
      [mkRun "npm install" ["package.json"]; mkRun "npm build" [];
       mkRun "npm test" ["package.json"]] /\
    catchAllCopies added = 1%nat /\
    entrypoints added = (if Toy.Cmd_Empty "node index.js" then [] else ["node index.js"]) /\
    labelsOf added = ("tilt.buildMode", "scratch") :: [("team", "web")].
Proof.
  apply (DeprecatedFastBuildImage_census
           Toy.Cmd Toy.Cmd_Empty Toy.Cmd_String Toy.PathSet Toy.PathSet_Empty
           Toy.PathMatcher Toy.CreateRunMatcher Toy.FilterMappings
           PathMapping Toy.SyncsToPathMappings "tilt.buildMode" "scratch"
           [("team", "web")] [dockerfile.Line "FROM node"]
           [mkPathMapping "package.json" "/src/package.json"]
           [mkRun "npm install" ["package.json"]; mkRun "npm build" [];
            mkRun "npm test" ["package.json"]]
           "node index.js").
  reflexivity.
Defined.

Lemma DeprecatedFastBuildImage_passes_error_witness :
  ToyStrict.addConditionalRuns []
    [mkRun "npm install" ["package.json"]; mkRun "make" [""]; mkRun "npm build" []]
    [mkPathMapping "package.json" "/src/package.json"]
  = Err "empty trigger pattern" /\
  ToyStrict.DeprecatedFastBuildImage [] []
    [mkPathMapping "package.json" "/src/package.json"]
    [mkRun "npm install" ["package.json"]; mkRun "make" [""]; mkRun "npm build" []]
    ""
  = Err "DeprecatedFastBuildImage: empty trigger pattern".
Proof.
  apply (DeprecatedFastBuildImage_passes_error
           Toy.Cmd Toy.Cmd_Empty Toy.Cmd_String Toy.PathSet Toy.PathSet_Empty
           Toy.PathMatcher ToyStrict.CreateRunMatcher Toy.FilterMappings
           PathMapping Toy.SyncsToPathMappings "tilt.buildMode" "scratch"
           [] [] [mkPathMapping "package.json" "/src/package.json"]
           [mkRun "npm install" ["package.json"]]
           (mkRun "make" [""]) [mkRun "npm build" []] "" "empty trigger pattern").
  - repeat constructor.
  - reflexivity.
  - repeat constructor.
    exists [mkPathMapping "package.json" "/src/package.json"]. split; [| discriminate].
    exists ["package.json"]. split; reflexivity.
  - left. reflexivity.
Defined.

(** ** More on the decoder *)

(** Closes [x ∈ l /\ P] when [x] is the last or first element of [l], or is
    in the rest of it by a hypothesis, and [P] holds by hypotheses. *)
Ltac found_in_list :=
  split;
  [ first [ by apply elem_of_app; left
          | by apply elem_of_app; right; apply list_elem_of_singleton
          | by apply elem_of_cons; left
          | by apply elem_of_cons; right ]
  | first [ done | by repeat split | tauto ] ].

Section DecoderMore.

Variable buildkitPrinter : Type.
Variable newBuildkitPrinter : buildkitPrinter.
Variable parseAndPrint :
  buildkitPrinter -> list vertex * list vertexLog -> buildkitPrinter * option error.
Variable json_Unmarshal_bytes : RawMessage -> Result string.
Variable StatusResponse_Unmarshal : string -> Result StatusResponse.
Variable json_Unmarshal_map : RawMessage -> Result (gmap string string).
Variable ImageInspectWithRaw : string -> Result ImageInspect.

Local Abbreviation State := (DecoderState buildkitPrinter).
Local Abbreviation status :=
  (toBuildkitStatus buildkitPrinter parseAndPrint json_Unmarshal_bytes
     StatusResponse_Unmarshal).
Local Abbreviation body :=
  (loopBody buildkitPrinter parseAndPrint json_Unmarshal_bytes StatusResponse_Unmarshal).
Local Abbreviation iter :=
  (iterations buildkitPrinter parseAndPrint json_Unmarshal_bytes StatusResponse_Unmarshal).
Local Abbreviation loop :=
  (readDockerOutput_loop buildkitPrinter parseAndPrint json_Unmarshal_bytes
     StatusResponse_Unmarshal).
Local Abbreviation run :=
  (readDockerOutput_run buildkitPrinter newBuildkitPrinter parseAndPrint
     json_Unmarshal_bytes StatusResponse_Unmarshal).
Local Abbreviation decode :=
  (readDockerOutput buildkitPrinter newBuildkitPrinter parseAndPrint
     json_Unmarshal_bytes StatusResponse_Unmarshal).
Local Abbreviation digestOfAux := (getDigestFromAux json_Unmarshal_map).
Local Abbreviation digestOf :=
  (getDigestFromDockerOutput json_Unmarshal_map ImageInspectWithRaw).
Local Abbreviation buildDigest :=
  (getDigestFromBuildOutput json_Unmarshal_map ImageInspectWithRaw
     buildkitPrinter newBuildkitPrinter parseAndPrint json_Unmarshal_bytes
     StatusResponse_Unmarshal).

Implicit Types (st : State) (m : JSONMessage) (c : Clock).
Implicit Types (reader pre post : list (Clock * Result JSONMessage)).

(** *** The state the loop leaves *)

Lemma loop_state ctxErr st reader : (loop ctxErr st reader).1 = (iter st reader).1.
Proof.
  revert st. induction reader as [|[c d] reader IH]; intros st; simpl.
  - by destruct ctxErr.
  - destruct (body st c d) as [st1 [|o]]; [apply IH | done].
Qed.

Lemma iterations_app st pre post :
  iter st (pre ++ post)
  = match iter st pre with
    | (st', Continue) => iter st' post
    | (st', Exit o) => (st', Exit o)
    end.
Proof.
  revert st. induction pre as [|[c d] pre IH]; intros st; simpl; [done |].
  destruct (body st c d) as [st1 [|o]]; [apply IH | done].
Qed.

Lemma loop_of_continue ctxErr st reader st' :
  iter st reader = (st', Continue) -> loop ctxErr st reader = loop ctxErr st' [].
Proof.
  intros H. rewrite <- (app_nil_r reader) at 1.
  by eapply loop_app_continue.
Qed.

Lemma loop_of_exit ctxErr st reader st' o :
  iter st reader = (st', Exit o) -> loop ctxErr st reader = (st', o).
Proof.
  intros H. rewrite <- (app_nil_r reader) at 1.
  by eapply loop_app_exit.
Qed.

(** *** Stream texts *)

Lemma writtenLines_app l1 l2 : writtenLines (l1 ++ l2) = writtenLines l1 ++ writtenLines l2.
Proof. apply omap_app. Qed.

Lemma handleStream_written st m :
  writtenLines (logged (handleStream st m)) = writtenLines (logged st) ++ streamTexts [m].
Proof.
  unfold handleStream, streamTexts. simpl.
  destruct (Stream m) as [|a s] eqn:E; simpl; [by rewrite app_nil_r |].
  by rewrite writtenLines_app.
Qed.

Lemma handleProgress_written st c m :
  writtenLines (logged (handleProgress st c m)) = writtenLines (logged st).
Proof.
  destruct (handleProgress_cases _ st c m) as [->|(p & _ & ->)]; [done |].
  unfold printed. simpl. rewrite writtenLines_app. simpl. apply app_nil_r.
Qed.

Lemma body_written st c m :
  writtenLines (logged (body st c (Ok m)).1)
  = writtenLines (logged st) ++ streamTexts [m].
Proof.
  destruct (String.eqb_spec (ErrorMessage m) "") as [Hem|Hem].
  - destruct (Error m) as [e|] eqn:Her.
    + unfold loopBody. rewrite Hem, Her. simpl. apply handleStream_written.
    + destruct (body_progress _ parseAndPrint json_Unmarshal_bytes
                  StatusResponse_Unmarshal st c m Hem Her) as (-> & _).
      by rewrite handleProgress_written, handleStream_written.
  - unfold loopBody. apply String.eqb_neq in Hem. rewrite Hem. simpl.
    apply handleStream_written.
Qed.

Lemma streamTexts_cons m ms : streamTexts (m :: ms) = streamTexts [m] ++ streamTexts ms.
Proof. unfold streamTexts. simpl. by destruct (negb _). Qed.

Lemma iterations_cons st c d reader :
  iter st ((c, d) :: reader)
  = match body st c d with
    | (st', Continue) => iter st' reader
    | (st', Exit o) => (st', Exit o)
    end.
Proof. reflexivity. Qed.

Lemma decodedMessages_Ok c m reader :
  decodedMessages ((c, Ok m) :: reader) = m :: decodedMessages reader.
Proof. reflexivity. Qed.

Lemma decodedMessages_Err c e reader :
  decodedMessages ((c, Err e) :: reader) = decodedMessages reader.
Proof. reflexivity. Qed.

Lemma iterations_written st reader :
  (forall st', iter st reader = (st', Continue) ->
     writtenLines (logged st')
     = writtenLines (logged st) ++ streamTexts (decodedMessages reader)) /\
  (exists rest,
     writtenLines (logged st) ++ streamTexts (decodedMessages reader)
     = writtenLines (logged (iter st reader).1) ++ rest).
Proof.
  revert st. induction reader as [|[c d] reader IH]; intros st.
  - split; [intros st' [= <-]; by rewrite app_nil_r | by exists []].
  - rewrite iterations_cons. destruct d as [m|err].
    + pose proof (body_written st c m) as Hw.
      rewrite decodedMessages_Ok, streamTexts_cons, app_assoc, <- Hw.
      destruct (body st c (Ok m)) as [st1 [|o]].
      * apply IH.
      * split; [done |]. by eexists.
    + rewrite body_decode_error. split; [done |]. by eexists.
Qed.

(** X10. The stream texts the decoder logs are the non-empty stream texts of
    the records it decoded, in their order and without change; when it
    leaves early they are the first of them, and when decoding succeeds they
    are all of them. *)
Theorem readDockerOutput_logs_stream_texts ctxErr reader :
  writtenLines (logged (run ctxErr reader).1)
    `prefix_of` streamTexts (decodedMessages reader) /\
  (forall out, decode ctxErr reader = Returns (out, None) ->
     writtenLines (logged (run ctxErr reader).1)
     = streamTexts (decodedMessages reader)).
Proof.
  unfold readDockerOutput, readDockerOutput_run.
  set (st0 := initialState newBuildkitPrinter).
  destruct (iterations_written st0 reader) as [Hall [rest Hrest]].
  rewrite loop_state. split.
  - exists rest. exact Hrest.
  - intros out H.
    destruct (iterations_cases _ parseAndPrint json_Unmarshal_bytes
                StatusResponse_Unmarshal st0 reader) as [[st1 H1]|(st1 & o & H1)].
    + rewrite H1. simpl. by rewrite (Hall _ H1).
    + rewrite (loop_of_exit _ _ _ _ _ H1) in H. simpl in H. subst o.
      by destruct (iterations_exit_zero _ _ _ _ _ _ _ _ _ H1).
Qed.

(** *** The output: the last record wins *)

Lemma decodedMessages_app pre post :
  decodedMessages (pre ++ post) = decodedMessages pre ++ decodedMessages post.
Proof. apply omap_app. Qed.

Lemma fold_keepsAux ms out :
  Forall keepsAux ms -> aux (fold_left recordOutput ms out) = aux out.
Proof.
  intros H. revert out. induction H as [|m ms Hm _ IH]; intros out; [done |].
  simpl. rewrite IH. unfold recordOutput. simpl.
  destruct Hm as [->|Hbk]; [done |]. rewrite Hbk. by destruct (Aux m).
Qed.

Lemma fold_keepsShortDigest ms out :
  Forall keepsShortDigest ms ->
  shortDigest (fold_left recordOutput ms out) = shortDigest out.
Proof.
  intros H. revert out. induction H as [|m ms Hm _ IH]; intros out; [done |].
  simpl. rewrite IH. unfold recordOutput. simpl.
  apply FindStringSubmatch_nil in Hm. by rewrite Hm.
Qed.

(** X11. After a successful decoding the aux payload returned is the one of
    the last record that carries one and is no graph-trace record. *)
Theorem readDockerOutput_last_aux ctxErr pre c m post out a :
  decode ctxErr (pre ++ (c, Ok m) :: post) = Returns (out, None) ->
  Aux m = Some a -> messageIsFromBuildkit m = false ->
  Forall keepsAux (decodedMessages post) ->
  aux out = Some a.
Proof.
  intros H Ha Hbk Hpost.
  destruct (decode_success _ _ _ _ _ _ _ _ H) as [_ ->].
  rewrite decodedMessages_app. unfold decodedMessages at 2. simpl.
  fold (decodedMessages post).
  rewrite fold_left_app. simpl. rewrite (fold_keepsAux _ _ Hpost).
  unfold recordOutput. simpl. by rewrite Ha, Hbk.
Qed.

(** X12. After a successful decoding the short digest returned is the hex
    group of the last stream text that is a legacy digest line. *)
Theorem readDockerOutput_last_short_digest ctxErr pre c m post out hex :
  decode ctxErr (pre ++ (c, Ok m) :: post) = Returns (out, None) ->
  matchesOldDigest (Stream m) hex ->
  Forall keepsShortDigest (decodedMessages post) ->
  shortDigest out = hex.
Proof.
  intros H Hm Hpost.
  destruct (decode_success _ _ _ _ _ _ _ _ H) as [_ ->].
  rewrite decodedMessages_app. unfold decodedMessages at 2. simpl.
  fold (decodedMessages post).
  rewrite fold_left_app. simpl. rewrite (fold_keepsShortDigest _ _ Hpost).
  unfold recordOutput. simpl. by rewrite (FindStringSubmatch_match _ _ Hm).
Qed.

Lemma fold_recordOutput_provenance ms :
  let out := fold_left recordOutput ms dockerOutput_zero in
  (forall a, aux out = Some a ->
     exists m, m ∈ ms /\ Aux m = Some a /\ messageIsFromBuildkit m = false) /\
  (shortDigest out <> "" ->
     exists m, m ∈ ms /\ matchesOldDigest (Stream m) (shortDigest out)).
Proof.
  induction ms as [|m ms IH] using rev_ind; [done |].
  rewrite fold_left_app. simpl. destruct IH as [IHa IHs]. split.
  - intros a. unfold recordOutput at 1. simpl.
    destruct (Aux m) as [a0|] eqn:Ha; [destruct (messageIsFromBuildkit m) eqn:Hbk |].
    + intros H. destruct (IHa _ H) as (m' & Hin & ?). exists m'. found_in_list.
    + intros [= <-]. exists m. found_in_list.
    + intros H. destruct (IHa _ H) as (m' & Hin & ?). exists m'. found_in_list.
  - unfold recordOutput at 1 3. simpl.
    destruct (FindStringSubmatch_cases (Stream m)) as [->|(hex & Hm & ->)].
    + intros H. destruct (IHs H) as (m' & Hin & ?). exists m'. found_in_list.
    + intros _. exists m. found_in_list.
Qed.

(** X13. After a successful decoding, an aux payload returned is the payload
    of some record of the stream that is no graph-trace record, and a short
    digest returned is the hex group of a legacy digest line of the stream:
    neither comes from anywhere else. *)
Theorem readDockerOutput_provenance ctxErr reader out :
  decode ctxErr reader = Returns (out, None) ->
  (forall a, aux out = Some a ->
     exists m, m ∈ decodedMessages reader /\ Aux m = Some a /\
               messageIsFromBuildkit m = false) /\
  (shortDigest out <> "" ->
     exists m, m ∈ decodedMessages reader /\
               matchesOldDigest (Stream m) (shortDigest out)).
Proof.
  intros H. destruct (decode_success _ _ _ _ _ _ _ _ H) as [_ ->].
  apply fold_recordOutput_provenance.
Qed.

(** *** Panics *)

Lemma status_some_returns raw b0 : exists b' e, status (Some raw) b0 = (b', Returns e).
Proof.
  unfold toBuildkitStatus.
  destruct (json_Unmarshal_bytes raw) as [dt|e]; [| by eexists _, _].
  destruct (StatusResponse_Unmarshal dt) as [resp|e]; [| by eexists _, _].
  destruct (parseAndPrint b0 (toVertexes resp)). by eexists _, _.
Qed.

Lemma body_panics st c d st' msg :
  body st c d = (st', Exit (Panics msg)) ->
  exists m, d = Ok m /\ messageIsFromBuildkit m = true /\ Aux m = None.
Proof.
  unfold loopBody. destruct d as [m|err]; [| done].
  destruct (negb (String.eqb (ErrorMessage m) "")); [done |].
  destruct (Error m); [done |].
  destruct (messageIsFromBuildkit m) eqn:Hbk; [| done].
  destruct (Aux m) as [raw|] eqn:Ha.
  - destruct (status_some_returns raw
                (b (handleProgress (handleStream st m) c m))) as (b' & e & ->).
    by destruct e.
  - intros _. by exists m.
Qed.

Lemma iterations_panics st reader st' msg :
  iter st reader = (st', Exit (Panics msg)) ->
  exists c m, (c, Ok m) ∈ reader /\ messageIsFromBuildkit m = true /\ Aux m = None.
Proof.
  revert st. induction reader as [|[c d] reader IH]; intros st; simpl; [done |].
  destruct (body st c d) as [st1 [|o]] eqn:E.
  - intros H. destruct (IH _ H) as (c' & m & Hin & ?). exists c', m. found_in_list.
  - intros [= -> ->]. destruct (body_panics _ _ _ _ _ E) as (m & -> & ?).
    exists c, m. found_in_list.
Qed.


(** *** Identifiers do not interfere *)

(** X15. An iteration changes the throttling state of no identifier but the
    one of its record: the instant of the last print and the wait window of
    every other identifier stay as they are. *)
Theorem loopBody_other_identifiers st c m id :
  id <> ID m ->
  let st' := (loopBody buildkitPrinter parseAndPrint json_Unmarshal_bytes
                StatusResponse_Unmarshal st c (Ok m)).1 in
  progressLastPrinted st' !! id = progressLastPrinted st !! id /\
  progressPrintWait st' !! id = progressPrintWait st !! id.
Proof.
  intros Hid st'. unfold st'. clear st'.
  assert (progressLastPrinted (handleProgress (handleStream st m) c m) !! id
            = progressLastPrinted st !! id /\
          progressPrintWait (handleProgress (handleStream st m) c m) !! id
            = progressPrintWait st !! id) as Hprog.
  { destruct (handleStream_maps _ st m) as [Hl Hw].
    destruct (handleProgress_cases _ (handleStream st m) c m) as [->|(p & _ & ->)].
    - by rewrite Hl, Hw.
    - unfold printed. simpl. rewrite !lookup_insert_ne by done. by rewrite Hl, Hw. }
  destruct (String.eqb_spec (ErrorMessage m) "") as [Hem|Hem].
  - destruct (Error m) as [e|] eqn:Her.
    + unfold loopBody. rewrite Hem, Her. simpl.
      destruct (handleStream_maps _ st m) as [-> ->]. done.
    + destruct (body_progress _ parseAndPrint json_Unmarshal_bytes
                  StatusResponse_Unmarshal st c m Hem Her) as (_ & -> & ->).
      exact Hprog.
  - unfold loopBody. apply String.eqb_neq in Hem. rewrite Hem. simpl.
    destruct (handleStream_maps _ st m) as [-> ->]. done.
Qed.

(** *** Where progress lines come from *)

Lemma handleProgress_logged st c m ev :
  ev ∈ logged (handleProgress st c m) ->
  ev ∈ logged st \/
  exists p, ev = LogProgress (ID m) (Status m) p /\ ID m <> "" /\
            Progress m = Some p /\ ~ suppressed m p.
Proof.
  unfold handleProgress. destruct (Progress m) as [p|] eqn:Hp; [| by left].
  destruct (String.eqb_spec (ID m) "") as [|Hid]; simpl; [by left |].
  destruct (shouldPrint st (atSince c) (ID m) p); simpl; [| by left].
  destruct (shouldSkip m p) eqn:Hs; simpl; [by left |].
  intros [H|H]%elem_of_app; [by left |]. right. exists p.
  apply list_elem_of_singleton in H as ->. repeat split; try done.
  intros Hsup. apply shouldSkip_iff in Hsup. congruence.
Qed.

Lemma handleStream_logged st m ev :
  ev ∈ logged (handleStream st m) -> ev ∈ logged st \/ ev = LogWrite (Stream m).
Proof.
  unfold handleStream. destruct (_ <? _)%nat; simpl; [| by left].
  intros [H|H]%elem_of_app; [by left |]. right. by apply list_elem_of_singleton in H.
Qed.

Lemma body_logged_progress st c d id s p :
  LogProgress id s p ∈ logged (body st c d).1 ->
  LogProgress id s p ∈ logged st \/
  exists m, d = Ok m /\ ID m = id /\ id <> "" /\ Status m = s /\
            Progress m = Some p /\ ~ suppressed m p /\
            ErrorMessage m = "" /\ Error m = None.
Proof.
  destruct d as [m|err]; [| by left].
  assert (LogProgress id s p ∈ logged (handleStream st m) ->
          LogProgress id s p ∈ logged st) as Hstream.
  { intros H. by destruct (handleStream_logged _ _ _ H). }
  destruct (String.eqb_spec (ErrorMessage m) "") as [Hem|Hem].
  - destruct (Error m) as [e|] eqn:Her.
    + unfold loopBody. rewrite Hem, Her. simpl. intros H. left. by apply Hstream.
    + destruct (body_progress _ parseAndPrint json_Unmarshal_bytes
                  StatusResponse_Unmarshal st c m Hem Her) as (-> & _).
      intros H. destruct (handleProgress_logged _ _ _ _ H) as [H1|(p' & Heq & ?)].
      * left. by apply Hstream.
      * right. injection Heq as -> -> ->. exists m. intuition congruence.
  - unfold loopBody. pose proof Hem as Hem'. apply String.eqb_neq in Hem'.
    rewrite Hem'. simpl. intros H. left. by apply Hstream.
Qed.

(** X16. Every progress line in the log of the decoder is the line of a
    record of the stream: the record has that identifier, which is not
    empty, that status and that progress, it is not suppressed and it is no
    error record. *)
Theorem readDockerOutput_progress_lines ctxErr reader id s p :
  LogProgress id s p ∈ logged (run ctxErr reader).1 ->
  exists c m, (c, Ok m) ∈ reader /\ ID m = id /\ id <> "" /\ Status m = s /\
              Progress m = Some p /\ ~ suppressed m p /\
              ErrorMessage m = "" /\ Error m = None.
Proof.
  unfold readDockerOutput_run. rewrite loop_state.
  assert (forall st,
    LogProgress id s p ∈ logged (iter st reader).1 ->
    LogProgress id s p ∈ logged st \/
    exists c m, (c, Ok m) ∈ reader /\ ID m = id /\ id <> "" /\ Status m = s /\
                Progress m = Some p /\ ~ suppressed m p /\
                ErrorMessage m = "" /\ Error m = None) as Hinv.
  { induction reader as [|[c d] reader IH]; intros st; simpl; [by left |].
    pose proof (body_logged_progress st c d id s p) as Hbody.
    destruct (body st c d) as [st1 [|o]]; simpl in *.
    - intros H. destruct (IH _ H) as [H1|(c' & m & Hin & ?)].
      + destruct (Hbody H1) as [?|(m & -> & ?)]; [by left |].
        right. exists c, m. found_in_list.
      + right. exists c', m. found_in_list.
    - intros H. destruct (Hbody H) as [?|(m & -> & ?)]; [by left |].
      right. exists c, m. found_in_list. }
  intros H. destruct (Hinv _ H) as [H0|?]; [| done].
  simpl in H0. by apply elem_of_nil in H0.
Qed.

(** *** From the stream to the digest *)

Lemma fold_aux_none ms :
  aux (fold_left recordOutput ms dockerOutput_zero) = None -> Forall keepsAux ms.
Proof.
  induction ms as [|m ms IH] using rev_ind; [constructor |].
  rewrite fold_left_app. simpl. unfold recordOutput at 1. simpl.
  destruct (Aux m) as [a|] eqn:Ha; [destruct (messageIsFromBuildkit m) eqn:Hbk |].
  - intros H. apply Forall_app. split; [by apply IH |].
    constructor; [by right | constructor].
  - done.
  - intros H. apply Forall_app. split; [by apply IH |].
    constructor; [by left | constructor].
Qed.

(** X17. A digest returned by [getDigestFromBuildOutput] is the [ID] entry
    of the aux payload of a record of the stream that is no graph-trace
    record, no call being made to the daemon; or no record has brought such
    a payload, and it is the [ID] of the daemon's answer to the one call
    made, the inspection of the hex group of a legacy digest line of the
    stream. *)
Theorem getDigestFromBuildOutput_sound ctxErr reader calls d :
  buildDigest ctxErr reader = Returns (calls, Ok d) ->
  (calls = [] /\
   exists m a digestMap,
     m ∈ decodedMessages reader /\ Aux m = Some a /\
     messageIsFromBuildkit m = false /\
     json_Unmarshal_map a = Ok digestMap /\ digestMap !! "ID" = Some d) \/
  (Forall keepsAux (decodedMessages reader) /\
   exists m hex data,
     calls = [ImageInspectWithRaw_call hex] /\
     m ∈ decodedMessages reader /\ matchesOldDigest (Stream m) hex /\
     ImageInspectWithRaw hex = Ok data /\ d = ImageInspect_ID data).
Proof.
  unfold getDigestFromBuildOutput.
  destruct (decode ctxErr reader) as [[out [e|]]|msg] eqn:E; [done | | done].
  destruct (decode_success _ _ _ _ _ _ _ _ E) as [_ Hout].
  pose proof (fold_recordOutput_provenance (decodedMessages reader)) as [Ha Hs].
  cbv zeta in Ha, Hs. rewrite <- Hout in Ha, Hs.
  unfold getDigestFromDockerOutput.
  destruct (aux out) as [a|] eqn:Haux.
  - unfold getDigestFromAux.
    destruct (json_Unmarshal_map a) as [digestMap|e] eqn:Hu; [| done].
    destruct (digestMap !! "ID") as [id|] eqn:Hid; [| done].
    simpl. intros [= <- <-]. left. split; [done |].
    destruct (Ha a eq_refl) as (m & Hin & Hm & Hbk).
    by exists m, a, digestMap.
  - destruct (String.eqb_spec (shortDigest out) "") as [Hsd|Hsd]; [done |].
    simpl. destruct (ImageInspectWithRaw (shortDigest out)) as [data|e] eqn:Hi; [| done].
    simpl. intros [= <- <-]. right. split.
    + apply fold_aux_none. by rewrite <- Hout.
    + destruct (Hs Hsd) as (m & Hin & Hm).
      by exists m, (shortDigest out), data.
Qed.

(** X18. [getDigestFromBuildOutput] asks the daemon at most once, and only
    after the stream was decoded to its end without an aux payload and with
    a legacy digest line; an error it returns carries the name of the step
    that failed, [ImageBuild] for the decoding and its own name for the
    recovery of the digest. *)
Theorem getDigestFromBuildOutput_daemon_calls ctxErr reader calls r :
  buildDigest ctxErr reader = Returns (calls, r) ->
  (calls = [] \/
   exists out,
     decode ctxErr reader = Returns (out, None) /\
     aux out = None /\ shortDigest out <> "" /\
     calls = [ImageInspectWithRaw_call (shortDigest out)]) /\
  (forall e, r = Err e ->
     (exists e0 out, decode ctxErr reader = Returns (out, Some e0) /\
                     e = "ImageBuild: " +:+ e0 /\ calls = []) \/
     (exists e0 out, decode ctxErr reader = Returns (out, None) /\
                     getDigestFromDockerOutput json_Unmarshal_map
                       ImageInspectWithRaw out = (calls, Err e0) /\
                     e = "getDigestFromBuildOutput: " +:+ e0)).
Proof.
  unfold getDigestFromBuildOutput.
  destruct (decode ctxErr reader) as [[out [e0|]]|msg] eqn:E; [| | done].
  - intros [= <- <-]. split; [by left |].
    intros e [= <-]. left. by exists e0, out.
  - destruct (digestOf out) as [calls' digest] eqn:Hd.
    intros [= <- <-]. split.
    + unfold getDigestFromDockerOutput in Hd.
      destruct (aux out) as [a|] eqn:Haux; [injection Hd as <- _; by left |].
      destruct (String.eqb_spec (shortDigest out) "") as [Hsd|Hsd]; simpl in Hd.
      * injection Hd as <- _. by left.
      * injection Hd as <- _. right. by exists out.
    + intros e He. right. destruct digest as [d|e0]; [done |].
      simpl in He. injection He as <-. by exists e0, out.
Qed.

End DecoderMore.

(** ** More of the decoder on concrete streams *)

Section DecoderMoreExamples.

Local Open Scope Z_scope.

(** Two records with an aux payload and a stream line after them: the
    payload of the second is returned. *)
Lemma readDockerOutput_last_aux_witness :
  ToyDecoder.readDockerOutput None
    ([(ToyDecoder.seconds 0, ToyDecoder.streamLine "Step 1/2 : FROM node");
      (ToyDecoder.seconds 1, Ok (mkJSONMessage "" "" None "" None "" (Some "sha256:1111")))]
     ++ (ToyDecoder.seconds 2, Ok (mkJSONMessage "" "" None "" None "" (Some "sha256:2222")))
     :: [(ToyDecoder.seconds 3, ToyDecoder.streamLine "done")])
  = Returns (mkDockerOutput (Some "sha256:2222") "", None) /\
  aux (mkDockerOutput (Some "sha256:2222") "") = Some "sha256:2222".
Proof.
  split; [vm_compute; reflexivity |].
  refine (readDockerOutput_last_aux ToyDecoder.buildkitPrinter tt
            ToyDecoder.parseAndPrint ToyDecoder.json_Unmarshal_bytes
            ToyDecoder.StatusResponse_Unmarshal None
            [(ToyDecoder.seconds 0, ToyDecoder.streamLine "Step 1/2 : FROM node");
             (ToyDecoder.seconds 1,
              Ok (mkJSONMessage "" "" None "" None "" (Some "sha256:1111")))]
            (ToyDecoder.seconds 2)
            (mkJSONMessage "" "" None "" None "" (Some "sha256:2222"))
            [(ToyDecoder.seconds 3, ToyDecoder.streamLine "done")]
            (mkDockerOutput (Some "sha256:2222") "") "sha256:2222" _ _ _ _).
  - vm_compute. reflexivity.
  - reflexivity.
  - reflexivity.
  - repeat constructor.
Defined.

(** Two legacy digest lines and a stream line after them: the hex group of
    the second is returned. *)
Lemma readDockerOutput_last_short_digest_witness :
  ToyDecoder.readDockerOutput None
    ([(ToyDecoder.seconds 0, ToyDecoder.streamLine "Successfully built 0123456789ab")]
     ++ (ToyDecoder.seconds 1, ToyDecoder.streamLine "Successfully built abcdef0123456789")
     :: [(ToyDecoder.seconds 2, ToyDecoder.streamLine "Successfully tagged app:latest")])
  = Returns (mkDockerOutput None "abcdef0123456789", None) /\
  shortDigest (mkDockerOutput None "abcdef0123456789") = "abcdef0123456789".
Proof.
  split; [vm_compute; reflexivity |].
  refine (readDockerOutput_last_short_digest ToyDecoder.buildkitPrinter tt
            ToyDecoder.parseAndPrint ToyDecoder.json_Unmarshal_bytes
            ToyDecoder.StatusResponse_Unmarshal None
            [(ToyDecoder.seconds 0, ToyDecoder.streamLine "Successfully built 0123456789ab")]
            (ToyDecoder.seconds 1)
            (mkJSONMessage "Successfully built abcdef0123456789" "" None "" None "" None)
            [(ToyDecoder.seconds 2, ToyDecoder.streamLine "Successfully tagged app:latest")]
            (mkDockerOutput None "abcdef0123456789") "abcdef0123456789" _ _ _).
  - vm_compute. reflexivity.
  - exists "". split; [reflexivity |]. split; [discriminate |]. split; reflexivity.
  - repeat constructor. intros hex H.
    apply FindStringSubmatch_match in H. vm_compute in H. discriminate H.
Defined.

(** A stream with an aux payload and a legacy digest line: both parts of
    the output are found in the stream. *)
Lemma readDockerOutput_provenance_witness :
  (exists m,
     m ∈ decodedMessages
           [(ToyDecoder.seconds 0, ToyDecoder.streamLine "Successfully built abcdef0123456789");
            (ToyDecoder.seconds 1,
             Ok (mkJSONMessage "" "" None "" None "" (Some "sha256:2222")))] /\
     Aux m = Some "sha256:2222" /\ messageIsFromBuildkit m = false) /\
  (exists m,
     m ∈ decodedMessages
           [(ToyDecoder.seconds 0, ToyDecoder.streamLine "Successfully built abcdef0123456789");
            (ToyDecoder.seconds 1,
             Ok (mkJSONMessage "" "" None "" None "" (Some "sha256:2222")))] /\
     matchesOldDigest (Stream m) "abcdef0123456789").
Proof.
  pose proof (readDockerOutput_provenance ToyDecoder.buildkitPrinter tt
                ToyDecoder.parseAndPrint ToyDecoder.json_Unmarshal_bytes
                ToyDecoder.StatusResponse_Unmarshal None
                [(ToyDecoder.seconds 0,
                  ToyDecoder.streamLine "Successfully built abcdef0123456789");
                 (ToyDecoder.seconds 1,
                  Ok (mkJSONMessage "" "" None "" None "" (Some "sha256:2222")))]
                (mkDockerOutput (Some "sha256:2222") "abcdef0123456789")
                eq_refl) as [Ha Hs].
  split.
  - exact (Ha "sha256:2222" eq_refl).
  - apply Hs. discriminate.
Defined.

(** A record of [layer1] read in a state that knows [layer2]: what the
    decoder holds for [layer2] stays. *)
Lemma loopBody_other_identifiers_witness :
  let st := (ToyDecoder.readDockerOutput_run None
               [(ToyDecoder.seconds 0,
                 Ok (progressRecord "layer2" "Downloading" (mkJSONProgress 1 10)))]).1 in
  let st' := (loopBody ToyDecoder.buildkitPrinter ToyDecoder.parseAndPrint
                ToyDecoder.json_Unmarshal_bytes ToyDecoder.StatusResponse_Unmarshal
                st (ToyDecoder.seconds 7)
                (Ok (progressRecord "layer1" "Downloading" (mkJSONProgress 3 10)))).1 in
  progressLastPrinted st' !! "layer2" = progressLastPrinted st !! "layer2" /\
  progressPrintWait st' !! "layer2" = progressPrintWait st !! "layer2".
Proof.
  refine (loopBody_other_identifiers ToyDecoder.buildkitPrinter
            ToyDecoder.parseAndPrint ToyDecoder.json_Unmarshal_bytes
            ToyDecoder.StatusResponse_Unmarshal _ (ToyDecoder.seconds 7)
            (progressRecord "layer1" "Downloading" (mkJSONProgress 3 10))
            "layer2" _).
  discriminate.
Defined.

(** The progress line of a stream of one record is the line of that record. *)
Lemma readDockerOutput_progress_lines_witness :
  exists c m,
    (c, Ok m) ∈ [(ToyDecoder.seconds 0, ToyDecoder.layer "Downloading" 1 10)] /\
    ID m = "layer1" /\ "layer1" <> "" /\ Status m = "Downloading" /\
    Progress m = Some (mkJSONProgress 1 10) /\
    ~ suppressed m (mkJSONProgress 1 10) /\
    ErrorMessage m = "" /\ Error m = None.
Proof.
  refine (readDockerOutput_progress_lines ToyDecoder.buildkitPrinter tt
            ToyDecoder.parseAndPrint ToyDecoder.json_Unmarshal_bytes
            ToyDecoder.StatusResponse_Unmarshal None
            [(ToyDecoder.seconds 0, ToyDecoder.layer "Downloading" 1 10)]
            "layer1" "Downloading" (mkJSONProgress 1 10) _).
  vm_compute. constructor.
Defined.

(** The legacy digest line alone: the daemon is asked once, for the hex
    group of the line, and its answer is the digest. *)
Lemma getDigestFromBuildOutput_sound_witness :
  let reader :=
    [(ToyDecoder.seconds 0, ToyDecoder.streamLine "Step 1/2 : FROM node");
     (ToyDecoder.seconds 1, ToyDecoder.streamLine "Successfully built abcdef0123456789")] in
  Forall keepsAux (decodedMessages reader) /\
  exists m hex data,
    [ImageInspectWithRaw_call "abcdef0123456789"] = [ImageInspectWithRaw_call hex] /\
    m ∈ decodedMessages reader /\ matchesOldDigest (Stream m) hex /\
    ToyDecoder.ImageInspectWithRaw hex = Ok data /\
    "sha256:abcdef0123456789aaaabbbbccccdddd" = ImageInspect_ID data.
Proof.
  destruct (getDigestFromBuildOutput_sound ToyDecoder.buildkitPrinter tt
              ToyDecoder.parseAndPrint ToyDecoder.json_Unmarshal_bytes
              ToyDecoder.StatusResponse_Unmarshal ToyDecoder.json_Unmarshal_map
              ToyDecoder.ImageInspectWithRaw None
              [(ToyDecoder.seconds 0, ToyDecoder.streamLine "Step 1/2 : FROM node");
               (ToyDecoder.seconds 1,
                ToyDecoder.streamLine "Successfully built abcdef0123456789")]
              [ImageInspectWithRaw_call "abcdef0123456789"]
              "sha256:abcdef0123456789aaaabbbbccccdddd" eq_refl) as [[H _]|H].
  - discriminate H.
  - exact H.
Defined.

(** A legacy digest line of an image the daemon does not know: one call, and
    the error of the daemon under the name of the function. *)
Lemma getDigestFromBuildOutput_daemon_calls_witness :
  let reader :=
    [(ToyDecoder.seconds 0, ToyDecoder.streamLine "Successfully built 0123456789ab")] in
  (exists out,
     ToyDecoder.readDockerOutput None reader = Returns (out, None) /\
     aux out = None /\ shortDigest out <> "" /\
     [ImageInspectWithRaw_call "0123456789ab"]
     = [ImageInspectWithRaw_call (shortDigest out)]) /\
  ToyDecoder.getDigestFromBuildOutput None reader
  = Returns ([ImageInspectWithRaw_call "0123456789ab"],
             Err "getDigestFromBuildOutput: No such image").
Proof.
  split; [| reflexivity].
  destruct (proj1 (getDigestFromBuildOutput_daemon_calls ToyDecoder.buildkitPrinter tt
              ToyDecoder.parseAndPrint ToyDecoder.json_Unmarshal_bytes
              ToyDecoder.StatusResponse_Unmarshal ToyDecoder.json_Unmarshal_map
              ToyDecoder.ImageInspectWithRaw None
              [(ToyDecoder.seconds 0,
                ToyDecoder.streamLine "Successfully built 0123456789ab")]
              [ImageInspectWithRaw_call "0123456789ab"]
              (Err "getDigestFromBuildOutput: No such image") eq_refl)) as [H|H].
  - discriminate H.
  - exact H.
Defined.

End DecoderMoreExamples.

(** ** Tagging and pushing *)

Section TagAndPushProperties.

Variable ImageTagPrefix : string.
Variable Encoded : Digest -> string.
Variable Named : Type.
Variable WithTag : Named -> string -> Result NamedTagged.
Variable NamedTagged_String : NamedTagged -> string.
Variable ImageTag : string -> string -> option error.
Variable ImagePush : NamedTagged -> Result (list (Clock * Result JSONMessage)).
Variable Sprintf_q : string -> string.
Variable buildkitPrinter : Type.
Variable newBuildkitPrinter : buildkitPrinter.
Variable parseAndPrint :
  buildkitPrinter -> list vertex * list vertexLog -> buildkitPrinter * option error.
Variable json_Unmarshal_bytes : RawMessage -> Result string.
Variable StatusResponse_Unmarshal : string -> Result StatusResponse.

Local Abbreviation tag :=
  (TagImage ImageTagPrefix Encoded Named WithTag NamedTagged_String ImageTag).
Local Abbreviation push :=
  (PushImage ImagePush Sprintf_q buildkitPrinter newBuildkitPrinter parseAndPrint
     json_Unmarshal_bytes StatusResponse_Unmarshal).
Local Abbreviation decode :=
  (readDockerOutput buildkitPrinter newBuildkitPrinter parseAndPrint
     json_Unmarshal_bytes StatusResponse_Unmarshal).
Local Abbreviation iter :=
  (iterations buildkitPrinter parseAndPrint json_Unmarshal_bytes StatusResponse_Unmarshal).
Local Abbreviation body :=
  (loopBody buildkitPrinter parseAndPrint json_Unmarshal_bytes StatusResponse_Unmarshal).
Local Abbreviation isBenign :=
  (benign buildkitPrinter parseAndPrint json_Unmarshal_bytes StatusResponse_Unmarshal).

(** X19. A digest whose encoded form has fewer than 16 characters is not
    tagged: [TagImage] returns the error of [digestAsTag] under its name
    without a call to the daemon, whatever [reference.WithTag] and the
    daemon would answer. *)
Theorem TagImage_short_digest ref dig :
  (String.length (Encoded dig) < 16)%nat ->
  tag ref dig = ([], Err ("TagImage: digest too short: " +:+ Encoded dig)).
Proof.
  intros H. unfold TagImage. by rewrite (digestAsTag_short _ _ _ H).
Qed.

(** X20. When [reference.WithTag] gives a reference that carries the tag it
    was given, the reference [TagImage] returns is one [digestMatchesRef]
    accepts for the digest: its tag is [ImageTagPrefix] and the first 16
    characters of the encoded form of the digest. The daemon was asked once,
    to tag the digest with that reference, and did not refuse. *)
Theorem TagImage_matches ref dig calls namedTagged :
  (forall r t nt, WithTag r t = Ok nt -> Tag nt = t) ->
  tag ref dig = (calls, Ok namedTagged) ->
  digestMatchesRef ImageTagPrefix Encoded namedTagged dig = true /\
  Tag namedTagged = ImageTagPrefix +:+ str_take 16 (Encoded dig) /\
  calls = [ImageTag_call dig (NamedTagged_String namedTagged)] /\
  ImageTag dig (NamedTagged_String namedTagged) = None.
Proof.
  intros HWithTag. unfold TagImage.
  destruct (Nat.lt_ge_cases (String.length (Encoded dig)) 16) as [Hlen|Hlen].
  { by rewrite (digestAsTag_short _ _ _ Hlen). }
  rewrite (digestAsTag_long _ _ _ Hlen).
  destruct (WithTag ref _) as [nt|e] eqn:Hnt; [| done].
  destruct (ImageTag dig (NamedTagged_String nt)) as [e|] eqn:Hd; [done |].
  intros [= <- <-]. apply HWithTag in Hnt.
  split; [| done].
  apply digestMatchesRef_iff. rewrite Hnt, String_length_app, str_drop_app.
  rewrite length_str_take. split; [lia |]. apply prefix_str_take.
Qed.

Lemma iterations_continue_no_failure st reader st' :
  iter st reader = (st', Continue) -> Forall noFailure reader.
Proof.
  revert st. induction reader as [|[c d] reader IH]; intros st; [constructor |].
  change (iter st ((c, d) :: reader))
    with (match body st c d with
          | (st1, Continue) => iter st1 reader
          | (st1, Exit o) => (st1, Exit o)
          end).
  destruct (body st c d) as [st1 [|o]] eqn:E; [| done].
  intros H. constructor; [| by eapply IH].
  destruct d as [m|err]; [| by rewrite body_decode_error in E].
  exists m. split; [done |].
  destruct (String.eqb_spec (ErrorMessage m) "") as [Hem|Hem].
  - split; [done |]. destruct (Error m) as [e|] eqn:He; [| done].
    rewrite (body_error_record _ _ _ _ _ _ _) in E; [done | right; by rewrite He].
  - rewrite (body_error_record _ _ _ _ _ _ _) in E; [done | by left].
Qed.

(** X21. [PushImage] returns the reference it was given, and only when the
    daemon accepted the push, the context was not cancelled, and every
    element of the response was decoded and is no error record. *)
Theorem PushImage_success ctxErr ref pushed :
  push ctxErr ref = Returns (Ok pushed) ->
  pushed = ref /\ ctxErr = None /\
  exists response, ImagePush ref = Ok response /\ Forall noFailure response.
Proof.
  unfold PushImage. destruct (ImagePush ref) as [response|e]; [| done].
  destruct (decode ctxErr response) as [[out [e|]]|msg] eqn:E; [done | | done].
  intros [= <-]. split; [done |].
  destruct (decode_success _ _ _ _ _ _ _ _ E) as [-> _]. split; [done |].
  exists response. split; [done |].
  unfold readDockerOutput, readDockerOutput_run in E.
  destruct (iterations_cases _ parseAndPrint json_Unmarshal_bytes
              StatusResponse_Unmarshal (initialState newBuildkitPrinter) response)
    as [[st1 H1]|(st1 & o & H1)].
  - by eapply iterations_continue_no_failure.
  - rewrite <- (app_nil_r response) in E.
    rewrite (loop_app_exit _ _ _ _ _ _ _ _ _ _ H1) in E. simpl in E. subst o.
    by destruct (iterations_exit_zero _ _ _ _ _ _ _ _ _ H1).
Qed.

(** X22. An error record in the response of the daemon, after elements that
    are passed without leaving, makes [PushImage] fail with the cleaned
    message of the daemon under [pushing image] and the quoted name of the
    reference; what follows the record in the response is not read. *)
Theorem PushImage_error_record ctxErr ref pre now m post :
  ImagePush ref = Ok (pre ++ (now, Ok m) :: post) ->
  isErrorRecord m -> Forall isBenign pre ->
  push ctxErr ref
  = Returns (Err ("pushing image " +:+ Sprintf_q (Name ref) +:+ ": "
                    +:+ cleanupDockerBuildError (daemonMessage m))).
Proof.
  intros Hpush Herr Hpre. unfold PushImage. rewrite Hpush.
  rewrite (decode_error_record _ _ _ _ _ _ _ _ _ _ Herr Hpre).
  unfold Wrap. by rewrite !app_assoc_str.
Qed.

End TagAndPushProperties.

(** ** Tagging and pushing on concrete inputs *)

Section TagAndPushExamples.

(** A digest of twelve hex characters. *)
Lemma TagImage_short_digest_witness :
  ToyTag.TagImage "gcr.io/app" "sha256:0123456789ab"
  = ([], Err ("TagImage: digest too short: " +:+ ToyTag.Encoded "sha256:0123456789ab")).
Proof.
  refine (TagImage_short_digest ToyTag.ImageTagPrefix ToyTag.Encoded ToyTag.Named
            ToyTag.WithTag ToyTag.NamedTagged_String ToyTag.ImageTag
            "gcr.io/app" "sha256:0123456789ab" _).
  vm_compute. lia.
Defined.

(** A digest of 32 hex characters is tagged with the first 16 of them. *)
Lemma TagImage_matches_witness :
  let namedTagged := mkNamedTagged "gcr.io/app" "tilt-abcdef0123456789" in
  let dig := "sha256:abcdef0123456789aaaabbbbccccdddd" in
  ToyTag.TagImage "gcr.io/app" dig
  = ([ImageTag_call dig "gcr.io/app:tilt-abcdef0123456789"], Ok namedTagged) /\
  digestMatchesRef ToyTag.ImageTagPrefix ToyTag.Encoded namedTagged dig = true /\
  Tag namedTagged = ToyTag.ImageTagPrefix +:+ str_take 16 (ToyTag.Encoded dig).
Proof.
  split; [vm_compute; reflexivity |].
  pose proof (TagImage_matches ToyTag.ImageTagPrefix ToyTag.Encoded ToyTag.Named
            ToyTag.WithTag ToyTag.NamedTagged_String ToyTag.ImageTag
            "gcr.io/app" "sha256:abcdef0123456789aaaabbbbccccdddd"
            [ImageTag_call "sha256:abcdef0123456789aaaabbbbccccdddd"
               "gcr.io/app:tilt-abcdef0123456789"]
            (mkNamedTagged "gcr.io/app" "tilt-abcdef0123456789")) as H.
  refine (let '(conj H1 (conj H2 _)) := H _ _ in conj H1 H2).
  - intros r t nt. unfold ToyTag.WithTag.
    destruct (String.eqb t ""); [discriminate |]. by intros [= <-].
  - vm_compute. reflexivity.
Defined.

(** A push the registry accepts: the reference comes back, and the response
    holds no error record. *)
Lemma PushImage_success_witness :
  let ref := mkNamedTagged "gcr.io/app" "tilt-abcdef0123456789" in
  ToyTag.PushImage None ref = Returns (Ok ref) /\
  exists response, ToyTag.ImagePush ref = Ok response /\ Forall noFailure response.
Proof.
  split; [vm_compute; reflexivity |].
  refine (proj2 (proj2
            (PushImage_success ToyTag.ImagePush ToyTag.Sprintf_q
               ToyDecoder.buildkitPrinter tt
               ToyDecoder.parseAndPrint ToyDecoder.json_Unmarshal_bytes
               ToyDecoder.StatusResponse_Unmarshal None
               (mkNamedTagged "gcr.io/app" "tilt-abcdef0123456789")
               (mkNamedTagged "gcr.io/app" "tilt-abcdef0123456789") _))).
  vm_compute. reflexivity.
Defined.

(** A push the registry denies. *)
Lemma PushImage_error_record_witness :
  ToyTag.PushImage None (mkNamedTagged "private/app" "tilt-abcdef0123456789")
  = Returns (Err ("pushing image " +:+ ToyTag.Sprintf_q "private/app" +:+ ": "
                    +:+ cleanupDockerBuildError
                          "denied: requested access to the resource is denied")).
Proof.
  refine (PushImage_error_record ToyTag.ImagePush ToyTag.Sprintf_q
            ToyDecoder.buildkitPrinter tt
            ToyDecoder.parseAndPrint ToyDecoder.json_Unmarshal_bytes
            ToyDecoder.StatusResponse_Unmarshal None
            (mkNamedTagged "private/app" "tilt-abcdef0123456789")
            [(ToyDecoder.seconds 0, ToyDecoder.streamLine "The push refers to repository")]
            (ToyDecoder.seconds 1)
            (mkJSONMessage "" "" None "" None
               "denied: requested access to the resource is denied" None)
            [] _ _ _).
  - reflexivity.
  - left. discriminate.
  - repeat constructor. eexists. split; [reflexivity |].
    repeat split. intros H. vm_compute in H. discriminate H.
Defined.

End TagAndPushExamples.
